(** * Session coordinator (lib/context.js, lib/tools/utils.js)

    A shallow embedding of the [Context] class of the browser automation
    server and of the network quiescence waiter, with the properties of
    its tab registry, modal-state list, dialog race, handle memoization
    and state capture / restore.

    Conventions.
    - JavaScript object identity is modelled by allocation references
      ([tab_ref], promise references): two objects are [===] exactly when
      their references agree.
    - [undefined] in an optional slot is [None].
    - JavaScript numbers that are used as array indices are integers [Z];
      an out-of-range read of an array yields [None] ([undefined]).
    - An exception is a [Throw] completion; state changes made before a
      throw persist, as they do in JavaScript.
    - The browser engine is external. Its operations are recorded in
      the order they are asked, and a script of replies decides which
      of them reject; the statements quantify over all scripts.
    - The methods that await engine operations one after the other
      ([selectTab], [waitForTimeout], capture, restore, handle
      creation) are run from call to return without other callbacks in
      between. The parts whose point is the interleaving ([Promise.race]
      against dialogs, the memoized handle promise, the quiescence
      waiter, the page callbacks of the registry) are run under
      arbitrary sequences of events. *)

From stdpp Require Import base tactics option list numbers strings pretty gmap.
From Stdlib Require Import ZArith Lia.

Set Default Proof Using "Type".

(** ** JavaScript runtime fragments *)

(** [arr[i]] for an integer index: [undefined] outside [0 .. length-1]. *)
Definition js_index {A} (arr : list A) (i : Z) : option A :=
  if (i <? 0)%Z then None else arr !! Z.to_nat i.

(** [arr.indexOf(x)]: position of the first element identical to [x],
    or [-1]. *)
Fixpoint indexOf_from {A} `{EqDecision A} (x : A) (arr : list A) (i : Z) : Z :=
  match arr with
  | [] => (-1)%Z
  | y :: arr' => if decide (y = x) then i else indexOf_from x arr' (i + 1)%Z
  end.

Definition indexOf {A} `{EqDecision A} (x : A) (arr : list A) : Z :=
  indexOf_from x arr 0%Z.

(** [arr.splice(i, 1)] for an index that [indexOf] returned. *)
Definition splice1 {A} (arr : list A) (i : Z) : list A :=
  delete (Z.to_nat i) arr.

(** The line feed used by [lines.join('\n')]. *)
Definition LF : string := String (Ascii.ascii_of_nat 10) EmptyString.

(** [parts.join(sep)]. *)
Definition join (sep : string) (parts : list string) : string :=
  String.concat sep parts.

Inductive JsError :=
  | TypeError (msg : string)
  | Error (msg : string)
  | EngineError (msg : string).

Inductive Completion (A : Type) :=
  | Normal (a : A)
  | Throw (e : JsError).
Arguments Normal {A} a.
Arguments Throw {A} e.

(** ** Data model *)

Definition Page := nat.
Definition PromiseRef := nat.

(** [new Tab(context, page, onClose)]: the wrapper object has its own
    identity [tab_ref]. *)
Record Tab := mkTab {
  tab_ref : nat;
  tab_page : Page;
}.

#[global] Instance Tab_eq_dec : EqDecision Tab.
Proof. solve_decision. Defined.

Record Dialog := mkDialog {
  dialog_type : string;
  dialog_message : string;
}.

(** [ModalState['type']] of lib/tools/tool.js. *)
Inductive ModalKind := dialog | fileChooser.

#[global] Instance ModalKind_eq_dec : EqDecision ModalKind.
Proof. solve_decision. Defined.

(** The argument of [setModalState]: a modal state without its tab. *)
Record ModalStateBody := mkModalStateBody {
  type : ModalKind;
  description : string;
  dialog_of : option Dialog;
}.

(** An element of [_modalStates]: [{ ...modalState, tab: inTab }]. *)
Record ModalState := mkModalState {
  ms_body : ModalStateBody;
  ms_tab : Tab;
}.

(** [ManualPromise<void>]: unresolved or resolved. *)
Inductive ManualPromise := Unresolved | Resolved.

Record PendingAction := mkPendingAction {
  dialogShown_signal : ManualPromise;
}.

Record DownloadEntry := mkDownloadEntry {
  download : nat;
  finished : bool;
  outputFile : string;
}.

(** [Record<string, string>], keys in insertion order. *)
Definition Storage := list (string * string).

Definition StorageState := string.

Record SavedTab := mkSavedTab {
  url : string;
  sessionStorage : Storage;
}.

(** [SavedBrowserState]. [ss_storageState = None] is [null]. *)
Record SavedBrowserState := mkSavedBrowserState {
  ss_storageState : option StorageState;
  ss_sessionStorage : list (string * Storage);
  ss_tabs : list SavedTab;
  ss_currentTabIndex : Z;
}.

(** The mutable fields of [class Context]. *)
Record Context := mkContext {
  _browserContextPromise : option PromiseRef;
  _tabs : list Tab;
  _currentTab : option Tab;
  _modalStates : list ModalState;
  _pendingAction : option PendingAction;
  _downloads : list DownloadEntry;
  _savedState : option SavedBrowserState;
}.

(** [new Context(tools, config)]. *)
Definition new_Context : Context :=
  mkContext None [] None [] None [] None.

Definition set_browserContextPromise (v : option PromiseRef) (c : Context) : Context :=
  mkContext v (_tabs c) (_currentTab c) (_modalStates c) (_pendingAction c)
            (_downloads c) (_savedState c).

Definition set_tabs (v : list Tab) (c : Context) : Context :=
  mkContext (_browserContextPromise c) v (_currentTab c) (_modalStates c)
            (_pendingAction c) (_downloads c) (_savedState c).

Definition set_currentTab (v : option Tab) (c : Context) : Context :=
  mkContext (_browserContextPromise c) (_tabs c) v (_modalStates c)
            (_pendingAction c) (_downloads c) (_savedState c).

Definition set_modalStates (v : list ModalState) (c : Context) : Context :=
  mkContext (_browserContextPromise c) (_tabs c) (_currentTab c) v
            (_pendingAction c) (_downloads c) (_savedState c).

Definition set_pendingAction (v : option PendingAction) (c : Context) : Context :=
  mkContext (_browserContextPromise c) (_tabs c) (_currentTab c) (_modalStates c)
            v (_downloads c) (_savedState c).

Definition set_savedState (v : option SavedBrowserState) (c : Context) : Context :=
  mkContext (_browserContextPromise c) (_tabs c) (_currentTab c) (_modalStates c)
            (_pendingAction c) (_downloads c) v.

(** ** Modal states *)

Definition setModalState (modalState : ModalStateBody) (inTab : Tab) (c : Context) : Context :=
  set_modalStates (_modalStates c ++ [mkModalState modalState inTab]) c.

Definition is_dialog (state : ModalState) : bool :=
  bool_decide (type (ms_body state) = dialog).

(** [this._modalStates.some(state => state.type === 'dialog')]. *)
Definition _javaScriptBlocked (c : Context) : bool :=
  existsb is_dialog (_modalStates c).

(** ** Tab registry *)

(** [close()], up to its first suspension point: the memoized handle is
    forgotten at once; the result names the handle whose teardown has
    been started, if any. *)
Definition close (c : Context) : Context * option PromiseRef :=
  match _browserContextPromise c with
  | None => (c, None)
  | Some promise => (set_browserContextPromise None c, Some promise)
  end.

(** [_onPageCreated(page)]; [ref] is the identity of the new [Tab]. *)
Definition _onPageCreated (ref : nat) (page : Page) (c : Context) : Context :=
  let tab := mkTab ref page in
  let c := set_tabs (_tabs c ++ [tab]) c in
  match _currentTab c with
  | None => set_currentTab (Some tab) c
  | Some _ => c
  end.

Definition _onPageClosed (tab : Tab) (c : Context) : Context * option PromiseRef :=
  let c := set_modalStates (filter (fun state => ms_tab state ≠ tab) (_modalStates c)) c in
  let index := indexOf tab (_tabs c) in
  if decide (index = (-1)%Z) then (c, None)
  else
    let c := set_tabs (splice1 (_tabs c) index) c in
    let c :=
      if decide (_currentTab c = Some tab)
      then set_currentTab
             (js_index (_tabs c) (Z.min index (Z.of_nat (length (_tabs c)) - 1))) c
      else c in
    match _tabs c with
    | [] => close c
    | _ :: _ => (c, None)
    end.

(** [listTabsMarkdown()]. [title] and [page_url] are the answers of the
    pages ([tab.title()], [tab.page.url()]). *)
Definition tab_line (title : Tab → string) (page_url : Page → string)
    (current : option Tab) (i : nat) (tab : Tab) : string :=
  let current := if decide (Some tab = current) then " (current)" else EmptyString in
  "- " +:+ pretty (i + 1) +:+ ":" +:+ current +:+ " [" +:+ title tab +:+ "] ("
       +:+ page_url (tab_page tab) +:+ ")".

Definition listTabsLines (title : Tab → string) (page_url : Page → string)
    (c : Context) : list string :=
  "### Open tabs" :: imap (tab_line title page_url (_currentTab c)) (_tabs c).

Definition listTabsMarkdown (title : Tab → string) (page_url : Page → string)
    (c : Context) : string :=
  match _tabs c with
  | [] => "### No tabs open"
  | _ :: _ => join LF (listTabsLines title page_url c)
  end.

(** The lines of a text: its maximal segments without a line feed. *)
Definition is_LF (a : Ascii.ascii) : bool :=
  Nat.eqb (Ascii.nat_of_ascii a) 10.

Fixpoint split_lines (s : string) : list string :=
  match s with
  | EmptyString => [EmptyString]
  | String a s' =>
      if is_LF a then EmptyString :: split_lines s'
      else match split_lines s' with
           | [] => [String a EmptyString]
           | line :: lines => String a line :: lines
           end
  end.

Fixpoint no_LF (s : string) : bool :=
  match s with
  | EmptyString => true
  | String a s' => negb (is_LF a) && no_LF s'
  end.

(** ** The engine and the effect monad *)

(** Operations the coordinator asks of the browser engine and of the
    host. *)
Inductive EngineCall :=
  | bringToFront (page : Page)
  | setTimeout (time : Z)
  | evaluate_setTimeout (page : Page) (time : Z)
  | await_handle (promise : PromiseRef)
  | storageState
  | evaluate_sessionStorage (page : Page)
  | addInitScript (data : list (string * Storage))
  | goto (page : Page) (target : string)
  | evaluate_setItems (page : Page) (storage : Storage)
  | newPage
  | connect (endpoint : string) (searchParams : list (string * string))
  | connectOverCDP (endpoint : string)
  | newContext (storage : option StorageState)
  | first_context
  | browserType_launch
  | createUserDataDir
  | browserType_launchPersistentContext.

(** How the engine answers an operation: it succeeds, or it rejects
    with a message. *)
Inductive Reply := Succeeds | Fails (message : string).

Record Engine := mkEngine {
  replies : list Reply;
  calls : list EngineCall;
  pages : list Page;
  fresh : nat;
  page_url : Page → string;
  page_sessionStorage : Page → Storage;
  context_storageState : StorageState;
}.

Record World := mkWorld {
  ctx : Context;
  eng : Engine;
}.

Definition M (A : Type) : Type := World → Completion A * World.

Definition ret {A} (a : A) : M A := fun w => (Normal a, w).

Definition bind {A B} (m : M A) (k : A → M B) : M B :=
  fun w =>
    match m w with
    | (Normal a, w') => k a w'
    | (Throw e, w') => (Throw e, w')
    end.

Definition throw {A} (e : JsError) : M A := fun w => (Throw e, w).

(** [try { body } catch (error) { handler }]. *)
Definition try_catch {A} (body : M A) (handler : JsError → M A) : M A :=
  fun w =>
    match body w with
    | (Normal a, w') => (Normal a, w')
    | (Throw e, w') => handler e w'
    end.

(** [try { body } finally { cleanup }]. *)
Definition try_finally {A} (body : M A) (cleanup : M unit) : M A :=
  fun w =>
    match body w with
    | (r, w') =>
        match cleanup w' with
        | (Normal _, w'') => (r, w'')
        | (Throw e, w'') => (Throw e, w'')
        end
    end.

#[global] Instance M_ret : MRet M := @ret.

#[global] Instance M_bind : MBind M := fun A B k m => bind m k.

Definition get_ctx : M Context := fun w => (Normal (ctx w), w).

Definition modify_ctx (f : Context → Context) : M unit :=
  fun w => (Normal tt, mkWorld (f (ctx w)) (eng w)).

Definition get_eng : M Engine := fun w => (Normal (eng w), w).

Definition modify_eng (f : Engine → Engine) : M unit :=
  fun w => (Normal tt, mkWorld (ctx w) (f (eng w))).

Definition next_reply (e : Engine) : Reply * list Reply :=
  match replies e with
  | [] => (Succeeds, [])
  | r :: rest => (r, rest)
  end.

(** The engine after it has been asked [call], with [rest] the replies
    still to come. *)
Definition asked (call : EngineCall) (rest : list Reply) (e : Engine) : Engine :=
  mkEngine rest (calls e ++ [call]) (pages e) (fresh e) (page_url e)
           (page_sessionStorage e) (context_storageState e).

(** One operation of the engine: it is recorded, and the next reply
    decides whether it resolves or rejects. *)
Definition engine (call : EngineCall) : M unit :=
  fun w =>
    let w' := mkWorld (ctx w) (asked call (next_reply (eng w)).2 (eng w)) in
    match (next_reply (eng w)).1 with
    | Succeeds => (Normal tt, w')
    | Fails message => (Throw (EngineError message), w')
    end.

(** A host operation that cannot fail: it is only recorded. *)
Definition host (call : EngineCall) : M unit :=
  modify_eng (fun e => asked call (replies e) e).

(** [selectTab(index)], for an integer [index]. *)
Definition selectTab (index : Z) : M unit :=
  c ← get_ctx;
  modify_ctx (set_currentTab (js_index (_tabs c) (index - 1)));;
  c ← get_ctx;
  match _currentTab c with
  | None => throw (TypeError "Cannot read properties of undefined (reading 'page')")
  | Some tab => engine (bringToFront (tab_page tab))
  end.

(** [waitForTimeout(time)]. *)
Definition waitForTimeout (time : Z) : M unit :=
  c ← get_ctx;
  match _currentTab c with
  | None => host (setTimeout time)
  | Some tab =>
      if _javaScriptBlocked c then host (setTimeout time)
      else engine (evaluate_setTimeout (tab_page tab) 1000)
  end.

(** ** State capture *)

Definition empty_state : SavedBrowserState :=
  mkSavedBrowserState None [] [] 0.

Definition set_storageState (v : option StorageState) (state : SavedBrowserState)
    : SavedBrowserState :=
  mkSavedBrowserState v (ss_sessionStorage state) (ss_tabs state) (ss_currentTabIndex state).

(** [state.tabs.push(entry)]. *)
Definition push_tab (entry : SavedTab) (state : SavedBrowserState) : SavedBrowserState :=
  mkSavedBrowserState (ss_storageState state) (ss_sessionStorage state)
                      (ss_tabs state ++ [entry]) (ss_currentTabIndex state).

Definition set_currentTabIndex (i : Z) (state : SavedBrowserState) : SavedBrowserState :=
  mkSavedBrowserState (ss_storageState state) (ss_sessionStorage state) (ss_tabs state) i.

(** [const { browserContext } = await this._browserContextPromise]:
    destructuring [undefined] is a [TypeError]; otherwise the handle's
    creation settles one way or the other. *)
Definition await_browserContextPromise : M unit :=
  c ← get_ctx;
  match _browserContextPromise c with
  | None => throw (TypeError "Cannot destructure property 'browserContext' of undefined")
  | Some promise => engine (await_handle promise)
  end.

(** The body of the capture loop for [tabs[i]]. The only operation of
    the [try] block that can throw precedes every change of [state], so
    the handler sees [state] as it was before the block. *)
Definition capture_tab (i : nat) (tab : Tab) (state : SavedBrowserState)
    : M SavedBrowserState :=
  try_catch
    (e ← get_eng;
     let url := page_url e (tab_page tab) in
     engine (evaluate_sessionStorage (tab_page tab));;
     e ← get_eng;
     let state := push_tab (mkSavedTab url (page_sessionStorage e (tab_page tab))) state in
     c ← get_ctx;
     mret (if decide (Some tab = _currentTab c)
           then set_currentTabIndex (Z.of_nat i) state else state))
    (fun _ => mret (push_tab (mkSavedTab "about:blank" []) state)).

Fixpoint capture_tabs (i : nat) (tabs : list Tab) (state : SavedBrowserState)
    : M SavedBrowserState :=
  match tabs with
  | [] => mret state
  | tab :: tabs' =>
      state ← capture_tab i tab state;
      capture_tabs (S i) tabs' state
  end.

(** [_captureCurrentState()]; [None] is [undefined]. *)
Definition _captureCurrentState : M (option SavedBrowserState) :=
  try_catch
    (await_browserContextPromise;;
     let state := empty_state in
     state ← try_catch
               (engine storageState;;
                e ← get_eng;
                mret (set_storageState (Some (context_storageState e)) state))
               (fun _ => mret state);
     c ← get_ctx;
     let tabs := _tabs c in
     state ← match tabs with
             | [] => mret state
             | _ :: _ => capture_tabs 0 tabs state
             end;
     mret (Some state))
    (fun _ => mret None).

Definition captureCurrentState : M (option SavedBrowserState) :=
  _captureCurrentState.

(** ** State restore *)

(** [browserContext.newPage()]: on success the engine reports the new
    page through the ['page'] listener, which runs [_onPageCreated]. *)
Definition browserContext_newPage : M Page :=
  engine newPage;;
  e ← get_eng;
  let page := fresh e in
  modify_eng (fun e => mkEngine (replies e) (calls e) (pages e ++ [page]) (S (fresh e))
                                (page_url e) (page_sessionStorage e)
                                (context_storageState e));;
  modify_ctx (_onPageCreated page page);;
  mret page.

Definition _restoreSessionStorageForPage (page : Page) (sessionStorage : Storage) : M unit :=
  match sessionStorage with
  | [] => mret tt
  | _ :: _ =>
      try_catch (engine (evaluate_setItems page sessionStorage)) (fun _ => mret tt)
  end.

(** The loop [for (let i = 1; i < this._savedState.tabs.length; i++)]. *)
Fixpoint restore_more_tabs (more : list SavedTab) : M unit :=
  match more with
  | [] => mret tt
  | tabData :: more' =>
      try_catch
        (page ← browserContext_newPage;
         if decide (url tabData ≠ "about:blank")
         then engine (goto page (url tabData));;
              _restoreSessionStorageForPage page (sessionStorage tabData)
         else mret tt)
        (fun _ => mret tt);;
      restore_more_tabs more'
  end.

(** [_restoreState(browserContext)]. *)
Definition _restoreState : M unit :=
  c ← get_ctx;
  match _savedState c with
  | None => mret tt
  | Some saved =>
      try_finally
        (try_catch
           (match ss_sessionStorage saved with
            | [] => mret tt
            | _ :: _ => engine (addInitScript (ss_sessionStorage saved))
            end;;
            match ss_tabs saved with
            | [] => mret tt
            | firstTab :: more =>
                e ← get_eng;
                match pages e with
                | page0 :: _ =>
                    if decide (url firstTab ≠ "about:blank")
                    then try_catch
                           (engine (goto page0 (url firstTab));;
                            _restoreSessionStorageForPage page0 (sessionStorage firstTab))
                           (fun _ => mret tt)
                    else mret tt
                | [] => mret tt
                end;;
                restore_more_tabs more;;
                c ← get_ctx;
                if ((0 <=? ss_currentTabIndex saved)
                    && (ss_currentTabIndex saved <? Z.of_nat (length (_tabs c))))%Z
                then try_catch (selectTab (ss_currentTabIndex saved + 1)) (fun _ => mret tt)
                else mret tt
            end)
           (fun _ => mret tt))
        (modify_ctx (set_savedState None))
  end.

(** ** Handle creation *)

(** A configuration value as it arrives from a JSON file or the command
    line. *)
Inductive JsValue :=
  | JUndefined
  | JNull
  | JBool (b : bool)
  | JNumber (n : Z)
  | JString (s : string)
  | JObject.

(** [if (v)]. *)
Definition truthy (v : JsValue) : bool :=
  match v with
  | JUndefined | JNull => false
  | JBool b => b
  | JNumber n => negb (n =? 0)%Z
  | JString s => negb (String.eqb s EmptyString)
  | JObject => true
  end.

(** [`${v}`]. *)
Definition template (v : JsValue) : string :=
  match v with
  | JUndefined => "undefined"
  | JNull => "null"
  | JBool true => "true"
  | JBool false => "false"
  | JNumber n => pretty n
  | JString s => s
  | JObject => "[object Object]"
  end.

(** White space and line terminators among the characters below 256,
    as [String.prototype.trim] strips them. *)
Definition is_white (a : Ascii.ascii) : bool :=
  let n := Ascii.nat_of_ascii a in
  bool_decide (n = 9 ∨ n = 10 ∨ n = 11 ∨ n = 12 ∨ n = 13 ∨ n = 32 ∨ n = 160).

(** [s.trim() === '']. *)
Fixpoint trim_is_empty (s : string) : bool :=
  match s with
  | EmptyString => true
  | String a s' => is_white a && trim_is_empty s'
  end.

(** [s.includes(sub)]. *)
Definition includes (s sub : string) : bool :=
  bool_decide (is_Some (String.index 0 sub s)).

Inductive BrowserName := chromium | firefox | webkit.

Definition BrowserName_string (n : BrowserName) : string :=
  match n with
  | chromium => "chromium"
  | firefox => "firefox"
  | webkit => "webkit"
  end.

(** [config.browser]. [launchOptions] holds [JSON.stringify] of the
    options object. *)
Record BrowserConfig := mkBrowserConfig {
  browserName : option BrowserName;
  isolated : bool;
  userDataDir : option string;
  remoteEndpoint : JsValue;
  cdpEndpoint : JsValue;
  launchOptions : option string;
  contextOptions_storageState : option StorageState;
}.

Record Config := mkConfig {
  browser : option BrowserConfig;
  saveTrace : bool;
}.

(** [{ browser, browserContext }]; [browser] is absent for a persistent
    context. *)
Record BrowserContextAndBrowser := mkHandle {
  has_browser : bool;
}.

Definition message_of (e : JsError) : string :=
  match e with
  | TypeError msg | Error msg | EngineError msg => msg
  end.

Definition createIsolatedContext (storageStateOption : option StorageState)
    : M BrowserContextAndBrowser :=
  try_catch
    (engine browserType_launch;;
     engine (newContext storageStateOption);;
     mret (mkHandle true))
    (fun error =>
       if includes (message_of error) "Executable doesn't exist"
       then throw (Error "Browser specified in your config is not installed. Either install it (likely) or change the config.")
       else throw (Error ("Failed to create isolated browser context: " +:+ message_of error))).

Definition launchPersistentContext (browserConfig : option BrowserConfig)
    : M BrowserContextAndBrowser :=
  try_catch
    (match browserConfig with
     | None => throw (TypeError "Cannot read properties of undefined (reading 'browserName')")
     | Some browserConfig =>
         match userDataDir browserConfig with
         | Some _ => mret tt
         | None => engine createUserDataDir
         end;;
         engine browserType_launchPersistentContext;;
         mret (mkHandle false)
     end)
    (fun error =>
       if includes (message_of error) "Executable doesn't exist"
       then throw (Error "Browser specified in your config is not installed. Either install it (likely) or change the config.")
       else if includes (message_of error) "Invalid URL"
       then throw (Error ("Failed to launch persistent context - invalid URL configuration: " +:+ message_of error))
       else throw (Error ("Failed to launch persistent browser context: " +:+ message_of error))).

Section CreateBrowserContext.
(** [new URL(s)] of the platform: whether [s] parses as an absolute
    URL. When it does not, the constructor throws. *)
Variable URL_parses : string → bool.

Variable config : Config.

Definition storageStateOption (c : Context) : option StorageState :=
  match _savedState c ≫= ss_storageState with
  | Some s => Some s
  | None => browser config ≫= contextOptions_storageState
  end.

Definition connect_remote (b : BrowserConfig) : M BrowserContextAndBrowser :=
  match remoteEndpoint b with
  | JString s =>
      if trim_is_empty s
      then throw (Error ("Invalid remote endpoint: " +:+ s +:+ ". Must be a valid URL string."))
      else if URL_parses s
      then
        let searchParams :=
          match browserName b with
          | Some n => [("browser", BrowserName_string n)]
          | None => []
          end ++
          match launchOptions b with
          | Some json => [("launch-options", json)]
          | None => []
          end in
        engine (connect s searchParams);;
        c ← get_ctx;
        engine (newContext (storageStateOption c));;
        mret (mkHandle true)
      else throw (TypeError "Invalid URL")
  | v =>
      throw (Error ("Invalid remote endpoint: " +:+ template v +:+ ". Must be a valid URL string."))
  end.

Definition connect_cdp (b : BrowserConfig) : M BrowserContextAndBrowser :=
  match cdpEndpoint b with
  | JString s =>
      if trim_is_empty s
      then throw (Error ("Invalid CDP endpoint: " +:+ s +:+ ". Must be a valid URL string."))
      else
        engine (connectOverCDP s);;
        c ← get_ctx;
        (if isolated b then engine (newContext (storageStateOption c))
         else host first_context);;
        mret (mkHandle true)
  | v =>
      throw (Error ("Invalid CDP endpoint: " +:+ template v +:+ ". Must be a valid URL string."))
  end.

(** [_createBrowserContext()]. *)
Definition _createBrowserContext : M BrowserContextAndBrowser :=
  match browser config with
  | Some b =>
      if truthy (remoteEndpoint b) then connect_remote b
      else if truthy (cdpEndpoint b) then connect_cdp b
      else if isolated b
      then c ← get_ctx; createIsolatedContext (storageStateOption c)
      else launchPersistentContext (Some b)
  | None => launchPersistentContext None
  end.
End CreateBrowserContext.

(** A necessary condition for [new URL(s)] to succeed without a base:
    [s] starts with a scheme, a letter followed by letters, digits,
    [+], [-] or [.] up to a colon. *)
Definition is_alpha (a : Ascii.ascii) : bool :=
  let n := Ascii.nat_of_ascii a in
  ((65 <=? n) && (n <=? 90)) || ((97 <=? n) && (n <=? 122)).

Definition is_scheme_char (a : Ascii.ascii) : bool :=
  let n := Ascii.nat_of_ascii a in
  is_alpha a || ((48 <=? n) && (n <=? 57)) || (n =? 43) || (n =? 45) || (n =? 46).

Fixpoint scheme_rest (s : string) : bool :=
  match s with
  | EmptyString => false
  | String a s' =>
      if (Ascii.nat_of_ascii a =? 58) then true
      else is_scheme_char a && scheme_rest s'
  end.

Definition has_url_scheme (s : string) : bool :=
  match s with
  | EmptyString => false
  | String a s' => is_alpha a && scheme_rest s'
  end.

(** *** Memoization of the handle *)

Inductive PromiseState := Pending | Fulfilled | Rejected.

#[global] Instance PromiseState_eq_dec : EqDecision PromiseState.
Proof. solve_decision. Defined.

(** The coordinator together with the promises that the calls of
    [_setupBrowserContext()] have returned so far, in the order of the
    calls. A [PromiseRef] is a position in [setups]; every call starts
    one creation of a handle. *)
Record Handles := mkHandles {
  hctx : Context;
  setups : list PromiseState;
}.

(** The handler that [_ensureBrowserContext] attaches with [.catch]. *)
Definition on_rejected (currentPromise : PromiseRef) (c : Context) : Context :=
  if decide (_browserContextPromise c = Some currentPromise)
  then set_browserContextPromise None c
  else c.

(** [_ensureBrowserContext()]. *)
Definition _ensureBrowserContext (h : Handles) : PromiseRef * Handles :=
  match _browserContextPromise (hctx h) with
  | Some promise => (promise, h)
  | None =>
      let currentPromise := length (setups h) in
      (currentPromise,
       mkHandles (set_browserContextPromise (Some currentPromise) (hctx h))
                 (setups h ++ [Pending]))
  end.

Inductive HandleEvent :=
  | call_ensure
  | call_close
  | setup_fulfilled (promise : PromiseRef)
  | setup_rejected (promise : PromiseRef).

(** One event; for [call_ensure] the promise handed to the caller. A
    promise settles at most once. *)
Definition handle_step (ev : HandleEvent) (h : Handles) : Handles * option PromiseRef :=
  match ev with
  | call_ensure => let '(p, h') := _ensureBrowserContext h in (h', Some p)
  | call_close => (mkHandles (close (hctx h)).1 (setups h), None)
  | setup_fulfilled p =>
      match setups h !! p with
      | Some Pending => (mkHandles (hctx h) (<[p := Fulfilled]> (setups h)), None)
      | _ => (h, None)
      end
  | setup_rejected p =>
      match setups h !! p with
      | Some Pending =>
          (mkHandles (on_rejected p (hctx h)) (<[p := Rejected]> (setups h)), None)
      | _ => (h, None)
      end
  end.

Fixpoint handle_run (evs : list HandleEvent) (h : Handles) : Handles * list PromiseRef :=
  match evs with
  | [] => (h, [])
  | ev :: evs' =>
      let '(h', r) := handle_step ev h in
      let '(h'', rs) := handle_run evs' h' in
      (h'', option_list r ++ rs)
  end.

(** ** Racing an action against dialogs *)

(** The double quote of the template in [dialogShown]. *)
Definition DQ : string := String (Ascii.ascii_of_nat 34) EmptyString.

Definition dialog_state (d : Dialog) : ModalStateBody :=
  mkModalStateBody dialog
    (DQ +:+ dialog_type d +:+ DQ +:+ " dialog with message " +:+ DQ
        +:+ dialog_message d +:+ DQ)
    (Some d).

(** [dialogShown(tab, dialog)]. *)
Definition dialogShown (tab : Tab) (d : Dialog) (c : Context) : Context :=
  let c := setModalState (dialog_state d) tab c in
  match _pendingAction c with
  | Some _ => set_pendingAction (Some (mkPendingAction Resolved)) c
  | None => c
  end.

Section Race.
(** The type of the action's result. *)
Context {R : Type}.

(** What can happen while [_raceAgainstModalDialogs(action)] is
    suspended in [Promise.race], and afterwards. One race is in flight
    at a time: the slot holds at most one pending action. *)
Inductive RaceEvent :=
  | dialog_reported (tab : Tab) (d : Dialog)
  | action_resolved (r : R)
  | action_rejected (e : JsError).

(** [Settled (Normal None)] is a return of [undefined]. *)
Inductive RacePhase :=
  | Racing
  | Settled (outcome : Completion (option R)).

Record Race := mkRace {
  race_ctx : Context;
  race_phase : RacePhase;
}.

(** Entry of [_raceAgainstModalDialogs], up to the [await]. *)
Definition race_start (c : Context) : Race :=
  mkRace (set_pendingAction (Some (mkPendingAction Unresolved)) c) Racing.

(** The [finally] block. *)
Definition race_finally (c : Context) : Context :=
  set_pendingAction None c.

Definition signal_resolved (c : Context) : bool :=
  match _pendingAction c with
  | Some (mkPendingAction Resolved) => true
  | _ => false
  end.

Definition race_step (ev : RaceEvent) (s : Race) : Race :=
  match race_phase s, ev with
  | Racing, dialog_reported tab d =>
      let c := dialogShown tab d (race_ctx s) in
      if signal_resolved c then mkRace (race_finally c) (Settled (Normal None))
      else mkRace c Racing
  | Racing, action_resolved r =>
      mkRace (race_finally (race_ctx s)) (Settled (Normal (Some r)))
  | Racing, action_rejected e =>
      mkRace (race_finally (race_ctx s)) (Settled (Throw e))
  | Settled _, dialog_reported tab d =>
      mkRace (dialogShown tab d (race_ctx s)) (race_phase s)
  | Settled _, _ => s
  end.

(** [_raceAgainstModalDialogs(action)] under a sequence of events. *)
Definition _raceAgainstModalDialogs (evs : list RaceEvent) (c : Context) : Race :=
  fold_left (fun s ev => race_step ev s) evs (race_start c).

Definition is_dialog_reported (ev : RaceEvent) : bool :=
  match ev with
  | dialog_reported _ _ => true
  | _ => false
  end.

(** The number of dialogs the engine reports in a sequence of events. *)
Definition count_dialogs (evs : list RaceEvent) : nat :=
  length (List.filter is_dialog_reported evs).
End Race.
Arguments RaceEvent R : clear implicits.
Arguments RacePhase R : clear implicits.
Arguments Race R : clear implicits.

(** ** Network quiescence waiter: [waitForCompletion] *)

Definition Request := nat.

(** The timer of [setTimeout(onTimeout, 10000)]. *)
Inductive Timer := Armed | Cleared | Fired.

(** [clearTimeout(timeout)]. *)
Definition clearTimeout (t : Timer) : Timer :=
  match t with
  | Armed => Cleared
  | Cleared => Cleared
  | Fired => Fired
  end.

Section Waiter.
(** The type of the callback's result. *)
Context {R : Type}.

(** Where the body of [waitForCompletion] is suspended, or how it
    was left. *)
Inductive WaitPhase :=
  | InCallback
  | AtBarrier (result : R)
  | InDelay (result : R)
  | Returned (result : R)
  | Thrown (e : JsError).

(** The variables of one call of [waitForCompletion], the
    registrations of its three listeners on the page, its timer, and
    whether a [waitForLoadState('load')] of its is outstanding. *)
Record Waiter := mkWaiter {
  requests : gset Request;
  frameNavigated : bool;
  waitBarrier : ManualPromise;
  on_request : bool;
  on_requestfinished : bool;
  on_framenavigated : bool;
  timeout : Timer;
  load_awaited : bool;
  phase : WaitPhase;
}.

Definition set_requests (v : gset Request) (s : Waiter) : Waiter :=
  mkWaiter v (frameNavigated s) (waitBarrier s) (on_request s) (on_requestfinished s)
           (on_framenavigated s) (timeout s) (load_awaited s) (phase s).

Definition set_frameNavigated (v : bool) (s : Waiter) : Waiter :=
  mkWaiter (requests s) v (waitBarrier s) (on_request s) (on_requestfinished s)
           (on_framenavigated s) (timeout s) (load_awaited s) (phase s).

Definition set_timeout (v : Timer) (s : Waiter) : Waiter :=
  mkWaiter (requests s) (frameNavigated s) (waitBarrier s) (on_request s)
           (on_requestfinished s) (on_framenavigated s) v (load_awaited s) (phase s).

Definition set_load_awaited (v : bool) (s : Waiter) : Waiter :=
  mkWaiter (requests s) (frameNavigated s) (waitBarrier s) (on_request s)
           (on_requestfinished s) (on_framenavigated s) (timeout s) v (phase s).

Definition set_phase (v : WaitPhase) (s : Waiter) : Waiter :=
  mkWaiter (requests s) (frameNavigated s) (waitBarrier s) (on_request s)
           (on_requestfinished s) (on_framenavigated s) (timeout s) (load_awaited s) v.

(** [waitCallback()]: resolves [waitBarrier]. *)
Definition waitCallback (s : Waiter) : Waiter :=
  mkWaiter (requests s) (frameNavigated s) Resolved (on_request s)
           (on_requestfinished s) (on_framenavigated s) (timeout s) (load_awaited s)
           (phase s).

(** [dispose()]: three [tab.page.off] and [clearTimeout(timeout)]. *)
Definition dispose (s : Waiter) : Waiter :=
  mkWaiter (requests s) (frameNavigated s) (waitBarrier s) false false false
           (clearTimeout (timeout s)) (load_awaited s) (phase s).

Definition requestListener (request : Request) (s : Waiter) : Waiter :=
  set_requests ({[request]} ∪ requests s) s.

Definition requestFinishedListener (request : Request) (s : Waiter) : Waiter :=
  let s := set_requests (requests s ∖ {[request]}) s in
  if decide (requests s = ∅) then waitCallback s else s.

(** [frame.parentFrame()] is non-null exactly for a subframe. *)
Definition frameNavigateListener (has_parent : bool) (s : Waiter) : Waiter :=
  if has_parent then s
  else
    let s := set_frameNavigated true s in
    let s := dispose s in
    let s := set_timeout (clearTimeout (timeout s)) s in
    set_load_awaited true s.

Definition onTimeout (s : Waiter) : Waiter :=
  waitCallback (dispose s).

(** The call up to [await callback()]: listeners registered, timer
    armed, the callback running. *)
Definition waiter_start : Waiter :=
  mkWaiter ∅ false Unresolved true true true Armed false InCallback.

(** The body resumes from [await waitBarrier] as soon as the barrier
    is resolved, and calls [context.waitForTimeout(1000)]. *)
Definition resume (s : Waiter) : Waiter :=
  match phase s, waitBarrier s with
  | AtBarrier result, Resolved => set_phase (InDelay result) s
  | _, _ => s
  end.

Inductive WaitEvent :=
  | request (r : Request)
  | requestfinished (r : Request)
  | framenavigated (has_parent : bool)
  | timeout_elapsed
  | load_reached
  | callback_resolved (result : R)
  | callback_rejected (e : JsError)
  | delay_resolved
  | delay_rejected (e : JsError).

(** One event. A page event reaches a listener only while it is
    registered, the timer fires only while armed; the settlement of
    the callback and of the final delay are taken where the body is
    suspended on them, and leave through [finally { dispose() }]. *)
Definition wait_step (ev : WaitEvent) (s : Waiter) : Waiter :=
  match ev with
  | request r => if on_request s then requestListener r s else s
  | requestfinished r =>
      if on_requestfinished s then resume (requestFinishedListener r s) else s
  | framenavigated has_parent =>
      if on_framenavigated s then frameNavigateListener has_parent s else s
  | timeout_elapsed =>
      match timeout s with
      | Armed => resume (onTimeout (set_timeout Fired s))
      | _ => s
      end
  | load_reached =>
      if load_awaited s then resume (waitCallback (set_load_awaited false s)) else s
  | callback_resolved result =>
      match phase s with
      | InCallback =>
          let s := if decide (requests s = ∅) then
                     if frameNavigated s then s else waitCallback s
                   else s in
          resume (set_phase (AtBarrier result) s)
      | _ => s
      end
  | callback_rejected e =>
      match phase s with
      | InCallback => set_phase (Thrown e) (dispose s)
      | _ => s
      end
  | delay_resolved =>
      match phase s with
      | InDelay result => set_phase (Returned result) (dispose s)
      | _ => s
      end
  | delay_rejected e =>
      match phase s with
      | InDelay _ => set_phase (Thrown e) (dispose s)
      | _ => s
      end
  end.

(** [waitForCompletion(context, tab, callback)] under a sequence of
    events. *)
Definition waitForCompletion (evs : list WaitEvent) : Waiter :=
  fold_left (fun s ev => wait_step ev s) evs waiter_start.

(** The body has got past [await waitBarrier]. *)
Definition past_barrier (s : Waiter) : bool :=
  match phase s with
  | InDelay _ | Returned _ => true
  | _ => false
  end.

(** The call has been left, by [return] or by an exception. *)
Definition exited (s : Waiter) : bool :=
  match phase s with
  | Returned _ | Thrown _ => true
  | _ => false
  end.

(** The requests whose start, respectively end, occurs in a sequence
    of events, a top-level navigation and the timeout in it. *)
Definition started (evs : list WaitEvent) : list Request :=
  omap (fun ev => match ev with request r => Some r | _ => None end) evs.

Definition ended (evs : list WaitEvent) : list Request :=
  omap (fun ev => match ev with requestfinished r => Some r | _ => None end) evs.

Definition is_top_navigation (ev : WaitEvent) : bool :=
  match ev with
  | framenavigated false => true
  | _ => false
  end.

Definition is_timeout (ev : WaitEvent) : bool :=
  match ev with
  | timeout_elapsed => true
  | _ => false
  end.

(** The events that can resolve [waitBarrier], each with its
    condition on the state [s'] it leaves behind. *)
Definition releases (ev : WaitEvent) (s s' : Waiter) : Prop :=
  match ev with
  | requestfinished _ => requests s' = ∅
  | callback_resolved _ => requests s' = ∅ ∧ frameNavigated s' = false
  | load_reached => load_awaited s = true
  | timeout_elapsed => timeout s = Armed
  | _ => False
  end.
End Waiter.
Arguments WaitPhase R : clear implicits.
Arguments Waiter R : clear implicits.
Arguments WaitEvent R : clear implicits.

(** ** Engine events on the tab registry *)

(** The callbacks through which the engine drives the registry: a page
    was created, the page of a tab was closed, a tab raised a dialog. *)
Inductive RegistryEvent :=
  | page_created (page : Page)
  | page_closed (tab : Tab)
  | dialog_raised (tab : Tab) (d : Dialog).

(** The coordinator and the next unused [Tab] identity. *)
Record Registry := mkRegistry {
  rctx : Context;
  next_ref : nat;
}.

Definition registry_step (ev : RegistryEvent) (r : Registry) : Registry :=
  match ev with
  | page_created page =>
      mkRegistry (_onPageCreated (next_ref r) page (rctx r)) (S (next_ref r))
  | page_closed tab => mkRegistry (_onPageClosed tab (rctx r)).1 (next_ref r)
  | dialog_raised tab d => mkRegistry (dialogShown tab d (rctx r)) (next_ref r)
  end.

Definition registry_run (evs : list RegistryEvent) : Registry :=
  fold_left (fun r ev => registry_step ev r) evs (mkRegistry new_Context 0).

(** What happens to the registry during a session: the callbacks of
    the engine, and the two calls that move the selection. A
    [selectTab(index)] assigns [_tabs[index - 1]] to the current tab
    before it asks anything of the engine, so the assignment stands
    however the engine answers. A [newTab()] whose [newPage()] gives
    [page] has run [_onPageCreated(page)] by the time [newPage()]
    returns, and then assigns [_tabs.find(t => t.page === page)]. *)
Inductive SessionEvent :=
  | engine_event (ev : RegistryEvent)
  | selectTab_called (index : Z)
  | newTab_called (page : Page).

Definition session_step (ev : SessionEvent) (r : Registry) : Registry :=
  match ev with
  | engine_event ev => registry_step ev r
  | selectTab_called index =>
      mkRegistry (set_currentTab (js_index (_tabs (rctx r)) (index - 1)) (rctx r))
                 (next_ref r)
  | newTab_called page =>
      let r := registry_step (page_created page) r in
      mkRegistry
        (set_currentTab (find (fun t => bool_decide (tab_page t = page)) (_tabs (rctx r)))
                        (rctx r))
        (next_ref r)
  end.

Definition session_run (evs : list SessionEvent) : Registry :=
  fold_left (fun r ev => session_step ev r) evs (mkRegistry new_Context 0).

(** ** Vocabulary of the statements *)

(** The reply to the [k]-th operation from now; the engine succeeds
    when nothing else is scripted. *)
Definition reply_at (k : nat) (e : Engine) : Reply :=
  default Succeeds (replies e !! k).

(** The entry that the capture loop records for a tab, given the reply
    to the read of its session storage. *)
Definition captured_entry (e : Engine) (r : Reply) (tab : Tab) : SavedTab :=
  match r with
  | Succeeds =>
      mkSavedTab (page_url e (tab_page tab)) (page_sessionStorage e (tab_page tab))
  | Fails _ => mkSavedTab "about:blank" []
  end.

(** An endpoint value that the guards of [_createBrowserContext]
    reject: not a string, or a string of white space only. *)
Definition not_a_string_or_blank (v : JsValue) : bool :=
  match v with
  | JString s => trim_is_empty s
  | _ => true
  end.

(** A malformed endpoint: a value that is not a string, or a string
    that is blank or does not parse as a URL. *)
Definition malformed (URL_parses : string → bool) (v : JsValue) : bool :=
  match v with
  | JString s => trim_is_empty s || negb (URL_parses s)
  | _ => true
  end.

Definition is_connect (call : EngineCall) : bool :=
  match call with
  | connect _ _ | connectOverCDP _ => true
  | _ => false
  end.

(** Identities handed out so far are below [next_ref], and no tab is
    registered twice. *)
Definition registry_inv (r : Registry) : Prop :=
  NoDup (_tabs (rctx r)) ∧ ∀ tab, tab ∈ _tabs (rctx r) → tab_ref tab < next_ref r.

(** Every listener of the waiter is off and no timer is pending. *)
Definition disposed {R} (s : Waiter R) : Prop :=
  on_request s = false ∧ on_requestfinished s = false ∧
  on_framenavigated s = false ∧ timeout s ≠ Armed.

(** What holds of the waiter after every sequence of events. *)
Definition waiter_inv {R} (s : Waiter R) : Prop :=
  (past_barrier s = true → waitBarrier s = Resolved) ∧
  (load_awaited s = true → frameNavigated s = true) ∧
  (exited s = true → disposed s).

(** The events that never empty the memo slot: a caller asking for the
    handle, and a creation that succeeds. *)
Definition keeps_memo (ev : HandleEvent) : bool :=
  match ev with
  | call_ensure | setup_fulfilled _ => true
  | call_close | setup_rejected _ => false
  end.

(** A request is in flight after a sequence of events when its start
    occurs in the sequence and its end does not occur afterwards. *)
Definition in_flight {R} (evs : list (WaitEvent R)) (r : Request) : Prop :=
  ∃ pre post, evs = pre ++ request r :: post ∧ requestfinished r ∉ post.

(** * Further operations *)

(** ** File names: [sanitizeForFilePath] (tools/utils.js) *)

(** The character class of the regular expression in [sanitize]:
    [\x00-\x2C], [\x2E-\x2F], [\x3A-\x40], [\x5B-\x60], [\x7B-\x7F]. *)
Definition unsafe_char (a : Ascii.ascii) : bool :=
  let n := Ascii.nat_of_ascii a in
  (n <=? 44) || ((46 <=? n) && (n <=? 47)) || ((58 <=? n) && (n <=? 64))
  || ((91 <=? n) && (n <=? 96)) || ((123 <=? n) && (n <=? 127)).

Definition HYPHEN : Ascii.ascii := Ascii.ascii_of_nat 45.

Definition FULL_STOP : Ascii.ascii := Ascii.ascii_of_nat 46.

(** [s.replace(/[...]+/g, '-')]: every maximal run of characters of the
    class becomes one hyphen. [in_run] tells that the previous character
    belonged to the class. *)
Fixpoint sanitize_from (in_run : bool) (s : string) : string :=
  match s with
  | EmptyString => EmptyString
  | String a s' =>
      if unsafe_char a
      then if in_run then sanitize_from true s'
           else String HYPHEN (sanitize_from true s')
      else String a (sanitize_from false s')
  end.

Definition sanitize (s : string) : string := sanitize_from false s.

(** [s.lastIndexOf(a)] for a single character, [-1] when absent. *)
Fixpoint lastIndexOf (a : Ascii.ascii) (s : string) : Z :=
  match s with
  | EmptyString => (-1)%Z
  | String b s' =>
      let later := lastIndexOf a s' in
      if decide (later = (-1)%Z)
      then if decide (b = a) then 0%Z else (-1)%Z
      else (later + 1)%Z
  end.

(** [s.substring(0, n)] and [s.substring(n)]. *)
Fixpoint string_take (n : nat) (s : string) : string :=
  match n, s with
  | S n', String a s' => String a (string_take n' s')
  | _, _ => EmptyString
  end.

Fixpoint string_drop (n : nat) (s : string) : string :=
  match n, s with
  | S n', String _ s' => string_drop n' s'
  | _, _ => s
  end.

Definition sanitizeForFilePath (s : string) : string :=
  let separator := lastIndexOf FULL_STOP s in
  if decide (separator = (-1)%Z) then sanitize s
  else sanitize (string_take (Z.to_nat separator) s)
       +:+ String FULL_STOP EmptyString
       +:+ sanitize (string_drop (Z.to_nat (separator + 1)) s).

(** Every character of a string satisfies a test. *)
Fixpoint string_forall (test : Ascii.ascii → bool) (s : string) : bool :=
  match s with
  | EmptyString => true
  | String a s' => test a && string_forall test s'
  end.

(** The number of occurrences of a character. *)
Fixpoint count_char (a : Ascii.ascii) (s : string) : nat :=
  match s with
  | EmptyString => 0
  | String b s' => (if decide (b = a) then 1 else 0) + count_char a s'
  end.

(** A character that [sanitize] keeps. *)
Definition safe_char (a : Ascii.ascii) : bool := negb (unsafe_char a).

(** A character of a sanitized file name: kept by [sanitize], or the
    full stop before the extension. *)
Definition name_char (a : Ascii.ascii) : bool :=
  safe_char a || bool_decide (a = FULL_STOP).

(** ** Statements about the registry *)

(** The current tab is a registered one, and there is a current tab
    whenever a tab is registered. *)
Definition current_registered (c : Context) : Prop :=
  match _currentTab c with
  | Some tab => tab ∈ _tabs c
  | None => _tabs c = []
  end.

(** The waiter between the completion of the callback and its return
    from the barrier, with the listeners registered: the barrier is
    resolved exactly when no request is in flight. *)
Definition draining {R} (result : R) (s : Waiter R) : Prop :=
  on_requestfinished s = true ∧
  ((phase s = InDelay result ∧ waitBarrier s = Resolved ∧ requests s = ∅) ∨
   (phase s = AtBarrier result ∧ waitBarrier s = Unresolved ∧ requests s ≠ ∅)).

(** ** Merging configurations: [pickDefined], [mergeConfig] (config.js) *)

#[global] Instance JsValue_eq_dec : EqDecision JsValue.
Proof. solve_decision. Defined.

(** [a ?? b]. *)
Definition coalesce (a b : JsValue) : JsValue :=
  match a with
  | JUndefined | JNull => b
  | _ => a
  end.

(** [pickDefined(obj)]: [obj ?? {}] without the keys that hold
    [undefined]. An options object is a finite map from keys to
    values. *)
Definition pickDefined (obj : option (gmap string JsValue)) : gmap string JsValue :=
  filter (fun kv => kv.2 ≠ JUndefined) (default ∅ obj).

(** [config.browser] before merging: every field may be missing. *)
Record BrowserOptions := mkBrowserOptions {
  bo_browserName : JsValue;
  bo_isolated : JsValue;
  bo_launchOptions : option (gmap string JsValue);
  bo_contextOptions : option (gmap string JsValue);
  bo_userDataDir : JsValue;
  bo_cdpEndpoint : JsValue;
  bo_remoteEndpoint : JsValue;
}.

(** A configuration object: [browser], [network], and the other
    top-level keys. *)
Record RawConfig := mkRawConfig {
  raw_browser : option BrowserOptions;
  raw_network : option (gmap string JsValue);
  raw_rest : gmap string JsValue;
}.

(** [config.browser?.field]. *)
Definition browser_field (field : BrowserOptions → JsValue) (config : RawConfig) : JsValue :=
  from_option field JUndefined (raw_browser config).

(** [config.browser?.launchOptions] and the like. *)
Definition browser_options (field : BrowserOptions → option (gmap string JsValue))
    (config : RawConfig) : option (gmap string JsValue) :=
  raw_browser config ≫= field.

(** [mergeConfig(base, overrides)]. In a spread the later object wins,
    which is the left operand of the union of maps. *)
Definition mergeConfig (base overrides : RawConfig) : RawConfig :=
  let browserName :=
    coalesce (coalesce (browser_field bo_browserName overrides)
                       (browser_field bo_browserName base))
             (JString "chromium") in
  let launchOptions :=
    {["assistantMode" := JBool true]}
    ∪ (pickDefined (browser_options bo_launchOptions overrides)
       ∪ pickDefined (browser_options bo_launchOptions base)) in
  let launchOptions :=
    if decide (browserName ≠ JString "chromium") then delete "channel" launchOptions
    else launchOptions in
  let browser :=
    mkBrowserOptions
      browserName
      (coalesce (coalesce (browser_field bo_isolated overrides)
                          (browser_field bo_isolated base))
                (JBool false))
      (Some launchOptions)
      (Some (pickDefined (browser_options bo_contextOptions overrides)
             ∪ pickDefined (browser_options bo_contextOptions base)))
      (coalesce (browser_field bo_userDataDir overrides) (browser_field bo_userDataDir base))
      (coalesce (browser_field bo_cdpEndpoint overrides) (browser_field bo_cdpEndpoint base))
      (coalesce (browser_field bo_remoteEndpoint overrides)
                (browser_field bo_remoteEndpoint base)) in
  mkRawConfig
    (Some browser)
    (Some (pickDefined (raw_network overrides) ∪ pickDefined (raw_network base)))
    (pickDefined (Some (raw_rest overrides)) ∪ pickDefined (Some (raw_rest base))).

(** The value that an options object defines for a key: none when the
    object or the key is missing or the key holds [undefined]. *)
Definition defined_at (obj : option (gmap string JsValue)) (k : string) : option JsValue :=
  match obj ≫= (fun m => m !! k) with
  | Some JUndefined => None
  | r => r
  end.

(** The value for a key after a merge: the one the overrides define,
    else the one the base defines. *)
Definition first_defined (overrides base : option (gmap string JsValue)) (k : string)
    : option JsValue :=
  match defined_at overrides k with
  | Some v => Some v
  | None => defined_at base k
  end.

(** The configuration [{}]. *)
Definition empty_config : RawConfig := mkRawConfig None None ∅.

(** No key of an options object holds [undefined]. *)
Definition all_defined (m : gmap string JsValue) : Prop :=
  ∀ k v, m !! k = Some v → v ≠ JUndefined.

(** The form of a configuration that [mergeConfig] returns. *)
Definition merged_form (config : RawConfig) : Prop :=
  ∃ name isolated launch context dir cdp remote network rest,
    config = mkRawConfig
               (Some (mkBrowserOptions name isolated (Some launch) (Some context)
                                       dir cdp remote))
               (Some network) rest ∧
    coalesce name JNull ≠ JNull ∧
    coalesce isolated JNull ≠ JNull ∧
    all_defined launch ∧ all_defined context ∧ all_defined network ∧
    all_defined rest ∧
    launch !! "assistantMode" = Some (JBool true) ∧
    (name ≠ JString "chromium" → launch !! "channel" = None).

(** ** Vocabulary of the further statements *)



(** An operation that starts a browser on this machine. *)
Definition is_local_launch (call : EngineCall) : bool :=
  match call with
  | browserType_launch | createUserDataDir | browserType_launchPersistentContext => true
  | _ => false
  end.

(** [m] only adds operations that satisfy [test] to the record of the
    engine. *)
Definition asks_only {A} (test : EngineCall → bool) (m : M A) : Prop :=
  ∀ w, ∃ added, calls (eng (m w).2) = calls (eng w) ++ added ∧ forallb test added = true.

(** The memoized promise exists and has not rejected. *)
Definition memo_live (h : Handles) : Prop :=
  ∀ p, _browserContextPromise (hctx h) = Some p →
       setups h !! p = Some Pending ∨ setups h !! p = Some Fulfilled.

(** A request for a new page. *)
Definition is_newPage (call : EngineCall) : bool :=
  match call with
  | newPage => true
  | _ => false
  end.

(** The operations asked of the engine between two worlds. *)
Definition asked_since (w w' : World) : list EngineCall :=
  drop (length (calls (eng w))) (calls (eng w')).

(** ** The report of the modal states *)

(** A tool as far as [modalStatesMarkdown] reads it:
    [tool.clearsModalState] and [tool.schema.name]. *)
Record Tool := mkTool {
  clearsModalState : option ModalKind;
  schema_name : string;
}.

(** One line of the report; a missing tool is printed as [undefined]. *)
Definition modal_line (tools : list Tool) (state : ModalState) : string :=
  let tool :=
    find (fun tool => bool_decide (clearsModalState tool = Some (type (ms_body state))))
         tools in
  "- [" +:+ description (ms_body state) +:+ "]: can be handled by the " +:+ DQ
        +:+ match tool with
            | Some tool => schema_name tool
            | None => "undefined"
            end
        +:+ DQ +:+ " tool".

(** [modalStatesMarkdown()]. *)
Definition modalStatesMarkdown (tools : list Tool) (c : Context) : list string :=
  let result := ["### Modal state"] in
  let result :=
    match _modalStates c with
    | [] => result ++ ["- There is no modal state present"]
    | _ :: _ => result
    end in
  result ++ map (modal_line tools) (_modalStates c).

(** * Properties *)

(** ** Arrays *)

Section Arrays.
Context {A : Type} `{EqDecision A}.

Lemma js_index_nat (arr : list A) (i : nat) :
  js_index arr (Z.of_nat i) = arr !! i.
Proof.
  unfold js_index. destruct (Z.ltb_spec (Z.of_nat i) 0); [lia|].
  by rewrite Nat2Z.id.
Qed.

Lemma js_index_out_of_range (arr : list A) (i : Z) :
  (i < 0 ∨ Z.of_nat (length arr) ≤ i)%Z → js_index arr i = None.
Proof.
  intros Hi. unfold js_index. destruct (Z.ltb_spec i 0); [done|].
  apply lookup_ge_None. lia.
Qed.



Lemma indexOf_from_range (x : A) (arr : list A) (k : Z) :
  indexOf_from x arr k = (-1)%Z ∨
  (k ≤ indexOf_from x arr k < k + Z.of_nat (length arr))%Z.
Proof.
  revert k. induction arr as [|y arr IH]; intros k; simpl; [by left|].
  case_decide; [right; lia|].
  destruct (IH (k + 1)%Z) as [->|?]; [by left|right; lia].
Qed.
End Arrays.

(** ** Tab registry *)

Lemma dialogShown_tabs (tab : Tab) (d : Dialog) (c : Context) :
  _tabs (dialogShown tab d c) = _tabs c.
Proof. unfold dialogShown. by destruct (_pendingAction _). Qed.

Lemma onPageCreated_tabs (ref : nat) (page : Page) (c : Context) :
  _tabs (_onPageCreated ref page c) = _tabs c ++ [mkTab ref page].
Proof. unfold _onPageCreated. simpl. by destruct (_currentTab c). Qed.

Lemma close_tabs (c : Context) : _tabs (close c).1 = _tabs c.
Proof. unfold close. by destruct (_browserContextPromise c). Qed.



Lemma onPageClosed_tabs_sublist (tab : Tab) (c : Context) :
  _tabs (_onPageClosed tab c).1 `sublist_of` _tabs c.
Proof.
  unfold _onPageClosed. simpl. case_decide; [done|].
  assert (splice1 (_tabs c) (indexOf tab (_tabs c)) `sublist_of` _tabs c) as Hsub
    by apply sublist_delete.
  case_decide; simpl; destruct (splice1 _ _) eqn:Hs;
    rewrite ?close_tabs; simpl; by rewrite ?Hs.
Qed.

Lemma registry_step_inv (ev : RegistryEvent) (r : Registry) :
  registry_inv r → registry_inv (registry_step ev r).
Proof.
  intros [Hnd Hlt]. destruct ev as [page|tab|tab d]; unfold registry_inv; simpl.
  - rewrite onPageCreated_tabs. split.
    + apply NoDup_app. split_and!; [done| |apply NoDup_singleton].
      intros t Ht ->%list_elem_of_singleton. apply Hlt in Ht. simpl in Ht. lia.
    + intros t [Ht| ->%list_elem_of_singleton]%elem_of_app; [|simpl; lia].
      apply Hlt in Ht. lia.
  - pose proof (onPageClosed_tabs_sublist tab (rctx r)) as Hsub. split.
    + by eapply sublist_NoDup.
    + intros t Ht. apply Hlt. by eapply elem_of_sublist.
  - rewrite dialogShown_tabs. done.
Qed.

Lemma registry_run_inv (evs : list RegistryEvent) : registry_inv (registry_run evs).
Proof.
  unfold registry_run.
  assert (registry_inv (mkRegistry new_Context 0)) as Hinit.
  { split; [apply NoDup_nil_2|]. intros t Ht. simpl in Ht. by apply elem_of_nil in Ht. }
  revert Hinit. generalize (mkRegistry new_Context 0).
  induction evs as [|ev evs IH]; intros r Hr; [done|].
  simpl. apply IH. by apply registry_step_inv.
Qed.



(** The events of the engine alone run as they do in the registry. *)
Lemma session_run_engine (evs : list RegistryEvent) :
  session_run (map engine_event evs) = registry_run evs.
Proof.
  unfold session_run, registry_run. generalize (mkRegistry new_Context 0).
  induction evs as [|ev evs IH]; intros r; [done|]. simpl. apply IH.
Qed.

(** [selectTab_called] is the assignment that [selectTab] makes,
    whatever the engine answers. *)
Lemma selectTab_assigns (index : Z) (w : World) :
  ctx (selectTab index w).2 = set_currentTab (js_index (_tabs (ctx w)) (index - 1)) (ctx w).
Proof.
  unfold selectTab, mbind, M_bind, bind, get_ctx, modify_ctx, throw. simpl.
  destruct (js_index (_tabs (ctx w)) (index - 1)) as [tab|]; [|done].
  unfold engine. simpl. by destruct (next_reply (eng w)).1.
Qed.

Lemma session_creates (pages : list Page) (r : Registry) :
  _tabs (rctx (fold_left (fun r ev => session_step ev r)
                 (map (fun page => engine_event (page_created page)) pages) r))
  = _tabs (rctx r) ++ imap (fun j => mkTab (next_ref r + j)) pages.
Proof.
  revert r. induction pages as [|page pages IH]; intros r; simpl.
  - by rewrite app_nil_r.
  - rewrite IH. simpl. rewrite onPageCreated_tabs, <- app_assoc. simpl.
    rewrite Nat.add_0_r. do 2 f_equal. apply imap_ext. intros j ? _. simpl.
    f_equal. lia.
Qed.

(** Every position of a registry is one that the current tab can have:
    after the creation of [pages], [selectTab(i + 1)] makes the tab at
    position [i] the current one. *)
Lemma session_selects_position (pages : list Page) (i : nat) :
  i < length pages →
  let c := rctx (session_run (map (fun page => engine_event (page_created page)) pages
                              ++ [selectTab_called (Z.of_nat i + 1)])) in
  _tabs c = imap mkTab pages ∧
  is_Some (_tabs c !! i) ∧
  _currentTab c = _tabs c !! i.
Proof.
  intros Hi c.
  assert (_tabs c = imap mkTab pages) as Htabs.
  { unfold c, session_run. rewrite fold_left_app. simpl. by rewrite session_creates. }
  split_and!; [exact Htabs| |].
  - apply lookup_lt_is_Some. by rewrite Htabs, length_imap.
  - unfold c, session_run. rewrite fold_left_app. simpl.
    replace (Z.of_nat i + 1 - 1)%Z with (Z.of_nat i) by lia. apply js_index_nat.
Qed.




(** ** Selecting a tab *)

(** C9. [selectTab(index)] with a 1-based index outside [1 .. N]
    overwrites the current tab with [undefined] and then fails with a
    [TypeError] before it asks anything of the engine; a coordinator
    that had a current tab has lost it. *)
Theorem selectTab_out_of_range_loses_current (w : World) (index : Z) :
  ¬ (1 ≤ index ≤ Z.of_nat (length (_tabs (ctx w))))%Z →
  (∃ msg, selectTab index w
          = (Throw (TypeError msg), mkWorld (set_currentTab None (ctx w)) (eng w))) ∧
  _currentTab (ctx (selectTab index w).2) = None ∧
  (∀ tab, _currentTab (ctx w) = Some tab → ctx (selectTab index w).2 ≠ ctx w).
Proof.
  intros Hrange.
  assert (js_index (_tabs (ctx w)) (index - 1) = None) as Hidx
    by (apply js_index_out_of_range; lia).
  assert (selectTab index w
          = (Throw (TypeError "Cannot read properties of undefined (reading 'page')"),
             mkWorld (set_currentTab None (ctx w)) (eng w))) as Hrun.
  { unfold selectTab, mbind, M_bind, bind, get_ctx, modify_ctx. simpl. by rewrite Hidx. }
  split_and!; [eauto|by rewrite Hrun|].
  intros tab Hcur. rewrite Hrun. simpl. intros Heq.
  apply (f_equal _currentTab) in Heq. simpl in Heq. congruence.
Qed.

Lemma selectTab_out_of_range_loses_current_witness :
  let c := set_currentTab (Some (mkTab 0 10)) (set_tabs [mkTab 0 10; mkTab 1 11] new_Context) in
  let w := mkWorld c (mkEngine [] [] [10; 11] 12 (fun _ => "about:blank") (fun _ => []) "cookies") in
  _currentTab (ctx w) = Some (mkTab 0 10) ∧
  _currentTab (ctx (selectTab 3 w).2) = None ∧
  _currentTab (ctx (selectTab 0 w).2) = None ∧
  ctx (selectTab 3 w).2 ≠ ctx w ∧
  calls (eng (selectTab 3 w).2) = [].
Proof.
  intros c w.
  assert (¬ (1 ≤ 3 ≤ Z.of_nat (length (_tabs (ctx w))))%Z) as Hhigh by (simpl; lia).
  assert (¬ (1 ≤ 0 ≤ Z.of_nat (length (_tabs (ctx w))))%Z) as Hlow by (simpl; lia).
  destruct (selectTab_out_of_range_loses_current w 3 Hhigh) as (_ & Hnone & Hlost).
  destruct (selectTab_out_of_range_loses_current w 0 Hlow) as (_ & Hnone0 & _).
  split_and!; [reflexivity|exact Hnone|exact Hnone0|exact (Hlost (mkTab 0 10) eq_refl)|
               reflexivity].
Defined.

(** ** Waiting *)

(** C10. [waitForTimeout(time)] arms a host timer of the requested
    duration only when there is no current tab or a dialog blocks the
    page; with a current tab and no dialog it asks the page for a timer
    of 1000 whatever [time] is, so any two arguments behave alike. *)
Theorem waitForTimeout_ignores_time (w : World) (time : Z) :
  (_currentTab (ctx w) = None ∨ _javaScriptBlocked (ctx w) = true →
   waitForTimeout time w = host (setTimeout time) w ∧
   calls (eng (waitForTimeout time w).2) = calls (eng w) ++ [setTimeout time]) ∧
  (∀ tab, _currentTab (ctx w) = Some tab → _javaScriptBlocked (ctx w) = false →
   waitForTimeout time w = engine (evaluate_setTimeout (tab_page tab) 1000) w ∧
   calls (eng (waitForTimeout time w).2)
     = calls (eng w) ++ [evaluate_setTimeout (tab_page tab) 1000] ∧
   ∀ time', waitForTimeout time' w = waitForTimeout time w).
Proof.
  unfold waitForTimeout, mbind, M_bind, bind, get_ctx. simpl. split.
  - intros [Hnone|Hblocked].
    + rewrite Hnone. done.
    + destruct (_currentTab (ctx w)); rewrite ?Hblocked; done.
  - intros tab Hcur Hfree. rewrite Hcur, Hfree. split_and!; [done| |done].
    unfold engine. destruct (next_reply (eng w)) as [[|message] rest]; done.
Qed.

Lemma waitForTimeout_ignores_time_witness :
  let c := set_currentTab (Some (mkTab 0 10)) (set_tabs [mkTab 0 10] new_Context) in
  let e := mkEngine [] [] [10] 11 (fun _ => "about:blank") (fun _ => []) "cookies" in
  let w := mkWorld c e in
  let blocked := mkWorld (dialogShown (mkTab 0 10) (mkDialog "alert" "hello") c) e in
  (_currentTab (ctx w) = Some (mkTab 0 10) ∧
   _javaScriptBlocked (ctx w) = false ∧
   calls (eng (waitForTimeout 5 w).2) = [evaluate_setTimeout 10 1000] ∧
   waitForTimeout 60000 w = waitForTimeout 5 w) ∧
  (_javaScriptBlocked (ctx blocked) = true ∧
   calls (eng (waitForTimeout 5 blocked).2) = [setTimeout 5]).
Proof.
  intros c e w blocked.
  destruct (waitForTimeout_ignores_time w 5) as [_ Hpage].
  destruct (Hpage (mkTab 0 10) eq_refl eq_refl) as (_ & Hcalls & Hany).
  destruct (waitForTimeout_ignores_time blocked 5) as [Hhost _].
  destruct (Hhost (or_intror eq_refl)) as (_ & Hcalls').
  split_and!; [reflexivity|reflexivity|exact Hcalls|exact (Hany 60000%Z)|
               reflexivity|exact Hcalls'].
Defined.

(** ** Listing the tabs *)

Lemma split_lines_single (s : string) : no_LF s = true → split_lines s = [s].
Proof.
  induction s as [|a s IH]; simpl; [done|].
  intros [Ha Hs]%andb_prop. apply negb_true_iff in Ha. rewrite Ha, IH; done.
Qed.

Lemma split_lines_app (s rest : string) :
  no_LF s = true → split_lines (s +:+ LF +:+ rest) = s :: split_lines rest.
Proof.
  induction s as [|a s IH]; simpl; [done|].
  intros [Ha Hs]%andb_prop. apply negb_true_iff in Ha. rewrite Ha, IH; done.
Qed.

Lemma split_lines_join (lines : list string) :
  lines ≠ [] → Forall (fun line => no_LF line = true) lines →
  split_lines (join LF lines) = lines.
Proof.
  induction lines as [|line lines IH]; [done|].
  intros _ [Hline Hlines]%Forall_cons. destruct lines as [|line' lines].
  - simpl. by apply split_lines_single.
  - change (join LF (line :: line' :: lines))
      with (line +:+ LF +:+ join LF (line' :: lines)).
    rewrite split_lines_app by done. f_equal. by apply IH.
Qed.

Lemma listTabsLines_lookup (title : Tab → string) (page_url : Page → string)
    (c : Context) (i : nat) (tab : Tab) :
  _tabs c !! i = Some tab →
  listTabsLines title page_url c !! S i
    = Some (tab_line title page_url (_currentTab c) i tab).
Proof.
  intros Hi. unfold listTabsLines. simpl. rewrite list_lookup_imap, Hi. done.
Qed.

(** C8, as amended. On an empty registry [listTabsMarkdown()] returns
    the sentinel. On [N >= 1] tabs it returns the heading
    [### Open tabs] followed by [N] lines, joined by line feeds; line
    [i] renders the 1-based index, the title and the URL of the tab at
    position [i], and carries the marker exactly when that tab is the
    current one. When no line contains a line feed, the returned text
    has these [N + 1] lines. *)
Theorem listTabsMarkdown_lines
    (title : Tab → string) (page_url : Page → string) (c : Context) :
  (_tabs c = [] → listTabsMarkdown title page_url c = "### No tabs open") ∧
  (_tabs c ≠ [] →
   ∃ lines,
     listTabsMarkdown title page_url c = join LF ("### Open tabs" :: lines) ∧
     length lines = length (_tabs c) ∧
     (∀ i tab, _tabs c !! i = Some tab →
        lines !! i
        = Some ("- " +:+ pretty (i + 1) +:+ ":"
                +:+ (if decide (Some tab = _currentTab c) then " (current)" else EmptyString)
                +:+ " [" +:+ title tab +:+ "] (" +:+ page_url (tab_page tab) +:+ ")")) ∧
     (Forall (fun line => no_LF line = true) lines →
      split_lines (listTabsMarkdown title page_url c) = "### Open tabs" :: lines)).
Proof.
  split.
  - intros Hnil. unfold listTabsMarkdown. by rewrite Hnil.
  - intros Hne.
    exists (imap (tab_line title page_url (_currentTab c)) (_tabs c)).
    assert (listTabsMarkdown title page_url c
            = join LF (listTabsLines title page_url c)) as Hrun.
    { unfold listTabsMarkdown. by destruct (_tabs c). }
    split_and!.
    + exact Hrun.
    + apply length_imap.
    + intros i tab Hi. rewrite list_lookup_imap, Hi. done.
    + intros Hfree. rewrite Hrun. apply split_lines_join; [done|].
      apply Forall_cons. split; [done|exact Hfree].
Qed.

Lemma listTabsMarkdown_lines_witness :
  let c := set_currentTab (Some (mkTab 1 11))
             (set_tabs [mkTab 0 10; mkTab 1 11] new_Context) in
  let title := fun tab : Tab => if decide (tab_ref tab = 0) then "Home" else "Docs" in
  let page_url := fun page : Page => if decide (page = 10) then "about:blank"
                                     else "https://example.com/" in
  listTabsMarkdown title page_url new_Context = "### No tabs open" ∧
  _tabs c ≠ [] ∧
  ∃ lines,
    listTabsMarkdown title page_url c = join LF ("### Open tabs" :: lines) ∧
    lines = ["- 1: [Home] (about:blank)"; "- 2: (current) [Docs] (https://example.com/)"] ∧
    split_lines (listTabsMarkdown title page_url c) = "### Open tabs" :: lines.
Proof.
  intros c title page_url.
  assert (_tabs c ≠ []) as Hne by done.
  destruct (listTabsMarkdown_lines title page_url new_Context) as [Hempty _].
  split; [exact (Hempty eq_refl)|]. split; [exact Hne|].
  destruct (listTabsMarkdown_lines title page_url c) as [_ Hlines].
  destruct (Hlines Hne) as (lines & Hrun & Hlen & Hline & Hsplit).
  exists lines.
  assert (lines = ["- 1: [Home] (about:blank)";
                   "- 2: (current) [Docs] (https://example.com/)"]) as Hval.
  { destruct lines as [|l0 [|l1 [|l2 lines]]]; try discriminate Hlen.
    pose proof (Hline 0 (mkTab 0 10) eq_refl) as H0.
    pose proof (Hline 1 (mkTab 1 11) eq_refl) as H1.
    simpl in H0, H1. vm_compute in H0, H1. congruence. }
  split_and!; [exact Hrun|exact Hval|].
  apply Hsplit. rewrite Hval. repeat constructor.
Defined.

(** C8, as stated, fails: with one open tab the text that
    [listTabsMarkdown()] returns has two lines, the first of which is
    the heading and renders no tab. *)
Lemma listTabsMarkdown_one_tab_two_lines :
  let c := set_currentTab (Some (mkTab 0 10)) (set_tabs [mkTab 0 10] new_Context) in
  let text := listTabsMarkdown (fun _ => "Home") (fun _ => "about:blank") c in
  length (_tabs c) = 1 ∧
  split_lines text = ["### Open tabs"; "- 1: (current) [Home] (about:blank)"] ∧
  length (split_lines text) ≠ length (_tabs c).
Proof. vm_compute. split_and!; [reflexivity|reflexivity|discriminate]. Qed.

(** ** Racing an action against dialogs *)

Lemma dialogShown_modalStates (tab : Tab) (d : Dialog) (c : Context) :
  _modalStates (dialogShown tab d c)
  = _modalStates c ++ [mkModalState (dialog_state d) tab].
Proof. unfold dialogShown. simpl. by destruct (_pendingAction c). Qed.

Lemma dialogShown_pendingAction (tab : Tab) (d : Dialog) (c : Context) :
  _pendingAction (dialogShown tab d c)
  = (fun _ => mkPendingAction Resolved) <$> _pendingAction c.
Proof.
  destruct c as [? ? ? ? [pending|] ? ?]; reflexivity.
Qed.

Section RaceFacts.
Context {R : Type}.
Implicit Types (s : Race R) (ev : RaceEvent R) (evs : list (RaceEvent R)).

(** From the start of the race, every event settles it. *)
Lemma race_first_event (c : Context) ev :
  let s := race_step ev (race_start c) in
  _pendingAction (race_ctx s) = None ∧
  match ev with
  | dialog_reported tab d =>
      race_phase s = Settled (Normal None) ∧
      _modalStates (race_ctx s) = _modalStates c ++ [mkModalState (dialog_state d) tab]
  | action_resolved r =>
      race_phase s = Settled (Normal (Some r)) ∧ _modalStates (race_ctx s) = _modalStates c
  | action_rejected e =>
      race_phase s = Settled (Throw e) ∧ _modalStates (race_ctx s) = _modalStates c
  end.
Proof. destruct ev; done. Qed.

(** Once settled, the outcome stands, the slot stays empty, and only
    dialogs change the coordinator, by one modal state each. *)
Lemma race_step_settled s ev outcome :
  race_phase s = Settled outcome →
  _pendingAction (race_ctx s) = None →
  race_phase (race_step ev s) = Settled outcome ∧
  _pendingAction (race_ctx (race_step ev s)) = None ∧
  length (_modalStates (race_ctx (race_step ev s)))
  = length (_modalStates (race_ctx s)) + (if is_dialog_reported ev then 1 else 0).
Proof.
  intros Hphase Hslot. unfold race_step. rewrite Hphase.
  destruct ev as [tab d|r|e]; simpl; try (split_and!; [done|done|lia]).
  rewrite dialogShown_pendingAction, dialogShown_modalStates, Hslot, length_app.
  done.
Qed.

Lemma race_run_settled evs s outcome :
  race_phase s = Settled outcome →
  _pendingAction (race_ctx s) = None →
  let s' := fold_left (fun s ev => race_step ev s) evs s in
  race_phase s' = Settled outcome ∧
  _pendingAction (race_ctx s') = None ∧
  length (_modalStates (race_ctx s'))
  = length (_modalStates (race_ctx s)) + count_dialogs evs.
Proof.
  revert s. induction evs as [|ev evs IH]; intros s Hphase Hslot; simpl.
  - unfold count_dialogs. simpl. split_and!; [done|done|lia].
  - destruct (race_step_settled s ev outcome Hphase Hslot) as (Hp & Hs & Hlen).
    destruct (IH _ Hp Hs) as (Hp' & Hs' & Hlen').
    split_and!; [done|done|]. rewrite Hlen', Hlen. unfold count_dialogs. simpl.
    destruct (is_dialog_reported ev); simpl; lia.
Qed.

(** C2. While the race is suspended the slot holds an unresolved
    signal. The first event settles the race, whichever it is, and
    the slot is then empty and stays empty under every later event. A
    reported dialog resolves the signal, appends exactly one modal
    state of kind dialog tagged with the reporting tab, and makes the
    race return nothing; overall the modal-state list grows by one
    entry per reported dialog. *)
Theorem race_clears_slot_and_records_dialog (c : Context) ev evs :
  let s1 := _raceAgainstModalDialogs [ev] c in
  let s := _raceAgainstModalDialogs (ev :: evs) c in
  _pendingAction (race_ctx (@_raceAgainstModalDialogs R [] c))
  = Some (mkPendingAction Unresolved) ∧
  (∃ outcome, race_phase s1 = Settled outcome ∧ race_phase s = Settled outcome) ∧
  _pendingAction (race_ctx s1) = None ∧
  _pendingAction (race_ctx s) = None ∧
  (∀ tab d, ev = dialog_reported tab d →
     _pendingAction (dialogShown tab d (race_ctx (@race_start R c)))
     = Some (mkPendingAction Resolved) ∧
     _modalStates (race_ctx s1) = _modalStates c ++ [mkModalState (dialog_state d) tab] ∧
     type (dialog_state d) = dialog ∧
     race_phase s1 = Settled (Normal None)) ∧
  (∀ r, ev = action_resolved r →
     race_phase s1 = Settled (Normal (Some r)) ∧
     _modalStates (race_ctx s1) = _modalStates c) ∧
  (∀ e, ev = action_rejected e →
     race_phase s1 = Settled (Throw e) ∧
     _modalStates (race_ctx s1) = _modalStates c) ∧
  length (_modalStates (race_ctx s))
  = length (_modalStates c) + count_dialogs (ev :: evs).
Proof.
  intros s1 s.
  pose proof (race_first_event c ev) as [Hslot1 Hfirst].
  change (race_step ev (race_start c)) with s1 in Hslot1, Hfirst.
  assert (∃ outcome, race_phase s1 = Settled outcome) as [outcome Hphase1].
  { destruct ev; destruct Hfirst as [-> _]; eauto. }
  destruct (race_run_settled evs s1 outcome Hphase1 Hslot1) as (Hphase & Hslot & Hlen).
  change (fold_left (fun s ev => race_step ev s) evs s1) with s in Hphase, Hslot, Hlen.
  split_and!; try done.
  - eauto.
  - intros tab d ->. destruct Hfirst as [Hp Hm]. split_and!; done.
  - by intros r ->.
  - by intros e ->.
  - rewrite Hlen. unfold count_dialogs. simpl.
    destruct ev; destruct Hfirst as [_ ->]; rewrite ?length_app; simpl; lia.
Qed.
End RaceFacts.

Lemma race_clears_slot_and_records_dialog_witness :
  let c := set_currentTab (Some (mkTab 0 10)) (set_tabs [mkTab 0 10] new_Context) in
  let d := mkDialog "confirm" "Leave the page?" in
  let s := _raceAgainstModalDialogs
             [dialog_reported (mkTab 0 10) d; action_rejected (Error "Target closed")] c in
  (_pendingAction (race_ctx s) = None ∧
   race_phase s = Settled (Normal (@None nat)) ∧
   _modalStates (race_ctx s) = [mkModalState (dialog_state d) (mkTab 0 10)]) ∧
  (race_phase (_raceAgainstModalDialogs [action_resolved 7] c) = Settled (Normal (Some 7)) ∧
   _pendingAction (race_ctx (_raceAgainstModalDialogs [action_resolved 7] c)) = None) ∧
  (race_phase (@_raceAgainstModalDialogs nat [action_rejected (Error "Target closed")] c)
   = Settled (Throw (Error "Target closed")) ∧
   _pendingAction
     (race_ctx (@_raceAgainstModalDialogs nat [action_rejected (Error "Target closed")] c))
   = None).
Proof.
  intros c d s.
  destruct (race_clears_slot_and_records_dialog (R := nat) c
              (dialog_reported (mkTab 0 10) d) [action_rejected (Error "Target closed")])
    as (_ & _ & _ & Hslot & Hdialog & _).
  destruct (Hdialog (mkTab 0 10) d eq_refl) as (_ & _ & _ & _).
  destruct (race_clears_slot_and_records_dialog (R := nat) c (action_resolved 7) [])
    as (_ & _ & Hslot2 & _ & _ & Hresolved & _).
  destruct (Hresolved 7 eq_refl) as (Hphase2 & _).
  destruct (race_clears_slot_and_records_dialog (R := nat) c
              (action_rejected (Error "Target closed")) [])
    as (_ & _ & Hslot3 & _ & _ & _ & Hrejected & _).
  destruct (Hrejected (Error "Target closed") eq_refl) as (Hphase3 & _).
  split_and!; [exact Hslot|reflexivity|reflexivity|exact Hphase2|exact Hslot2|
               exact Hphase3|exact Hslot3].
Defined.

(** ** Memoization of the handle *)

Lemma ensure_memoized (h : Handles) (p : PromiseRef) :
  _browserContextPromise (hctx h) = Some p → _ensureBrowserContext h = (p, h).
Proof. intros Hmemo. unfold _ensureBrowserContext. by rewrite Hmemo. Qed.

Lemma ensure_fresh (h : Handles) :
  _browserContextPromise (hctx h) = None →
  let '(p, h') := _ensureBrowserContext h in
  p = length (setups h) ∧
  _browserContextPromise (hctx h') = Some p ∧
  setups h' = setups h ++ [Pending] ∧
  setups h' !! p = Some Pending.
Proof.
  intros Hmemo. unfold _ensureBrowserContext. rewrite Hmemo. simpl.
  split_and!; try done. by rewrite lookup_app_r, Nat.sub_diag.
Qed.

(** Callers that arrive while a promise is memoized all get it, and
    nothing is started. *)
Lemma ensure_repeated_memoized (n : nat) (h : Handles) (p : PromiseRef) :
  _browserContextPromise (hctx h) = Some p →
  handle_run (replicate n call_ensure) h = (h, replicate n p).
Proof.
  intros Hmemo. induction n as [|n IH]; simpl; [done|].
  rewrite (ensure_memoized h p Hmemo). by rewrite IH.
Qed.

Lemma handle_run_memoized (evs : list HandleEvent) (h : Handles) (p : PromiseRef) :
  forallb keeps_memo evs = true →
  _browserContextPromise (hctx h) = Some p →
  Forall (eq p) (handle_run evs h).2 ∧
  _browserContextPromise (hctx (handle_run evs h).1) = Some p ∧
  length (setups (handle_run evs h).1) = length (setups h).
Proof.
  revert h. induction evs as [|ev evs IH]; intros h Hevs Hmemo; [done|].
  simpl in Hevs. apply andb_prop in Hevs as [Hev Hevs]. simpl.
  destruct ev as [| |q|q]; try done; simpl.
  - rewrite (ensure_memoized h p Hmemo).
    destruct (IH h Hevs Hmemo) as (Hall & Hmemo' & Hlen).
    destruct (handle_run evs h) as [h' rets]. simpl in *.
    split_and!; [by apply Forall_cons|done|done].
  - assert (∃ h1, (match setups h !! q with
                   | Some Pending =>
                       (mkHandles (hctx h) (<[q := Fulfilled]> (setups h)), @None PromiseRef)
                   | _ => (h, None)
                   end) = (h1, None) ∧
                  _browserContextPromise (hctx h1) = Some p ∧
                  length (setups h1) = length (setups h)) as (h1 & -> & Hmemo1 & Hlen1).
    { destruct (setups h !! q) as [[| |]|]; eexists; split_and!; try done.
      simpl. apply length_insert. }
    destruct (IH h1 Hevs Hmemo1) as (Hall & Hmemo' & Hlen).
    destruct (handle_run evs h1) as [h' rets]. simpl in *.
    split_and!; [done|done|congruence].
Qed.

(** Under callers and successful creations in any order, every caller
    gets the same promise and at most one creation is started. *)
Lemma handle_run_single_flight (evs : list HandleEvent) (h : Handles) :
  forallb keeps_memo evs = true →
  ∃ p, Forall (eq p) (handle_run evs h).2 ∧
       length (setups (handle_run evs h).1) ≤ S (length (setups h)).
Proof.
  revert h. induction evs as [|ev evs IH]; intros h Hevs.
  { exists 0. simpl. split; [done|lia]. }
  destruct (_browserContextPromise (hctx h)) as [p|] eqn:Hmemo.
  { exists p. destruct (handle_run_memoized (ev :: evs) h p Hevs Hmemo) as (? & _ & ?).
    split; [done|lia]. }
  simpl in Hevs. apply andb_prop in Hevs as [Hev Hevs]. simpl.
  destruct ev as [| |q|q]; try done; simpl.
  - pose proof (ensure_fresh h Hmemo) as Hfresh.
    destruct (_ensureBrowserContext h) as [p h1].
    destruct Hfresh as (_ & Hmemo1 & Hsetups1 & _).
    destruct (handle_run_memoized evs h1 p Hevs Hmemo1) as (Hall & _ & Hlen).
    destruct (handle_run evs h1) as [h' rets]. simpl in *.
    exists p. split; [by apply Forall_cons|].
    rewrite Hlen, Hsetups1, length_app. simpl. lia.
  - assert (∃ h1, (match setups h !! q with
                   | Some Pending =>
                       (mkHandles (hctx h) (<[q := Fulfilled]> (setups h)), @None PromiseRef)
                   | _ => (h, None)
                   end) = (h1, None) ∧
                  length (setups h1) = length (setups h)) as (h1 & -> & Hlen1).
    { destruct (setups h !! q) as [[| |]|]; eexists; split_and!; try done.
      simpl. apply length_insert. }
    destruct (IH h1 Hevs) as (p & Hall & Hlen).
    destruct (handle_run evs h1) as [h' rets]. simpl in *.
    exists p. split; [done|lia].
Qed.

(** C1. While a creation promise is memoized, [_ensureBrowserContext()]
    returns it and starts nothing. Any number of callers in a row get
    one and the same promise, and between them start one creation when
    none was memoized and none otherwise. When the memoized promise
    rejects, the slot is cleared, and the next call starts a fresh
    creation with a new pending promise; a rejection of a promise that
    is no longer the memoized one leaves the slot alone. Under any
    interleaving of callers with creations that succeed, all callers
    get the same promise and at most one creation is started. *)
Theorem ensureBrowserContext_single_flight (h : Handles) :
  (∀ p, _browserContextPromise (hctx h) = Some p → _ensureBrowserContext h = (p, h)) ∧
  (∀ evs, forallb keeps_memo evs = true →
     ∃ p, Forall (eq p) (handle_run evs h).2 ∧
          length (setups (handle_run evs h).1) ≤ S (length (setups h))) ∧
  (∀ n, ∃ p,
     (handle_run (replicate (S n) call_ensure) h).2 = replicate (S n) p ∧
     _browserContextPromise (hctx (handle_run (replicate (S n) call_ensure) h).1) = Some p ∧
     setups (handle_run (replicate (S n) call_ensure) h).1
     = match _browserContextPromise (hctx h) with
       | Some _ => setups h
       | None => setups h ++ [Pending]
       end) ∧
  (∀ p, _browserContextPromise (hctx h) = Some p → setups h !! p = Some Pending →
     let h1 := (handle_step (setup_rejected p) h).1 in
     let p' := (_ensureBrowserContext h1).1 in
     let h2 := (_ensureBrowserContext h1).2 in
     _browserContextPromise (hctx h1) = None ∧
     setups h1 !! p = Some Rejected ∧
     p' ≠ p ∧
     setups h2 = setups h1 ++ [Pending] ∧
     setups h2 !! p' = Some Pending ∧
     _browserContextPromise (hctx h2) = Some p') ∧
  (∀ p, _browserContextPromise (hctx h) ≠ Some p →
     hctx (handle_step (setup_rejected p) h).1 = hctx h).
Proof.
  split_and!.
  - apply ensure_memoized.
  - intros evs. apply handle_run_single_flight.
  - intros n. simpl. destruct (_browserContextPromise (hctx h)) as [p|] eqn:Hmemo.
    + exists p. rewrite (ensure_memoized h p Hmemo).
      rewrite (ensure_repeated_memoized n h p Hmemo). done.
    + pose proof (ensure_fresh h Hmemo) as Hfresh.
      destruct (_ensureBrowserContext h) as [p h'].
      destruct Hfresh as (_ & Hmemo' & Hsetups & _).
      exists p. rewrite (ensure_repeated_memoized n h' p Hmemo'). done.
  - intros p Hmemo Hpending h1 p' h2.
    assert (h1 = mkHandles (set_browserContextPromise None (hctx h))
                           (<[p := Rejected]> (setups h))) as Hh1.
    { unfold h1, handle_step, on_rejected. rewrite Hpending. simpl.
      by rewrite decide_True. }
    assert (_browserContextPromise (hctx h1) = None) as Hnone by by rewrite Hh1.
    pose proof (ensure_fresh h1 Hnone) as Hfresh.
    unfold p', h2. destruct (_ensureBrowserContext h1) as [q h3]. simpl.
    destruct Hfresh as (Hq & Hmemo3 & Hsetups3 & Hlook3).
    apply lookup_lt_Some in Hpending as Hlt.
    split_and!; try done.
    + rewrite Hh1. simpl. by apply list_lookup_insert_eq.
    + rewrite Hq, Hh1. simpl. rewrite length_insert. lia.
  - intros p Hne. unfold handle_step, on_rejected.
    destruct (setups h !! p) as [[| |]|]; simpl; try done.
    by rewrite decide_False.
Qed.

Lemma ensureBrowserContext_single_flight_witness :
  let h := mkHandles new_Context [] in
  let h3 := (handle_run [call_ensure; call_ensure; call_ensure] h).1 in
  let h4 := mkHandles (set_browserContextPromise (Some 1) new_Context) [Pending; Pending] in
  (handle_run [call_ensure; call_ensure; call_ensure] h).2 = [0; 0; 0] ∧
  setups h3 = [Pending] ∧
  _browserContextPromise (hctx h3) = Some 0 ∧
  _ensureBrowserContext h3 = (0, h3) ∧
  (∃ p, Forall (eq p) (handle_run [call_ensure; setup_fulfilled 0; call_ensure] h).2) ∧
  _browserContextPromise (hctx (handle_step (setup_rejected 0) h3).1) = None ∧
  (_ensureBrowserContext (handle_step (setup_rejected 0) h3).1).1 ≠ 0 ∧
  hctx (handle_step (setup_rejected 0) h4).1 = hctx h4.
Proof.
  intros h h3 h4.
  destruct (ensureBrowserContext_single_flight h3) as (Hmemo & _ & _ & Hreject & _).
  destruct (ensureBrowserContext_single_flight h) as (_ & Hflight & _).
  destruct (ensureBrowserContext_single_flight h4) as (_ & _ & _ & _ & Hstale).
  destruct (Hreject 0 eq_refl eq_refl) as (Hnone & _ & Hfresh & _).
  destruct (Hflight [call_ensure; setup_fulfilled 0; call_ensure] eq_refl) as (p & Hsame & _).
  assert (_browserContextPromise (hctx h4) ≠ Some 0) as Hother by discriminate.
  split_and!; [reflexivity|reflexivity|reflexivity|exact (Hmemo 0 eq_refl)|
               by exists p|exact Hnone|exact Hfresh|exact (Hstale 0 Hother)].
Defined.

(** ** The effect monad *)

Section MonadFacts.
Context {A : Type}.

(** A handler that only returns a value turns every completion of the
    body into a normal one. *)
Lemma try_catch_swallows (body : M A) (a : A) (w : World) :
  ∃ r w', try_catch body (fun _ => mret a) w = (Normal r, w').
Proof.
  unfold try_catch. destruct (body w) as [[r|e] w']; eauto.
Qed.

(** A [finally] block that only assigns a field runs after the body
    however the body completes, and does not change the completion. *)
Lemma try_finally_assigns (body : M A) (f : Context → Context) (w : World) :
  try_finally body (modify_ctx f) w
  = ((body w).1, mkWorld (f (ctx (body w).2)) (eng (body w).2)).
Proof.
  unfold try_finally, modify_ctx. by destruct (body w) as [r w'].
Qed.
End MonadFacts.

Lemma engine_ctx (call : EngineCall) (w : World) : ctx (engine call w).2 = ctx w.
Proof. unfold engine. by destruct (next_reply (eng w)).1. Qed.

Lemma engine_asked (call : EngineCall) (w : World) :
  eng (engine call w).2 = asked call (next_reply (eng w)).2 (eng w).
Proof. unfold engine. by destruct (next_reply (eng w)).1. Qed.

Lemma engine_completion (call : EngineCall) (w : World) :
  (engine call w).1
  = match reply_at 0 (eng w) with
    | Succeeds => Normal tt
    | Fails message => Throw (EngineError message)
    end.
Proof.
  unfold engine, reply_at, next_reply. by destruct (replies (eng w)) as [|[|m] rest].
Qed.

Lemma next_reply_rest (e : Engine) : (next_reply e).2 = drop 1 (replies e).
Proof. unfold next_reply. by destruct (replies e). Qed.

(** ** State restore *)

(** C5. [_restoreState] always returns, and when it returns the
    pending-snapshot slot is empty, whatever the snapshot was and
    however the engine answered the installation of the init script,
    the navigations, the creation of pages, the replay of session
    storage and the re-selection of the tab. A second run finds no
    snapshot and does nothing. *)
Theorem restoreState_discards_snapshot (w : World) :
  ∃ w',
    _restoreState w = (Normal tt, w') ∧
    _savedState (ctx w') = None ∧
    _restoreState w' = (Normal tt, w').
Proof.
  assert (∀ w0, _savedState (ctx w0) = None → _restoreState w0 = (Normal tt, w0)) as Hidle.
  { intros [c e] Hnone. unfold _restoreState, mbind, M_bind, bind, get_ctx. simpl in *.
    by rewrite Hnone. }
  destruct (_savedState (ctx w)) as [saved|] eqn:Hsaved.
  - unfold _restoreState, mbind, M_bind, bind, get_ctx. simpl. rewrite Hsaved.
    rewrite try_finally_assigns.
    match goal with
    | |- context [try_catch ?body ?handler w] =>
        destruct (try_catch_swallows body tt w) as (r & w1 & Hbody)
    end.
    unfold mret, M_ret in Hbody. unfold mret, M_ret. rewrite Hbody. simpl.
    destruct r. eexists. split_and!; [done|done|]. by apply Hidle.
  - exists w. split_and!; [by apply Hidle|done|by apply Hidle].
Qed.

(** A restore of three saved tabs in which the first navigation, the
    navigation of the second tab and the final [bringToFront] fail:
    the remaining steps still run, and the snapshot is discarded. *)
Example restoreState_partial_failure :
  let saved := mkSavedBrowserState (Some "cookies") []
                 [mkSavedTab "https://a.example/" [("k", "v")];
                  mkSavedTab "https://b.example/" [];
                  mkSavedTab "about:blank" []] 1 in
  let w := mkWorld (set_savedState (Some saved) (_onPageCreated 0 0 new_Context))
             (mkEngine [Fails "net::ERR_FAILED"; Succeeds; Fails "net::ERR_FAILED";
                        Succeeds; Fails "Target closed"]
                       [] [0] 1 (fun _ => "about:blank") (fun _ => []) "cookies") in
  let r := _restoreState w in
  r.1 = Normal tt ∧
  calls (eng r.2) = [goto 0 "https://a.example/"; newPage; goto 1 "https://b.example/";
                     newPage; bringToFront 1] ∧
  _tabs (ctx r.2) = [mkTab 0 0; mkTab 1 1; mkTab 2 2] ∧
  _currentTab (ctx r.2) = Some (mkTab 1 1) ∧
  _savedState (ctx r.2) = None.
Proof. vm_compute. split_and!; reflexivity. Qed.

(** ** State capture *)

Lemma reply_at_asked (call : EngineCall) (e : Engine) (k : nat) :
  reply_at k (asked call (next_reply e).2 e) = reply_at (S k) e.
Proof.
  unfold reply_at. simpl. by rewrite next_reply_rest, lookup_drop.
Qed.

Lemma captured_entry_asked (call : EngineCall) (rest : list Reply) (e : Engine)
    (r : Reply) (tab : Tab) :
  captured_entry (asked call rest e) r tab = captured_entry e r tab.
Proof. by destruct r. Qed.

(** One round of the capture loop: it never throws, leaves the
    coordinator alone, consumes one reply and appends one entry. *)
Lemma capture_tab_spec (i : nat) (tab : Tab) (state : SavedBrowserState) (w : World) :
  ∃ state',
    capture_tab i tab state w
    = (Normal state',
       mkWorld (ctx w)
               (asked (evaluate_sessionStorage (tab_page tab)) (next_reply (eng w)).2 (eng w))) ∧
    ss_storageState state' = ss_storageState state ∧
    ss_tabs state' = ss_tabs state ++ [captured_entry (eng w) (reply_at 0 (eng w)) tab].
Proof.
  unfold capture_tab, try_catch, mbind, M_bind, bind, get_eng, get_ctx, mret, M_ret, ret.
  simpl.
  pose proof (engine_completion (evaluate_sessionStorage (tab_page tab)) w) as Hcompl.
  pose proof (engine_ctx (evaluate_sessionStorage (tab_page tab)) w) as Hctx.
  pose proof (engine_asked (evaluate_sessionStorage (tab_page tab)) w) as Heng.
  destruct (engine (evaluate_sessionStorage (tab_page tab)) w) as [r w1].
  simpl in Hcompl, Hctx, Heng. subst r.
  destruct w1 as [c1 e1]. simpl in Hctx, Heng. subst c1 e1.
  destruct (reply_at 0 (eng w)) as [|message]; simpl.
  - case_decide; eexists; split_and!; reflexivity.
  - eexists; split_and!; reflexivity.
Qed.

Lemma capture_tabs_spec (tabs : list Tab) (i : nat) (state : SavedBrowserState) (w : World) :
  ∃ state' w',
    capture_tabs i tabs state w = (Normal state', w') ∧
    ctx w' = ctx w ∧
    ss_storageState state' = ss_storageState state ∧
    ss_tabs state'
    = ss_tabs state
      ++ imap (fun j tab => captured_entry (eng w) (reply_at j (eng w)) tab) tabs.
Proof.
  revert i state w. induction tabs as [|tab tabs IH]; intros i state w.
  - exists state, w. simpl. by rewrite app_nil_r.
  - destruct (capture_tab_spec i tab state w) as (state1 & Hrun1 & Hstorage1 & Htabs1).
    set (w1 := mkWorld _ _) in Hrun1.
    destruct (IH (S i) state1 w1) as (state' & w' & Hrun & Hctx & Hstorage & Htabs).
    exists state', w'. split_and!.
    + simpl. unfold mbind, M_bind, bind. by rewrite Hrun1.
    + by rewrite Hctx.
    + by rewrite Hstorage.
    + rewrite Htabs, Htabs1, <- app_assoc. f_equal. simpl. f_equal.
      apply imap_ext. intros j t _. unfold w1. simpl.
      by rewrite captured_entry_asked, reply_at_asked.
Qed.

Lemma engine_run (call : EngineCall) (w : World) :
  engine call w
  = (match reply_at 0 (eng w) with
     | Succeeds => Normal tt
     | Fails message => Throw (EngineError message)
     end,
     mkWorld (ctx w) (asked call (next_reply (eng w)).2 (eng w))).
Proof.
  unfold engine, reply_at, next_reply. by destruct (replies (eng w)) as [|[|m] rest].
Qed.


Lemma capture_tabs_guard (tabs : list Tab) (state : SavedBrowserState) :
  match tabs with
  | [] => mret state
  | _ :: _ => capture_tabs 0 tabs state
  end = capture_tabs 0 tabs state.
Proof. by destruct tabs. Qed.

Lemma capture_no_handle (w : World) :
  _browserContextPromise (ctx w) = None → _captureCurrentState w = (Normal None, w).
Proof.
  intros Hmemo.
  unfold _captureCurrentState, await_browserContextPromise.
  unfold try_catch at 1. unfold mbind, M_bind, bind, get_ctx, throw.
  by rewrite Hmemo.
Qed.

Lemma capture_failed_handle (w : World) (p : PromiseRef) (message : string) :
  _browserContextPromise (ctx w) = Some p →
  reply_at 0 (eng w) = Fails message →
  ∃ w', _captureCurrentState w = (Normal None, w') ∧ ctx w' = ctx w.
Proof.
  intros Hmemo Hreply.
  unfold _captureCurrentState, await_browserContextPromise.
  unfold try_catch at 1. unfold mbind, M_bind, bind, get_ctx, throw.
  rewrite Hmemo, engine_run, Hreply. eexists. split; reflexivity.
Qed.

Lemma capture_live (w : World) (p : PromiseRef) :
  _browserContextPromise (ctx w) = Some p →
  reply_at 0 (eng w) = Succeeds →
  ∃ state w',
    _captureCurrentState w = (Normal (Some state), w') ∧
    ctx w' = ctx w ∧
    ss_storageState state
    = match reply_at 1 (eng w) with
      | Succeeds => Some (context_storageState (eng w))
      | Fails _ => None
      end ∧
    ss_tabs state
    = imap (fun j tab => captured_entry (eng w) (reply_at (2 + j) (eng w)) tab)
           (_tabs (ctx w)).
Proof.
  intros Hmemo Hreply.
  unfold _captureCurrentState, await_browserContextPromise.
  unfold try_catch at 1. unfold mbind, M_bind, bind, get_ctx, throw.
  rewrite Hmemo, engine_run, Hreply.
  set (w1 := mkWorld (ctx w) (asked (await_handle p) (next_reply (eng w)).2 (eng w))).
  unfold try_catch at 1. rewrite engine_run.
  assert (reply_at 0 (eng w1) = reply_at 1 (eng w)) as -> by apply reply_at_asked.
  set (w2 := mkWorld (ctx w1) (asked storageState (next_reply (eng w1)).2 (eng w1))).
  assert (∀ j, reply_at j (eng w2) = reply_at (2 + j) (eng w)) as Hreplies.
  { intros j. unfold w2. simpl. rewrite reply_at_asked. unfold w1. simpl.
    by rewrite reply_at_asked. }
  assert (∀ r tab, captured_entry (eng w2) r tab = captured_entry (eng w) r tab) as Hentry.
  { intros r tab. unfold w2, w1. simpl. by rewrite !captured_entry_asked. }
  assert (∀ state0, ss_tabs state0 = [] →
            ∃ state w',
              capture_tabs 0 (_tabs (ctx w)) state0 w2 = (Normal state, w') ∧
              ctx w' = ctx w ∧
              ss_storageState state = ss_storageState state0 ∧
              ss_tabs state
              = imap (fun j tab => captured_entry (eng w) (reply_at (2 + j) (eng w)) tab)
                     (_tabs (ctx w))) as Hloop.
  { intros state0 Hempty.
    destruct (capture_tabs_spec (_tabs (ctx w)) 0 state0 w2)
      as (state & w' & Hrun & Hctx & Hstorage & Htabs).
    exists state, w'. split_and!; [done|done|done|].
    rewrite Htabs, Hempty. simpl. apply imap_ext. intros j tab _.
    by rewrite Hentry, Hreplies. }
  destruct (reply_at 1 (eng w)) as [|message1]; unfold get_eng, mret, M_ret, ret; simpl.
  - destruct (Hloop (set_storageState (Some (context_storageState (eng w))) empty_state)
                eq_refl) as (state & w' & Hrun & Hctx & Hstorage & Htabs).
    exists state, w'. split_and!; [|done|done|done].
    destruct (_tabs (ctx w)); [|by rewrite Hrun].
    injection Hrun as <- <-. done.
  - destruct (Hloop empty_state eq_refl) as (state & w' & Hrun & Hctx & Hstorage & Htabs).
    exists state, w'. split_and!; [|done|done|done].
    destruct (_tabs (ctx w)); [|by rewrite Hrun].
    injection Hrun as <- <-. done.
Qed.

(** C6. State capture never throws: it returns a snapshot or nothing,
    and leaves the coordinator as it was. It returns nothing when no
    handle is memoized or the creation of the handle fails. With a live
    handle it returns a snapshot: the storage state is the one read, or
    empty when that read fails; the tab list has one entry per open tab
    in order, empty for zero tabs; the entry of a tab whose session
    storage could not be read is the placeholder with the blank-page
    URL and empty storage. *)
Theorem captureCurrentState_never_throws (w : World) :
  (∃ result w', captureCurrentState w = (Normal result, w') ∧ ctx w' = ctx w) ∧
  (_browserContextPromise (ctx w) = None → (captureCurrentState w).1 = Normal None) ∧
  (∀ message, reply_at 0 (eng w) = Fails message →
     (captureCurrentState w).1 = Normal None) ∧
  (∀ p, _browserContextPromise (ctx w) = Some p → reply_at 0 (eng w) = Succeeds →
     ∃ state,
       (captureCurrentState w).1 = Normal (Some state) ∧
       ss_storageState state
       = match reply_at 1 (eng w) with
         | Succeeds => Some (context_storageState (eng w))
         | Fails _ => None
         end ∧
       length (ss_tabs state) = length (_tabs (ctx w)) ∧
       (_tabs (ctx w) = [] → ss_tabs state = []) ∧
       (∀ i tab, _tabs (ctx w) !! i = Some tab →
          ss_tabs state !! i
          = Some (captured_entry (eng w) (reply_at (2 + i) (eng w)) tab)) ∧
       (∀ i tab message, _tabs (ctx w) !! i = Some tab →
          reply_at (2 + i) (eng w) = Fails message →
          ss_tabs state !! i = Some (mkSavedTab "about:blank" []))).
Proof.
  unfold captureCurrentState.
  assert (∀ p, _browserContextPromise (ctx w) = Some p → reply_at 0 (eng w) = Succeeds →
            ∃ state w',
              _captureCurrentState w = (Normal (Some state), w') ∧ ctx w' = ctx w ∧
              ss_storageState state
              = match reply_at 1 (eng w) with
                | Succeeds => Some (context_storageState (eng w))
                | Fails _ => None
                end ∧
              ss_tabs state
              = imap (fun j tab => captured_entry (eng w) (reply_at (2 + j) (eng w)) tab)
                     (_tabs (ctx w))) as Hlive by apply capture_live.
  split_and!.
  - destruct (_browserContextPromise (ctx w)) as [p|] eqn:Hmemo.
    + destruct (reply_at 0 (eng w)) as [|message] eqn:Hreply.
      * destruct (Hlive p eq_refl eq_refl) as (state & w' & Hrun & Hctx & _). eauto.
      * destruct (capture_failed_handle w p message Hmemo Hreply) as (w' & Hrun & Hctx).
        eauto.
    + rewrite (capture_no_handle w Hmemo). eauto.
  - intros Hmemo. by rewrite (capture_no_handle w Hmemo).
  - intros message Hreply. destruct (_browserContextPromise (ctx w)) as [p|] eqn:Hmemo.
    + destruct (capture_failed_handle w p message Hmemo Hreply) as (w' & -> & _). done.
    + by rewrite (capture_no_handle w Hmemo).
  - intros p Hmemo Hreply.
    destruct (Hlive p Hmemo Hreply) as (state & w' & Hrun & _ & Hstorage & Htabs).
    exists state. rewrite Hrun, Htabs. split_and!; [done|done| | | |].
    + apply length_imap.
    + by intros ->.
    + intros i tab Hi. by rewrite list_lookup_imap, Hi.
    + intros i tab message Hi Hfail. by rewrite list_lookup_imap, Hi, Hfail.
Qed.

Lemma captureCurrentState_never_throws_witness :
  let c := set_currentTab (Some (mkTab 0 10))
             (set_tabs [mkTab 0 10; mkTab 1 11]
                (set_browserContextPromise (Some 0) new_Context)) in
  let e := mkEngine [Succeeds; Fails "storage unavailable"; Succeeds; Fails "Target closed"]
             [] [10; 11] 12 (fun _ => "https://example.com/") (fun _ => [("k", "v")])
             "cookies" in
  let failed := mkEngine [Fails "Executable doesn't exist"] [] [] 0
                  (fun _ => "about:blank") (fun _ => []) "cookies" in
  (∃ state,
     (captureCurrentState (mkWorld c e)).1 = Normal (Some state) ∧
     ss_storageState state = None ∧
     ss_tabs state !! 0 = Some (mkSavedTab "https://example.com/" [("k", "v")]) ∧
     ss_tabs state !! 1 = Some (mkSavedTab "about:blank" [])) ∧
  (∃ state,
     (captureCurrentState (mkWorld (set_browserContextPromise (Some 0) new_Context) e)).1
     = Normal (Some state) ∧
     ss_tabs state = []) ∧
  (captureCurrentState (mkWorld new_Context e)).1 = Normal None ∧
  (captureCurrentState (mkWorld c failed)).1 = Normal None.
Proof.
  intros c e failed.
  destruct (captureCurrentState_never_throws (mkWorld c e)) as (_ & _ & _ & Hlive).
  destruct (Hlive 0 eq_refl eq_refl) as (state & Hrun & Hstorage & _ & _ & Hentry & Hfail).
  destruct (captureCurrentState_never_throws
              (mkWorld (set_browserContextPromise (Some 0) new_Context) e))
    as (_ & _ & _ & Hlive0).
  destruct (Hlive0 0 eq_refl eq_refl) as (state0 & Hrun0 & _ & _ & Hnil & _).
  destruct (captureCurrentState_never_throws (mkWorld new_Context e)) as (_ & Hnone & _).
  destruct (captureCurrentState_never_throws (mkWorld c failed)) as (_ & _ & Hfailed & _).
  split_and!.
  - exists state. split_and!.
    + exact Hrun.
    + exact Hstorage.
    + exact (Hentry 0 (mkTab 0 10) eq_refl).
    + exact (Hfail 1 (mkTab 1 11) "Target closed" eq_refl eq_refl).
  - exists state0. split; [exact Hrun0|exact (Hnil eq_refl)].
  - exact (Hnone eq_refl).
  - exact (Hfailed "Executable doesn't exist" eq_refl).
Defined.

(** ** Handle creation *)

(** C7, as amended. A configuration that selects a remote endpoint
    whose value is not a string, is blank, or does not parse as a URL
    makes [_createBrowserContext] throw before it asks anything of the
    engine: the [Invalid remote endpoint] error in the first two cases,
    the URL parser's [TypeError] in the third. A configuration that
    selects a debug-protocol endpoint whose value is not a string or is
    blank makes it throw the [Invalid CDP endpoint] error, again before
    any operation of the engine. Every other debug-protocol endpoint is
    a non-blank string and is handed to [connectOverCDP] as it is. *)
Theorem createBrowserContext_rejects_bad_endpoint
    (URL_parses : string → bool) (config : Config) (b : BrowserConfig) (w : World) :
  browser config = Some b →
  (truthy (remoteEndpoint b) = true →
   malformed URL_parses (remoteEndpoint b) = true →
   _createBrowserContext URL_parses config w
   = (Throw (if not_a_string_or_blank (remoteEndpoint b)
             then Error ("Invalid remote endpoint: " +:+ template (remoteEndpoint b)
                         +:+ ". Must be a valid URL string.")
             else TypeError "Invalid URL"),
      w)) ∧
  (truthy (remoteEndpoint b) = false →
   truthy (cdpEndpoint b) = true →
   not_a_string_or_blank (cdpEndpoint b) = true →
   _createBrowserContext URL_parses config w
   = (Throw (Error ("Invalid CDP endpoint: " +:+ template (cdpEndpoint b)
                    +:+ ". Must be a valid URL string.")),
      w)) ∧
  (truthy (remoteEndpoint b) = false →
   truthy (cdpEndpoint b) = true →
   not_a_string_or_blank (cdpEndpoint b) = false →
   ∃ s later,
     cdpEndpoint b = JString s ∧
     calls (eng (_createBrowserContext URL_parses config w).2)
     = calls (eng w) ++ connectOverCDP s :: later).
Proof.
  intros Hb. unfold _createBrowserContext. rewrite Hb. split_and!.
  - intros -> Hbad. unfold connect_remote, malformed, not_a_string_or_blank in *.
    destruct (remoteEndpoint b) as [| | | |s|]; try done.
    destruct (trim_is_empty s); [done|]. simpl in Hbad.
    apply negb_true_iff in Hbad. by rewrite Hbad.
  - intros -> -> Hbad. unfold connect_cdp, not_a_string_or_blank in *.
    destruct (cdpEndpoint b) as [| | | |s|]; try done. by rewrite Hbad.
  - intros -> -> Hgood. unfold connect_cdp, not_a_string_or_blank in *.
    destruct (cdpEndpoint b) as [| | | |s|]; try done. rewrite Hgood.
    exists s. unfold mbind, M_bind, bind. rewrite engine_run.
    destruct (reply_at 0 (eng w)); [|by exists []].
    unfold get_ctx. simpl.
    destruct (isolated b).
    + rewrite engine_run. simpl.
      match goal with |- context [reply_at 0 ?e] => destruct (reply_at 0 e) end;
        simpl; rewrite <- app_assoc; eauto.
    + simpl. rewrite <- app_assoc. eauto.
Qed.

Lemma createBrowserContext_rejects_bad_endpoint_witness :
  let remote := mkBrowserConfig (Some chromium) false None (JString "not a url")
                                JUndefined None None in
  let blank := mkBrowserConfig None false None JNull (JString "   ") None None in
  let cdp := mkBrowserConfig None false None JUndefined
                             (JString "http://localhost:9222") None None in
  let w := mkWorld new_Context
             (mkEngine [] [] [] 0 (fun _ => "about:blank") (fun _ => []) "cookies") in
  (truthy (remoteEndpoint remote) = true ∧
   malformed has_url_scheme (remoteEndpoint remote) = true ∧
   _createBrowserContext has_url_scheme (mkConfig (Some remote) false) w
   = (Throw (TypeError "Invalid URL"), w)) ∧
  (truthy (cdpEndpoint blank) = true ∧
   _createBrowserContext has_url_scheme (mkConfig (Some blank) false) w
   = (Throw (Error "Invalid CDP endpoint:    . Must be a valid URL string."), w)) ∧
  (∃ s later,
     cdpEndpoint cdp = JString s ∧
     calls (eng (_createBrowserContext has_url_scheme (mkConfig (Some cdp) false) w).2)
     = calls (eng w) ++ connectOverCDP s :: later).
Proof.
  intros remote blank cdp w.
  destruct (createBrowserContext_rejects_bad_endpoint has_url_scheme
              (mkConfig (Some remote) false) remote w eq_refl) as (Hremote & _ & _).
  destruct (createBrowserContext_rejects_bad_endpoint has_url_scheme
              (mkConfig (Some blank) false) blank w eq_refl) as (_ & Hblank & _).
  destruct (createBrowserContext_rejects_bad_endpoint has_url_scheme
              (mkConfig (Some cdp) false) cdp w eq_refl) as (_ & _ & Hcdp).
  split_and!; [reflexivity|reflexivity|exact (Hremote eq_refl eq_refl)|reflexivity|
               exact (Hblank eq_refl eq_refl eq_refl)|exact (Hcdp eq_refl eq_refl eq_refl)].
Defined.

(** C7, as stated, fails for the debug-protocol endpoint: the value
    [not a url] is selected and malformed, yet [connectOverCDP] is
    called with it, and the failure that comes back is the one of the
    connection attempt. *)
Lemma createBrowserContext_cdp_malformed_connects :
  let b := mkBrowserConfig None false None JUndefined (JString "not a url") None None in
  let w := mkWorld new_Context
             (mkEngine [Fails "connect ECONNREFUSED"] [] [] 0
                       (fun _ => "about:blank") (fun _ => []) "cookies") in
  let r := _createBrowserContext has_url_scheme (mkConfig (Some b) false) w in
  truthy (remoteEndpoint b) = false ∧
  truthy (cdpEndpoint b) = true ∧
  malformed has_url_scheme (cdpEndpoint b) = true ∧
  r.1 = Throw (EngineError "connect ECONNREFUSED") ∧
  calls (eng r.2) = [connectOverCDP "not a url"] ∧
  existsb is_connect (calls (eng r.2)) = true.
Proof. vm_compute. split_and!; reflexivity. Qed.

(** ** Network quiescence waiter *)

Section WaiterFacts.
Context {R : Type}.
Implicit Types (s : Waiter R) (ev : WaitEvent R) (evs : list (WaitEvent R)).

Lemma waitForCompletion_snoc evs ev :
  waitForCompletion (evs ++ [ev]) = wait_step ev (waitForCompletion evs).
Proof. unfold waitForCompletion. by rewrite fold_left_app. Qed.

Lemma resume_waitBarrier s : waitBarrier (resume s) = waitBarrier s.
Proof. destruct s as [? ? [] ? ? ? ? ? []]; reflexivity. Qed.

(** The barrier is never unresolved again. *)
Lemma wait_step_barrier_stays s ev :
  waitBarrier s = Resolved → waitBarrier (wait_step ev s) = Resolved.
Proof.
  intros Hres. destruct ev; simpl; repeat case_match;
    rewrite ?resume_waitBarrier; simpl; try done.
  all: unfold requestFinishedListener, frameNavigateListener; simpl;
    repeat case_match; simpl; done.
Qed.

Lemma in_flight_snoc evs ev (r : Request) :
  in_flight (evs ++ [ev]) r ↔
  ev = request r ∨ (in_flight evs r ∧ ev ≠ requestfinished r).
Proof.
  unfold in_flight. split.
  - intros (pre & post & Hsplit & Hpost).
    destruct post as [|last post _] using rev_ind.
    + apply app_inj_tail in Hsplit as [_ ->]. by left.
    + rewrite app_comm_cons, app_assoc in Hsplit.
      apply app_inj_tail in Hsplit as [-> ->]. right. split.
      * exists pre, post. split; [done|]. intros Hin. apply Hpost.
        apply elem_of_app. by left.
      * intros ->. apply Hpost. apply elem_of_app. right. by apply list_elem_of_singleton.
  - intros [->|[(pre & post & -> & Hpost) Hev]].
    + exists evs, []. split; [done|]. apply not_elem_of_nil.
    + exists pre, (post ++ [ev]). split; [by rewrite <- app_assoc|].
      intros [Hin|Hin%list_elem_of_singleton]%elem_of_app; [done|]. by subst.
Qed.

(** The two request listeners are registered and removed together, and
    once removed they stay removed. *)
Lemma wait_step_listening s ev :
  on_request (wait_step ev s) = true → on_requestfinished (wait_step ev s) = true →
  on_request s = true ∧ on_requestfinished s = true.
Proof.
  destruct s as [rs nav barrier l1 l2 l3 timer load ph].
  destruct ev; unfold wait_step, requestListener, requestFinishedListener,
    frameNavigateListener, onTimeout, resume, waitCallback, dispose; simpl;
    repeat (case_match; simpl in *; simplify_eq); simpl in *; done.
Qed.

(** While the request listeners are registered, [requests] holds
    exactly the requests in flight. *)
Lemma waitForCompletion_requests evs (r : Request) :
  on_request (waitForCompletion evs) = true →
  on_requestfinished (waitForCompletion evs) = true →
  r ∈ requests (waitForCompletion evs) ↔ in_flight evs r.
Proof.
  induction evs as [|ev evs IH] using rev_ind.
  - intros _ _. simpl. split; [set_solver|].
    intros (pre & post & Hsplit & _). by destruct pre.
  - rewrite waitForCompletion_snoc. intros Hon Hoff.
    destruct (wait_step_listening _ _ Hon Hoff) as [Hon' Hoff'].
    specialize (IH Hon' Hoff'). rewrite in_flight_snoc, <- IH.
    clear IH Hon Hoff. revert Hon' Hoff'.
    destruct (waitForCompletion evs) as [rs nav barrier l1 l2 l3 timer load ph].
    simpl. intros -> ->.
    destruct ev; unfold wait_step, requestListener, requestFinishedListener,
      frameNavigateListener, onTimeout, resume, waitCallback, dispose; simpl;
      repeat (case_match; simpl in *; simplify_eq); simpl in *;
      try (split; [intros ?; right; split; [done|discriminate]|by intros [?|[? _]]]).
    all: try (rewrite elem_of_union, elem_of_singleton; split;
              [intros [->|?]; [by left|right; split; [done|discriminate]]
              |intros [?|[? _]]; [left; congruence|by right]]).
    all: rewrite elem_of_difference, elem_of_singleton; split;
      [intros [? ?]; right; split; [done|congruence]
      |intros [?|[? ?]]; [done|split; [done|congruence]]].
Qed.

(** Which events resolve the barrier, and in which states. *)
Lemma wait_step_release s ev :
  waitBarrier s = Unresolved →
  waitBarrier (wait_step ev s) = Resolved →
  releases ev s (wait_step ev s).
Proof.
  intros Hun. destruct ev; simpl; repeat case_match;
    rewrite ?resume_waitBarrier; simpl; try congruence.
  all: unfold requestFinishedListener, frameNavigateListener, resume; simpl;
    repeat case_match; simpl in *; try congruence; try done.
Qed.
Lemma waiter_start_inv : waiter_inv (@waiter_start R).
Proof. unfold waiter_inv. simpl. split_and!; done. Qed.

Lemma wait_step_inv s ev : waiter_inv s → waiter_inv (wait_step ev s).
Proof.
  unfold waiter_inv, disposed, past_barrier, exited.
  destruct s as [rs nav barrier l1 l2 l3 timer load ph].
  intros (Hpast & Hload & Hexit). simpl in *.
  destruct ev; unfold wait_step, requestListener, requestFinishedListener,
    frameNavigateListener, onTimeout, resume, waitCallback, dispose; simpl;
    repeat (case_match; simpl in *; simplify_eq); simpl in *;
    intuition (try congruence; try discriminate).
  all: by destruct timer.
Qed.

Lemma waitForCompletion_inv evs : waiter_inv (waitForCompletion evs).
Proof.
  induction evs as [|ev evs IH] using rev_ind; [apply waiter_start_inv|].
  rewrite waitForCompletion_snoc. by apply wait_step_inv.
Qed.

(** A resolved barrier was resolved by some event of the sequence. *)
Lemma waitForCompletion_released evs :
  waitBarrier (waitForCompletion evs) = Resolved →
  ∃ pre ev post,
    evs = pre ++ ev :: post ∧
    waitBarrier (waitForCompletion pre) = Unresolved ∧
    waitBarrier (waitForCompletion (pre ++ [ev])) = Resolved ∧
    releases ev (waitForCompletion pre) (waitForCompletion (pre ++ [ev])).
Proof.
  induction evs as [|ev evs IH] using rev_ind; [done|].
  rewrite waitForCompletion_snoc. intros Hres.
  destruct (waitBarrier (waitForCompletion evs)) eqn:Hbefore.
  - exists evs, ev, []. split_and!; [done|done|by rewrite waitForCompletion_snoc|].
    rewrite waitForCompletion_snoc. by apply wait_step_release.
  - destruct (IH eq_refl) as (pre & ev' & post & -> & Hun & Hres' & Hrel).
    exists pre, ev', (post ++ [ev]). split_and!; [|done|done|done].
    by rewrite <- app_assoc.
Qed.
Lemma callback_resolved_requests s (result : R) :
  requests (wait_step (callback_resolved result) s) = requests s.
Proof.
  destruct s as [rs nav [] l1 l2 l3 timer load []]; simpl; try done.
  all: unfold resume; simpl; repeat case_match; done.
Qed.

Lemma callback_resolved_frameNavigated s (result : R) :
  frameNavigated (wait_step (callback_resolved result) s) = frameNavigated s.
Proof.
  destruct s as [rs nav [] l1 l2 l3 timer load []]; simpl; try done.
  all: unfold resume; simpl; repeat case_match; done.
Qed.

(** After a top-level navigation the listeners and the timer are gone,
    and the load event is awaited unless the barrier is resolved. *)
Lemma wait_step_navigated s ev :
  (frameNavigated s = true →
   disposed s ∧ (load_awaited s = true ∨ waitBarrier s = Resolved)) →
  frameNavigated (wait_step ev s) = true →
  disposed (wait_step ev s) ∧
  (load_awaited (wait_step ev s) = true ∨ waitBarrier (wait_step ev s) = Resolved).
Proof.
  unfold disposed. destruct s as [rs nav barrier l1 l2 l3 timer load ph]. simpl.
  intros Hinv.
  destruct ev; unfold wait_step, requestListener, requestFinishedListener,
    frameNavigateListener, onTimeout, resume, waitCallback, dispose; simpl;
    repeat (case_match; simpl in *; simplify_eq); simpl in *;
    intros Hnav; try (specialize (Hinv Hnav)); try discriminate;
    intuition (try congruence; try discriminate).
  all: by destruct timer.
Qed.

Lemma waitForCompletion_navigated evs :
  frameNavigated (waitForCompletion evs) = true →
  disposed (waitForCompletion evs) ∧
  (load_awaited (waitForCompletion evs) = true ∨
   waitBarrier (waitForCompletion evs) = Resolved).
Proof.
  induction evs as [|ev evs IH] using rev_ind; [done|].
  rewrite waitForCompletion_snoc. by apply wait_step_navigated.
Qed.

(** Once the timer has fired, the listeners are off the page. *)
Lemma wait_step_fired s ev :
  (timeout s = Fired →
   on_request s = false ∧ on_requestfinished s = false ∧ on_framenavigated s = false) →
  timeout (wait_step ev s) = Fired →
  on_request (wait_step ev s) = false ∧ on_requestfinished (wait_step ev s) = false ∧
  on_framenavigated (wait_step ev s) = false.
Proof.
  destruct s as [rs nav barrier l1 l2 l3 timer load ph]. simpl.
  intros Hinv.
  destruct ev; unfold wait_step, requestListener, requestFinishedListener,
    frameNavigateListener, onTimeout, resume, waitCallback, dispose; simpl;
    repeat (case_match; simpl in *; simplify_eq); simpl in *;
    intros Hfired; try (specialize (Hinv Hfired)); try discriminate;
    try (destruct timer; simpl in *; try discriminate);
    intuition (try congruence; try discriminate).
Qed.

Lemma waitForCompletion_fired evs :
  timeout (waitForCompletion evs) = Fired →
  on_request (waitForCompletion evs) = false ∧
  on_requestfinished (waitForCompletion evs) = false ∧
  on_framenavigated (waitForCompletion evs) = false.
Proof.
  induction evs as [|ev evs IH] using rev_ind; [done|].
  rewrite waitForCompletion_snoc. by apply wait_step_fired.
Qed.

(** After a top-level navigation, only the load event touches the
    barrier. *)
Lemma navigated_barrier s :
  frameNavigated s = true →
  disposed s →
  load_awaited s = true ∨ waitBarrier s = Resolved →
  (∀ ev, ev ≠ load_reached → waitBarrier (wait_step ev s) = waitBarrier s) ∧
  waitBarrier (wait_step load_reached s) = Resolved.
Proof.
  unfold disposed. destruct s as [rs nav barrier l1 l2 l3 timer load ph]. simpl.
  intros -> (-> & -> & -> & Htimer) Hload. split.
  - intros ev Hev. destruct ev; simpl; try done.
    + by destruct timer.
    + destruct ph; simpl; try done; unfold resume; simpl;
        repeat case_match; simpl; done.
    + by destruct ph.
    + by destruct ph.
    + by destruct ph.
  - simpl. destruct load; simpl; [by rewrite resume_waitBarrier|].
    by destruct Hload.
Qed.

(** C4, as amended. The waiter gets past its barrier only after one
    of these has happened. While no top-level navigation has been
    observed: a finished request left no request in flight, the
    callback completed with no request in flight, or the timeout
    elapsed. After a top-level navigation has been observed with the
    barrier unresolved: the load event arrived, and nothing else; the
    waiter then waits for the load event instead. When the callback
    completes with no request in flight and no navigation observed,
    the waiter passes the barrier at once. A top-level navigation that
    reaches the listener takes the three listeners off the page and
    clears the timer at once and starts the wait for the load event; a
    navigation of a subframe changes nothing. Whenever the call has
    been left, by return or by exception, or a top-level navigation
    has been observed, or the timer has fired, the three listeners are
    off the page and the timer is not pending. From the observation of
    a top-level navigation on, no event but the load event changes the
    barrier, and the load event resolves it. While the request
    listeners are registered, the set [requests] holds exactly the
    requests that were seen to start and not since seen to finish. *)
Theorem waitForCompletion_barrier_and_cleanup evs :
  let s := waitForCompletion evs in
  (past_barrier s = true →
   ∃ pre ev post,
     evs = pre ++ ev :: post ∧
     waitBarrier (waitForCompletion pre) = Unresolved ∧
     match ev with
     | requestfinished _ =>
         requests (waitForCompletion (pre ++ [ev])) = ∅ ∧
         frameNavigated (waitForCompletion pre) = false
     | callback_resolved _ =>
         requests (waitForCompletion pre) = ∅ ∧
         frameNavigated (waitForCompletion pre) = false
     | load_reached => frameNavigated (waitForCompletion pre) = true
     | timeout_elapsed =>
         timeout (waitForCompletion pre) = Armed ∧
         frameNavigated (waitForCompletion pre) = false
     | _ => False
     end) ∧
  (∀ result, phase s = InCallback → requests s = ∅ → frameNavigated s = false →
     phase (wait_step (callback_resolved result) s) = InDelay result) ∧
  (on_framenavigated s = true →
   let s' := wait_step (framenavigated false) s in
   frameNavigated s' = true ∧
   on_request s' = false ∧ on_requestfinished s' = false ∧
   on_framenavigated s' = false ∧ timeout s' ≠ Armed ∧
   load_awaited s' = true ∧
   wait_step (framenavigated true) s = s) ∧
  (exited s = true ∨ frameNavigated s = true ∨ timeout s = Fired →
   on_request s = false ∧ on_requestfinished s = false ∧
   on_framenavigated s = false ∧ timeout s ≠ Armed) ∧
  (frameNavigated s = true →
   (∀ ev, ev ≠ load_reached → waitBarrier (wait_step ev s) = waitBarrier s) ∧
   waitBarrier (wait_step load_reached s) = Resolved) ∧
  (on_request s = true → on_requestfinished s = true →
   ∀ r, r ∈ requests s ↔ in_flight evs r).
Proof.
  intros s. destruct (waitForCompletion_inv evs) as (Hpast & _ & Hexit).
  fold s in Hpast, Hexit. split_and!.
  - intros Hp. destruct (waitForCompletion_released evs (Hpast Hp))
      as (pre & ev & post & Hsplit & Hun & Hres & Hrel).
    exists pre, ev, post. split_and!; [done|done|].
    destruct (waitForCompletion_inv pre) as (_ & Hload & _).
    assert (frameNavigated (waitForCompletion pre) = true →
            on_requestfinished (waitForCompletion pre) = false ∧
            timeout (waitForCompletion pre) ≠ Armed) as Hquiet.
    { intros Hnav. destruct (waitForCompletion_navigated pre Hnav) as [(_ & ? & _ & ?) _].
      done. }
    rewrite waitForCompletion_snoc in Hres.
    destruct ev; simpl in Hrel; try done.
    + split; [done|]. destruct (frameNavigated (waitForCompletion pre)) eqn:Hnav; [|done].
      destruct (Hquiet eq_refl) as [Hoff _]. simpl in Hres. rewrite Hoff in Hres.
      congruence.
    + split; [done|]. destruct (frameNavigated (waitForCompletion pre)) eqn:Hnav; [|done].
      by destruct (Hquiet eq_refl) as [_ Htimer].
    + by apply Hload.
    + rewrite waitForCompletion_snoc in Hrel.
      by rewrite callback_resolved_requests, callback_resolved_frameNavigated in Hrel.
  - intros result Hphase Hreq Hnav. simpl. rewrite Hphase, Hnav.
    rewrite decide_True by done. done.
  - intros Hon s'. unfold s'. simpl. rewrite Hon. unfold frameNavigateListener. simpl.
    split_and!; try done. by destruct (timeout s).
  - intros [Hleft|[Hnav|Hfired]].
    + by apply Hexit.
    + by destruct (waitForCompletion_navigated evs Hnav) as [Hdisposed _].
    + destruct (waitForCompletion_fired evs Hfired) as (? & ? & ?).
      fold s in Hfired. split_and!; try done. by rewrite Hfired.
  - intros Hnav. destruct (waitForCompletion_navigated evs Hnav) as [Hdisposed Hload].
    by apply navigated_barrier.
  - intros Hon Hoff r. by apply waitForCompletion_requests.
Qed.
End WaiterFacts.

Lemma waitForCompletion_barrier_and_cleanup_witness :
  let evs := [request 1; request 2; request 3; callback_resolved 7;
              requestfinished 2; requestfinished 3; requestfinished 1;
              delay_resolved] in
  let s := @waitForCompletion nat evs in
  let started := @waitForCompletion nat [request 1] in
  let navigated := @waitForCompletion nat [request 1; framenavigated false;
                                           callback_resolved 7] in
  let fired := @waitForCompletion nat [request 1; callback_resolved 7; timeout_elapsed] in
  (past_barrier s = true ∧
   exited s = true ∧
   (∃ pre ev post, evs = pre ++ ev :: post ∧
                   waitBarrier (waitForCompletion pre) = Unresolved) ∧
   phase (wait_step (callback_resolved 7) (@waitForCompletion nat [])) = InDelay 7 ∧
   (2 ∈ requests (@waitForCompletion nat [request 1; request 2; requestfinished 1]) ↔
    in_flight [@request nat 1; request 2; requestfinished 1] 2) ∧
   on_request s = false ∧ on_requestfinished s = false ∧
   on_framenavigated s = false ∧ timeout s ≠ Armed) ∧
  (on_framenavigated started = true ∧
   frameNavigated (wait_step (framenavigated false) started) = true ∧
   on_requestfinished (wait_step (framenavigated false) started) = false ∧
   timeout (wait_step (framenavigated false) started) ≠ Armed ∧
   load_awaited (wait_step (framenavigated false) started) = true ∧
   wait_step (framenavigated true) started = started) ∧
  (frameNavigated navigated = true ∧
   phase navigated = AtBarrier 7 ∧
   on_request navigated = false ∧ on_requestfinished navigated = false ∧
   on_framenavigated navigated = false ∧ timeout navigated ≠ Armed ∧
   waitBarrier (wait_step (requestfinished 1) navigated) = waitBarrier navigated ∧
   waitBarrier (wait_step timeout_elapsed navigated) = waitBarrier navigated ∧
   waitBarrier (wait_step load_reached navigated) = Resolved) ∧
  (timeout fired = Fired ∧
   on_request fired = false ∧ on_requestfinished fired = false ∧
   on_framenavigated fired = false).
Proof.
  intros evs s started navigated fired.
  destruct (waitForCompletion_barrier_and_cleanup evs) as (Hbarrier & _ & _ & Hexit & _).
  destruct (waitForCompletion_barrier_and_cleanup (@nil (WaitEvent nat)))
    as (_ & Hidle & _).
  destruct (waitForCompletion_barrier_and_cleanup [@request nat 1; request 2; requestfinished 1])
    as (_ & _ & _ & _ & _ & Hflight).
  destruct (waitForCompletion_barrier_and_cleanup [@request nat 1])
    as (_ & _ & Hstep & _).
  destruct (waitForCompletion_barrier_and_cleanup
              [@request nat 1; framenavigated false; callback_resolved 7])
    as (_ & _ & _ & Hoff & Hload & _).
  destruct (waitForCompletion_barrier_and_cleanup
              [@request nat 1; callback_resolved 7; timeout_elapsed])
    as (_ & _ & _ & Hfired & _).
  assert (past_barrier s = true) as Hpast by reflexivity.
  assert (exited s = true) as Hleft by reflexivity.
  destruct (Hbarrier Hpast) as (pre & ev & post & Hsplit & Hun & _).
  destruct (Hexit (or_introl Hleft)) as (Hl1 & Hl2 & Hl3 & Htimer).
  destruct (Hstep eq_refl) as (Hnav & _ & Hn2 & _ & Hntimer & Hnload & Hsub).
  destruct (Hoff (or_intror (or_introl eq_refl))) as (Ho1 & Ho2 & Ho3 & Hotimer).
  destruct (Hload eq_refl) as (Hquiet & Hresolved).
  destruct (Hfired (or_intror (or_intror eq_refl))) as (Hf1 & Hf2 & Hf3 & _).
  assert (requestfinished 1 ≠ @load_reached nat) as Hne1 by discriminate.
  assert (timeout_elapsed ≠ @load_reached nat) as Hne2 by discriminate.
  split_and!.
  - exact Hpast.
  - exact Hleft.
  - by exists pre, ev, post.
  - exact (Hidle 7 eq_refl eq_refl eq_refl).
  - exact (Hflight eq_refl eq_refl 2).
  - exact Hl1.
  - exact Hl2.
  - exact Hl3.
  - exact Htimer.
  - reflexivity.
  - exact Hnav.
  - exact Hn2.
  - exact Hntimer.
  - exact Hnload.
  - exact Hsub.
  - reflexivity.
  - reflexivity.
  - exact Ho1.
  - exact Ho2.
  - exact Ho3.
  - exact Hotimer.
  - exact (Hquiet _ Hne1).
  - exact (Hquiet _ Hne2).
  - exact Hresolved.
  - reflexivity.
  - exact Hf1.
  - exact Hf2.
  - exact Hf3.
Defined.

(** C4, as stated, fails: a request that starts after an earlier one
    has finished is not waited for. Here request 1 starts and finishes
    while the callback runs, request 2 starts, the callback completes,
    and the waiter returns with request 2 still in flight, without any
    navigation and without the timeout. *)
Lemma waitForCompletion_returns_with_request_in_flight :
  let evs := [request 1; requestfinished 1; request 2; callback_resolved 7;
              delay_resolved] in
  let s := @waitForCompletion nat evs in
  phase s = Returned 7 ∧
  started evs = [1; 2] ∧
  ended evs = [1] ∧
  requests s = {[2]} ∧
  in_flight evs 2 ∧
  existsb is_top_navigation evs = false ∧
  existsb is_timeout evs = false ∧
  frameNavigated s = false ∧
  timeout s = Cleared.
Proof.
  intros evs s. split_and!; try (vm_compute; reflexivity).
  exists [request 1; requestfinished 1], [callback_resolved 7; delay_resolved].
  split; [reflexivity|].
  intros Hin. repeat (apply elem_of_cons in Hin as [Hin|Hin]; [discriminate|]).
  by apply elem_of_nil in Hin.
Qed.

(** * Further properties *)

(** ** File names *)

Lemma append_String (a : Ascii.ascii) (s t : string) :
  String a s +:+ t = String a (s +:+ t).
Proof. reflexivity. Qed.

Lemma append_empty (s : string) : EmptyString +:+ s = s.
Proof. reflexivity. Qed.

Lemma full_stop_unsafe : unsafe_char FULL_STOP = true.
Proof. reflexivity. Qed.

Lemma hyphen_safe : unsafe_char HYPHEN = false.
Proof. reflexivity. Qed.

Lemma sanitize_from_safe (in_run : bool) (s : string) :
  string_forall safe_char (sanitize_from in_run s) = true.
Proof.
  revert in_run. induction s as [|a s IH]; intros in_run; simpl; [done|].
  destruct (unsafe_char a) eqn:Ha.
  - destruct in_run; simpl; rewrite ?IH; done.
  - simpl. unfold safe_char at 1. by rewrite Ha, IH.
Qed.

Lemma sanitize_from_fixed (in_run : bool) (s : string) :
  string_forall safe_char s = true → sanitize_from in_run s = s.
Proof.
  revert in_run. induction s as [|a s IH]; intros in_run; simpl; [done|].
  intros [Ha Hs]%andb_prop. unfold safe_char in Ha. apply negb_true_iff in Ha.
  by rewrite Ha, IH.
Qed.

Lemma sanitize_from_length (in_run : bool) (s : string) :
  String.length (sanitize_from in_run s) ≤ String.length s.
Proof.
  revert in_run. induction s as [|a s IH]; intros in_run; simpl; [done|].
  pose proof (IH true). pose proof (IH false).
  destruct (unsafe_char a); [destruct in_run|]; simpl; lia.
Qed.

Lemma safe_no_full_stop (s : string) :
  string_forall safe_char s = true → count_char FULL_STOP s = 0.
Proof.
  induction s as [|a s IH]; simpl; [done|].
  intros [Ha Hs]%andb_prop. rewrite IH by done. case_decide; [|done].
  subst. by unfold safe_char in Ha.
Qed.

Lemma safe_name (s : string) :
  string_forall safe_char s = true → string_forall name_char s = true.
Proof.
  induction s as [|a s IH]; simpl; [done|].
  intros [Ha Hs]%andb_prop. unfold name_char at 1. by rewrite Ha, IH.
Qed.

Lemma string_forall_app (test : Ascii.ascii → bool) (s t : string) :
  string_forall test (s +:+ t) = string_forall test s && string_forall test t.
Proof. induction s as [|a s IH]; simpl; [done|]. by rewrite IH, andb_assoc. Qed.

Lemma count_char_app (a : Ascii.ascii) (s t : string) :
  count_char a (s +:+ t) = count_char a s + count_char a t.
Proof. induction s as [|b s IH]; simpl; [done|]. rewrite IH. lia. Qed.

Lemma string_length_app (s t : string) :
  String.length (s +:+ t) = String.length s + String.length t.
Proof. induction s as [|a s IH]; simpl; [done|]. by rewrite IH. Qed.

Lemma lastIndexOf_range (a : Ascii.ascii) (s : string) :
  (-1 ≤ lastIndexOf a s < Z.of_nat (String.length s))%Z.
Proof.
  induction s as [|b s IH]; simpl; [lia|]. repeat case_decide; lia.
Qed.

(** [lastIndexOf] finds nothing exactly when the character is absent;
    otherwise it splits the string around the last occurrence. *)
Lemma lastIndexOf_absent (a : Ascii.ascii) (s : string) :
  lastIndexOf a s = (-1)%Z ↔ count_char a s = 0.
Proof.
  induction s as [|b s IH]; simpl; [done|].
  pose proof (lastIndexOf_range a s) as Hrange.
  case_decide as Hlater.
  - apply IH in Hlater as Hcount. rewrite Hcount.
    case_decide; split; intros; lia.
  - split; [lia|]. intros Hcount. exfalso. apply Hlater, IH. lia.
Qed.

Lemma lastIndexOf_split (a : Ascii.ascii) (s : string) :
  lastIndexOf a s ≠ (-1)%Z →
  let n := Z.to_nat (lastIndexOf a s) in
  s = string_take n s +:+ String a EmptyString +:+ string_drop (S n) s ∧
  count_char a (string_drop (S n) s) = 0.
Proof.
  induction s as [|b s IH]; simpl; [done|].
  pose proof (lastIndexOf_range a s) as Hrange.
  case_decide as Hlater.
  - case_decide as Hb; [|done]. intros _. subst b. simpl.
    split; [done|]. by apply lastIndexOf_absent.
  - intros _. destruct (IH Hlater) as [Hsplit Hcount].
    replace (Z.to_nat (lastIndexOf a s + 1)) with (S (Z.to_nat (lastIndexOf a s))) by lia.
    split; [|done]. cbn [string_take]. rewrite append_String. f_equal. exact Hsplit.
Qed.

(** The last occurrence in [p . q], when [q] has none. *)
Lemma lastIndexOf_app (a : Ascii.ascii) (p q : string) :
  count_char a q = 0 →
  lastIndexOf a (p +:+ String a EmptyString +:+ q) = Z.of_nat (String.length p) ∧
  string_take (String.length p) (p +:+ String a EmptyString +:+ q) = p ∧
  string_drop (S (String.length p)) (p +:+ String a EmptyString +:+ q) = q.
Proof.
  intros Hq. induction p as [|b p IH].
  - rewrite append_empty, append_String, append_empty. simpl.
    apply lastIndexOf_absent in Hq. rewrite Hq.
    rewrite decide_True by done. by rewrite decide_True.
  - destruct IH as (Hidx & Htake & Hdrop). rewrite append_String.
    split_and!.
    + cbn [lastIndexOf String.length]. rewrite Hidx, decide_False by lia. lia.
    + cbn [String.length string_take]. by rewrite Htake.
    + exact Hdrop.
Qed.

Lemma string_forall_count (test : Ascii.ascii → bool) (a : Ascii.ascii) (s : string) :
  string_forall test s = true → test a = false → count_char a s = 0.
Proof.
  intros Hs Ha. induction s as [|b s IH]; simpl in *; [done|].
  apply andb_prop in Hs as [Hb Hs]. rewrite IH by done.
  case_decide; [congruence|done].
Qed.

(** How [sanitizeForFilePath] acts in terms of the parts around the
    last full stop. *)
Lemma sanitizeForFilePath_cases (s : string) :
  (count_char FULL_STOP s = 0 ∧ sanitizeForFilePath s = sanitize s) ∨
  (∃ p q, s = p +:+ String FULL_STOP EmptyString +:+ q ∧
          count_char FULL_STOP q = 0 ∧
          sanitizeForFilePath s
          = sanitize p +:+ String FULL_STOP EmptyString +:+ sanitize q).
Proof.
  unfold sanitizeForFilePath. case_decide as Hsep.
  - left. split; [by apply lastIndexOf_absent|done].
  - right. destruct (lastIndexOf_split FULL_STOP s Hsep) as [Hsplit Hcount].
    pose proof (lastIndexOf_range FULL_STOP s) as Hrange.
    replace (Z.to_nat (lastIndexOf FULL_STOP s + 1))
      with (S (Z.to_nat (lastIndexOf FULL_STOP s))) by lia.
    eexists _, _. split_and!; [exact Hsplit|exact Hcount|done].
Qed.

(** A name made of kept characters around one full stop is returned
    as it is. *)
Lemma sanitizeForFilePath_dotted (p q : string) :
  string_forall safe_char p = true → string_forall safe_char q = true →
  sanitizeForFilePath (p +:+ String FULL_STOP EmptyString +:+ q)
  = p +:+ String FULL_STOP EmptyString +:+ q.
Proof.
  intros Hp Hq. unfold sanitizeForFilePath.
  destruct (lastIndexOf_app FULL_STOP p q (safe_no_full_stop q Hq)) as (Hidx & Htake & Hdrop).
  rewrite Hidx. rewrite decide_False by lia.
  replace (Z.to_nat (Z.of_nat (String.length p) + 1)) with (S (String.length p)) by lia.
  rewrite Nat2Z.id, Htake, Hdrop. unfold sanitize.
  by rewrite !sanitize_from_fixed.
Qed.

Lemma sanitizeForFilePath_plain (s : string) :
  string_forall safe_char s = true → sanitizeForFilePath s = s.
Proof.
  intros Hs. unfold sanitizeForFilePath.
  rewrite decide_True by (by apply lastIndexOf_absent, safe_no_full_stop).
  by apply sanitize_from_fixed.
Qed.

(** X1. The name that [sanitizeForFilePath] returns is made of letters,
    digits, hyphens, characters above [\x7F] and at most one full
    stop, which is there exactly when the input has one; so it holds no
    path separator, and it is never longer than the input. *)
Theorem sanitizeForFilePath_safe (s : string) :
  string_forall name_char (sanitizeForFilePath s) = true ∧
  count_char FULL_STOP (sanitizeForFilePath s)
  = (if decide (count_char FULL_STOP s = 0) then 0 else 1) ∧
  (∀ a, name_char a = false → count_char a (sanitizeForFilePath s) = 0) ∧
  String.length (sanitizeForFilePath s) ≤ String.length s.
Proof.
  assert (string_forall name_char (sanitizeForFilePath s) = true ∧
          count_char FULL_STOP (sanitizeForFilePath s)
          = (if decide (count_char FULL_STOP s = 0) then 0 else 1) ∧
          String.length (sanitizeForFilePath s) ≤ String.length s) as (Hname & Hdots & Hlen).
  { destruct (sanitizeForFilePath_cases s) as [[Hnone ->]|(p & q & -> & Hq & ->)].
    - unfold sanitize. split_and!.
      + apply safe_name, sanitize_from_safe.
      + rewrite decide_True by done. apply safe_no_full_stop, sanitize_from_safe.
      + apply sanitize_from_length.
    - unfold sanitize. split_and!.
      + rewrite !string_forall_app, !(safe_name _ (sanitize_from_safe _ _)). done.
      + assert (count_char FULL_STOP (p +:+ String FULL_STOP EmptyString +:+ q) ≠ 0)
          as Hsome.
        { rewrite !count_char_app. cbn [count_char]. rewrite decide_True by done. lia. }
        rewrite (decide_False _ _ Hsome).
        rewrite !count_char_app, !(safe_no_full_stop _ (sanitize_from_safe _ _)).
        reflexivity.
      + rewrite !string_length_app. simpl.
        pose proof (sanitize_from_length false p). pose proof (sanitize_from_length false q).
        lia. }
  split_and!; [done|done| |done].
  intros a Ha. by eapply string_forall_count.
Qed.

Lemma sanitizeForFilePath_safe_witness :
  let slash := Ascii.ascii_of_nat 47 in
  let backslash := Ascii.ascii_of_nat 92 in
  sanitizeForFilePath "../../etc/passwd" = "-.-etc-passwd" ∧
  count_char slash (sanitizeForFilePath "../../etc/passwd") = 0 ∧
  count_char backslash (sanitizeForFilePath "..\..\boot.ini") = 0.
Proof.
  intros slash backslash.
  destruct (sanitizeForFilePath_safe "../../etc/passwd") as (_ & _ & Hnone & _).
  destruct (sanitizeForFilePath_safe "..\..\boot.ini") as (_ & _ & Hnone' & _).
  split_and!; [reflexivity|exact (Hnone slash eq_refl)|exact (Hnone' backslash eq_refl)].
Defined.

(** X2. [sanitizeForFilePath] is idempotent, and it returns unchanged
    every name that consists of kept characters, with or without one
    full stop between them. *)
Theorem sanitizeForFilePath_idempotent (s : string) :
  sanitizeForFilePath (sanitizeForFilePath s) = sanitizeForFilePath s ∧
  (string_forall safe_char s = true → sanitizeForFilePath s = s) ∧
  (∀ p q, s = p +:+ String FULL_STOP EmptyString +:+ q →
          string_forall safe_char p = true → string_forall safe_char q = true →
          sanitizeForFilePath s = s).
Proof.
  split_and!.
  - destruct (sanitizeForFilePath_cases s) as [[_ ->]|(p & q & _ & _ & ->)].
    + apply sanitizeForFilePath_plain, sanitize_from_safe.
    + apply sanitizeForFilePath_dotted; apply sanitize_from_safe.
  - apply sanitizeForFilePath_plain.
  - intros p q -> Hp Hq. by apply sanitizeForFilePath_dotted.
Qed.

Lemma sanitizeForFilePath_idempotent_witness :
  sanitizeForFilePath "trace-2024" = "trace-2024" ∧
  sanitizeForFilePath "report.pdf" = "report.pdf" ∧
  sanitizeForFilePath "my file (1).tar.gz" = "my-file-1-tar.gz".
Proof.
  destruct (sanitizeForFilePath_idempotent "trace-2024") as (_ & Hplain & _).
  destruct (sanitizeForFilePath_idempotent "report.pdf") as (_ & _ & Hdotted).
  split_and!; [exact (Hplain eq_refl)|exact (Hdotted "report" "pdf" eq_refl eq_refl eq_refl)|
               reflexivity].
Defined.

(** ** Page callbacks *)

Lemma indexOf_from_absent {A} `{EqDecision A} (x : A) (arr : list A) (k : Z) :
  x ∉ arr → indexOf_from x arr k = (-1)%Z.
Proof.
  revert k. induction arr as [|y arr IH]; intros k Hnot; simpl; [done|].
  apply not_elem_of_cons in Hnot as [Hne Hnot]. rewrite decide_False by done.
  by apply IH.
Qed.

Lemma indexOf_from_found {A} `{EqDecision A} (x : A) (arr : list A) (k : Z) :
  x ∈ arr → ∃ i : nat, indexOf_from x arr k = (k + Z.of_nat i)%Z ∧ arr !! i = Some x.
Proof.
  revert k. induction arr as [|y arr IH]; intros k Hin; simpl.
  - by apply elem_of_nil in Hin.
  - case_decide as Hy.
    + subst. exists 0. split; [lia|done].
    + apply elem_of_cons in Hin as [->|Hin]; [done|].
      destruct (IH (k + 1)%Z Hin) as (i & Hidx & Hi).
      exists (S i). split; [lia|done].
Qed.

(** What [_onPageClosed] does for a tab that [indexOf] finds at
    position [i]. *)
Lemma onPageClosed_found (c : Context) (tab : Tab) (i : nat) :
  indexOf tab (_tabs c) = Z.of_nat i →
  let tabs' := delete i (_tabs c) in
  let c' := (_onPageClosed tab c).1 in
  _tabs c' = tabs' ∧
  _currentTab c'
  = (if decide (_currentTab c = Some tab)
     then js_index tabs' (Z.min (Z.of_nat i) (Z.of_nat (length tabs') - 1))
     else _currentTab c) ∧
  _modalStates c' = filter (fun state => ms_tab state ≠ tab) (_modalStates c) ∧
  _browserContextPromise c'
  = (match tabs' with [] => None | _ :: _ => _browserContextPromise c end) ∧
  (_onPageClosed tab c).2
  = (match tabs' with [] => _browserContextPromise c | _ :: _ => None end).
Proof.
  intros Hidx. unfold _onPageClosed. simpl. rewrite Hidx.
  rewrite decide_False by lia. unfold splice1. rewrite Nat2Z.id.
  destruct c as [memo tabs cur modal pending downloads saved]. simpl in *.
  case_decide as Hcur; simpl; destruct (delete i tabs) eqn:Hdel; simpl;
    unfold close; simpl; destruct memo; simpl; done.
Qed.

Lemma onPageClosed_absent (c : Context) (tab : Tab) :
  tab ∉ _tabs c →
  _onPageClosed tab c
  = (set_modalStates (filter (fun state => ms_tab state ≠ tab) (_modalStates c)) c, None).
Proof.
  intros Hnot. unfold _onPageClosed. simpl.
  unfold indexOf. rewrite indexOf_from_absent by done. by rewrite decide_True.
Qed.

(** X3. Under every sequence of page creations, page closes and
    dialogs, the current tab is a registered tab, and there is a
    current tab as long as any tab is registered. *)
Theorem registry_current_registered (evs : list RegistryEvent) :
  current_registered (rctx (registry_run evs)).
Proof.
  unfold registry_run.
  assert (current_registered (rctx (mkRegistry new_Context 0))) as Hinit by done.
  revert Hinit. generalize (mkRegistry new_Context 0).
  induction evs as [|ev evs IH]; intros r Hr; [done|].
  simpl. apply IH. clear IH. unfold current_registered in *.
  destruct ev as [page|tab|tab d]; simpl.
  - destruct r as [[memo tabs [cur|] modal pending downloads saved] nxt]; simpl in *.
    + apply elem_of_app. by left.
    + apply elem_of_app. right. by apply list_elem_of_singleton.
  - destruct (decide (tab ∈ _tabs (rctx r))) as [Hin|Hnot].
    + destruct (indexOf_from_found tab (_tabs (rctx r)) 0 Hin) as (i & Hidx & Hi).
      destruct (onPageClosed_found (rctx r) tab i) as (-> & -> & _); [unfold indexOf; lia|].
      apply lookup_lt_Some in Hi as Hlt.
      case_decide as Hcur.
      * destruct (delete i (_tabs (rctx r))) as [|t ts] eqn:Hdel.
        { rewrite js_index_out_of_range by (simpl; lia). done. }
        assert (t :: ts ≠ []) as Hne by done.
        assert (length (t :: ts) = length (_tabs (rctx r)) - 1) as Hlen
          by (rewrite <- Hdel, length_delete; eauto).
        assert (1 ≤ length (t :: ts)) as Hpos by (simpl; lia).
        generalize dependent (t :: ts). intros tabs' _ Hne Hlen Hpos.
        replace (Z.of_nat i `min` (Z.of_nat (length tabs') - 1))%Z
          with (Z.of_nat (i `min` (length tabs' - 1))) by lia.
        rewrite js_index_nat.
        destruct (tabs' !! (i `min` (length tabs' - 1))) as [cur|] eqn:Hnew.
        -- by eapply list_elem_of_lookup_2.
        -- apply lookup_ge_None in Hnew. lia.
      * destruct (_currentTab (rctx r)) as [cur|] eqn:Hc.
        -- apply list_elem_of_lookup in Hr as [j Hj].
           assert (j ≠ i) as Hji by (intros ->; congruence).
           apply list_elem_of_lookup.
           destruct (decide (j < i)).
           ++ exists j. by rewrite list_lookup_delete_lt.
           ++ exists (j - 1). rewrite list_lookup_delete_ge by lia.
              by replace (S (j - 1)) with j by lia.
        -- by rewrite Hr.
    + rewrite onPageClosed_absent by done. done.
  - rewrite dialogShown_tabs.
    assert (_currentTab (dialogShown tab d (rctx r)) = _currentTab (rctx r)) as ->.
    { by destruct (rctx r) as [? ? ? ? [?|] ? ?]. }
    done.
Qed.

Lemma onPageClosed_modalStates (c : Context) (tab : Tab) :
  _modalStates (_onPageClosed tab c).1
  = filter (fun state => ms_tab state ≠ tab) (_modalStates c).
Proof.
  destruct (decide (tab ∈ _tabs c)) as [Hin|Hnot].
  - destruct (indexOf_from_found tab (_tabs c) 0 Hin) as (i & Hidx & _).
    destruct (onPageClosed_found c tab i) as (_ & _ & Hms & _); [unfold indexOf; lia|done].
  - by rewrite onPageClosed_absent.
Qed.

(** X4. When the page of the only registered tab closes, the registry
    becomes empty, the memoized handle is forgotten and its teardown is
    started. When one of several registered tabs closes, the handle
    stays. A close reported for a tab that is not registered changes
    neither the registry, nor the current tab, nor the handle. *)
Theorem onPageClosed_last_tab_closes_handle (c : Context) (tab : Tab) :
  (tab ∈ _tabs c → length (_tabs c) = 1 →
   _tabs (_onPageClosed tab c).1 = [] ∧
   _browserContextPromise (_onPageClosed tab c).1 = None ∧
   (_onPageClosed tab c).2 = _browserContextPromise c) ∧
  (tab ∈ _tabs c → 1 < length (_tabs c) →
   length (_tabs (_onPageClosed tab c).1) = length (_tabs c) - 1 ∧
   _browserContextPromise (_onPageClosed tab c).1 = _browserContextPromise c ∧
   (_onPageClosed tab c).2 = None) ∧
  (tab ∉ _tabs c →
   _tabs (_onPageClosed tab c).1 = _tabs c ∧
   _currentTab (_onPageClosed tab c).1 = _currentTab c ∧
   _browserContextPromise (_onPageClosed tab c).1 = _browserContextPromise c ∧
   (_onPageClosed tab c).2 = None).
Proof.
  split_and!.
  - intros Hin Hone.
    destruct (indexOf_from_found tab (_tabs c) 0 Hin) as (i & Hidx & Hi).
    destruct (onPageClosed_found c tab i) as (Htabs & _ & _ & Hmemo & Hdown);
      [unfold indexOf; lia|].
    assert (delete i (_tabs c) = []) as Hdel.
    { apply length_zero_iff_nil. rewrite length_delete by eauto. lia. }
    rewrite Hdel in Htabs, Hmemo, Hdown. done.
  - intros Hin Hmany.
    destruct (indexOf_from_found tab (_tabs c) 0 Hin) as (i & Hidx & Hi).
    destruct (onPageClosed_found c tab i) as (Htabs & _ & _ & Hmemo & Hdown);
      [unfold indexOf; lia|].
    assert (length (delete i (_tabs c)) = length (_tabs c) - 1) as Hlen
      by (rewrite length_delete; eauto).
    destruct (delete i (_tabs c)) as [|t ts]; [simpl in Hlen; lia|].
    rewrite Htabs. done.
  - intros Hnot. by rewrite onPageClosed_absent.
Qed.

Lemma onPageClosed_last_tab_closes_handle_witness :
  let one := set_browserContextPromise (Some 0) (_onPageCreated 0 10 new_Context) in
  let two := _onPageCreated 1 11 one in
  (_tabs (_onPageClosed (mkTab 0 10) one).1 = [] ∧
   _browserContextPromise (_onPageClosed (mkTab 0 10) one).1 = None ∧
   (_onPageClosed (mkTab 0 10) one).2 = Some 0) ∧
  (_browserContextPromise (_onPageClosed (mkTab 0 10) two).1 = Some 0 ∧
   (_onPageClosed (mkTab 0 10) two).2 = None) ∧
  _tabs (_onPageClosed (mkTab 7 17) two).1 = _tabs two.
Proof.
  intros one two.
  destruct (onPageClosed_last_tab_closes_handle one (mkTab 0 10)) as (Hlast & _ & _).
  destruct (onPageClosed_last_tab_closes_handle two (mkTab 0 10)) as (_ & Hmany & _).
  destruct (onPageClosed_last_tab_closes_handle two (mkTab 7 17)) as (_ & _ & Hnone).
  assert (mkTab 0 10 ∈ _tabs one) as Hin1 by (apply elem_of_cons; by left).
  assert (mkTab 0 10 ∈ _tabs two) as Hin2 by (apply elem_of_cons; by left).
  assert (mkTab 7 17 ∉ _tabs two) as Hout.
  { intros Hin. repeat (apply elem_of_cons in Hin as [Hin|Hin]; [discriminate|]).
    by apply elem_of_nil in Hin. }
  destruct (Hlast Hin1 eq_refl) as (H1 & H2 & H3).
  destruct (Hmany Hin2) as (_ & H4 & H5); [simpl; lia|].
  destruct (Hnone Hout) as (H6 & _).
  split_and!; assumption.
Defined.

Lemma javaScriptBlocked_spec (c : Context) :
  _javaScriptBlocked c = true ↔
  ∃ state, state ∈ _modalStates c ∧ type (ms_body state) = dialog.
Proof.
  unfold _javaScriptBlocked. rewrite existsb_exists. split.
  - intros (state & Hin & Hd). exists state. split; [by apply list_elem_of_In|].
    by apply bool_decide_eq_true in Hd.
  - intros (state & Hin & Hd). exists state. split; [by apply list_elem_of_In|].
    by apply bool_decide_eq_true.
Qed.

(** X5. A reported dialog blocks page scripts. After the page of a tab
    has closed, scripts are blocked exactly when another tab holds a
    dialog; so closing the tab that raised a dialog, when that tab held
    no other modal state, brings back the blocking status from before
    the dialog. *)
Theorem javaScriptBlocked_dialog_and_close (c : Context) (tab : Tab) (d : Dialog) :
  _javaScriptBlocked (dialogShown tab d c) = true ∧
  (_javaScriptBlocked (_onPageClosed tab c).1 = true ↔
   ∃ state, state ∈ _modalStates c ∧ type (ms_body state) = dialog ∧ ms_tab state ≠ tab) ∧
  ((∀ state, state ∈ _modalStates c → ms_tab state ≠ tab) →
   _javaScriptBlocked (_onPageClosed tab (dialogShown tab d c)).1 = _javaScriptBlocked c).
Proof.
  split_and!.
  - apply javaScriptBlocked_spec. exists (mkModalState (dialog_state d) tab).
    rewrite dialogShown_modalStates. split; [|done].
    apply elem_of_app. right. by apply list_elem_of_singleton.
  - rewrite javaScriptBlocked_spec, onPageClosed_modalStates. split.
    + intros (state & [Hne Hin]%list_elem_of_filter & Hd). eauto.
    + intros (state & Hin & Hd & Hne). exists state. split; [|done].
      by apply list_elem_of_filter.
  - intros Hother. unfold _javaScriptBlocked.
    rewrite onPageClosed_modalStates, dialogShown_modalStates, filter_app.
    rewrite (filter_cons_False _ (mkModalState (dialog_state d) tab)) by (simpl; tauto).
    rewrite filter_nil, app_nil_r. f_equal.
    clear -Hother. induction (_modalStates c) as [|state states IH]; [done|].
    rewrite filter_cons_True by (apply Hother; by left).
    f_equal. apply IH. intros s Hs. apply Hother. by right.
Qed.

Lemma javaScriptBlocked_dialog_and_close_witness :
  let c := _onPageCreated 1 11 (_onPageCreated 0 10 new_Context) in
  let d := mkDialog "alert" "hello" in
  _javaScriptBlocked c = false ∧
  _javaScriptBlocked (dialogShown (mkTab 1 11) d c) = true ∧
  _javaScriptBlocked (_onPageClosed (mkTab 1 11) (dialogShown (mkTab 1 11) d c)).1 = false.
Proof.
  intros c d.
  destruct (javaScriptBlocked_dialog_and_close c (mkTab 1 11) d) as (Hblocked & _ & Hback).
  assert (∀ state, state ∈ _modalStates c → ms_tab state ≠ mkTab 1 11) as Hnone.
  { intros state Hin. by apply elem_of_nil in Hin. }
  split_and!; [reflexivity|exact Hblocked|exact (Hback Hnone)].
Defined.

(** ** More on the quiescence waiter *)

Section WaiterMore.
Context {R : Type}.
Implicit Types (s : Waiter R) (ev : WaitEvent R) (evs : list (WaitEvent R)).

Lemma waitForCompletion_app evs evs' :
  waitForCompletion (evs ++ evs')
  = fold_left (fun s ev => wait_step ev s) evs' (waitForCompletion evs).
Proof. unfold waitForCompletion. by rewrite fold_left_app. Qed.

(** X6. Once a top-level navigation has been observed, the waiter has
    dropped its listeners and its timer: no request event, no timeout
    and no completion of the callback resolves the barrier any more,
    and the load event does. *)
Theorem waitForCompletion_navigation_waits_for_load evs :
  let s := waitForCompletion evs in
  frameNavigated s = true →
  (on_request s = false ∧ on_requestfinished s = false ∧
   on_framenavigated s = false ∧ timeout s ≠ Armed) ∧
  (∀ ev, ev ≠ load_reached → waitBarrier (wait_step ev s) = waitBarrier s) ∧
  waitBarrier (wait_step load_reached s) = Resolved.
Proof.
  intros s Hnav. destruct (waitForCompletion_navigated evs Hnav) as [Hdisposed Hload].
  fold s in Hdisposed, Hload. split; [exact Hdisposed|].
  unfold disposed in Hdisposed. revert Hnav Hdisposed Hload.
  destruct s as [rs nav barrier l1 l2 l3 timer load ph]. simpl.
  intros -> (-> & -> & -> & Htimer) Hload. split.
  - intros ev Hev. destruct ev; simpl; try done.
    + by destruct timer.
    + destruct ph; simpl; try done; unfold resume; simpl;
        repeat case_match; simpl; done.
    + by destruct ph.
    + by destruct ph.
    + by destruct ph.
  - simpl. destruct load; simpl; [by rewrite resume_waitBarrier|].
    by destruct Hload.
Qed.

End WaiterMore.

Lemma waitForCompletion_navigation_waits_for_load_witness :
  let evs := [request 1; framenavigated false; callback_resolved 7] in
  let s := @waitForCompletion nat evs in
  frameNavigated s = true ∧
  phase s = AtBarrier 7 ∧
  phase (wait_step timeout_elapsed s) = AtBarrier 7 ∧
  phase (wait_step (requestfinished 1) s) = AtBarrier 7 ∧
  waitBarrier (wait_step (requestfinished 1) s) = waitBarrier s ∧
  waitBarrier (wait_step load_reached s) = Resolved.
Proof.
  intros evs s.
  destruct (waitForCompletion_navigation_waits_for_load evs eq_refl) as (_ & Hquiet & Hload).
  assert (requestfinished 1 ≠ @load_reached nat) as Hne by discriminate.
  split_and!; [reflexivity|reflexivity|reflexivity|reflexivity|exact (Hquiet _ Hne)|
               exact Hload].
Defined.

Section WaiterDrain.
Context {R : Type}.
Implicit Types (s : Waiter R) (ev : WaitEvent R) (evs : list (WaitEvent R)).

(** Requests that start while the callback runs and the listeners are
    registered only add to the set. *)
Lemma wait_requests_started (rs : list Request) s :
  on_request s = true →
  fold_left (fun s ev => wait_step ev s) (map request rs) s
  = set_requests (list_to_set rs ∪ requests s) s.
Proof.
  revert s. induction rs as [|r rs IH]; intros s Hon; simpl.
  - destruct s. unfold set_requests. simpl. f_equal.
    apply set_eq. intros x. rewrite elem_of_union, elem_of_empty. tauto.
  - rewrite Hon. rewrite IH by done. destruct s. unfold requestListener, set_requests.
    simpl. f_equal. apply set_eq. intros x.
    rewrite !elem_of_union, elem_of_singleton. tauto.
Qed.

Lemma drain_step (result : R) (r : Request) s :
  draining result s →
  draining result (wait_step (requestfinished r) s) ∧
  requests (wait_step (requestfinished r) s) = requests s ∖ {[r]}.
Proof.
  intros [Hon Hs]. destruct s as [rs nav barrier l1 l2 l3 timer load ph].
  simpl in *. subst l2. unfold draining, requestFinishedListener, resume. simpl.
  destruct Hs as [(-> & -> & ->)|(-> & -> & Hne)].
  - rewrite decide_True by (apply set_eq; intros x; rewrite elem_of_difference;
                            split; [intros [Hx _]|intros Hx]; by apply not_elem_of_empty in Hx).
    simpl. split; [|done]. split; [done|]. left. split_and!; [done|done|].
    apply set_eq. intros x. rewrite elem_of_difference.
    split; [intros [Hx _]|intros Hx]; by apply not_elem_of_empty in Hx.
  - case_decide as Hempty; simpl; (split; [|done]); (split; [done|]); [left|right]; done.
Qed.

Lemma wait_requests_finished (result : R) (fin : list Request) s :
  draining result s →
  draining result (fold_left (fun s ev => wait_step ev s) (map requestfinished fin) s) ∧
  requests (fold_left (fun s ev => wait_step ev s) (map requestfinished fin) s)
  = requests s ∖ list_to_set fin.
Proof.
  revert s. induction fin as [|r fin IH]; intros s Hs.
  - simpl. split; [done|]. apply set_eq. intros x.
    rewrite elem_of_difference, elem_of_empty. tauto.
  - destruct (drain_step result r s Hs) as [Hs1 Hreq1].
    destruct (IH _ Hs1) as [Hs' Hreq].
    cbn [map fold_left]. split; [done|]. rewrite Hreq, Hreq1.
    apply set_eq. intros x.
    rewrite !elem_of_difference, list_to_set_cons, elem_of_union, elem_of_singleton.
    tauto.
Qed.

(** X7. When the requests [rs] start while the callback runs and are
    all in flight at its completion, the waiter stays at its barrier
    while one of them is unfinished, in whatever order the others
    finish, and passes the barrier as soon as all have finished. *)
Theorem waitForCompletion_waits_for_all (rs fin : list Request) (result : R) :
  let s := waitForCompletion
             (map request rs ++ callback_resolved result :: map requestfinished fin) in
  (phase s = InDelay result ∨ phase s = AtBarrier result) ∧
  (phase s = InDelay result ↔ ∀ r, r ∈ rs → r ∈ fin) ∧
  (phase s = AtBarrier result ↔ ∃ r, r ∈ rs ∧ r ∉ fin).
Proof.
  intros s.
  assert (waitForCompletion (map request rs)
          = set_requests (list_to_set rs ∪ ∅) (@waiter_start R)) as Hstarted.
  { unfold waitForCompletion. by rewrite wait_requests_started. }
  set (s1 := wait_step (callback_resolved result) (waitForCompletion (map request rs))).
  assert (draining result s1 ∧ requests s1 = list_to_set rs) as [Hdrain Hreq1].
  { unfold s1. rewrite Hstarted. unfold draining. simpl.
    assert (list_to_set rs ∪ ∅ = (list_to_set rs : gset Request)) as Hunit
      by apply (right_id_L ∅ (∪)).
    case_decide as Hempty; simpl.
    - split; [|exact Hunit]. split; [done|]. left. done.
    - split; [|exact Hunit]. split; [done|]. right. done. }
  destruct (wait_requests_finished result fin s1 Hdrain) as [[_ Hs] Hreq].
  assert (s = fold_left (fun s ev => wait_step ev s) (map requestfinished fin) s1) as Hrun.
  { unfold s. rewrite waitForCompletion_app. done. }
  rewrite <- Hrun in Hs, Hreq. rewrite Hreq1 in Hreq.
  assert (requests s = ∅ ↔ ∀ r, r ∈ rs → r ∈ fin) as Hall.
  { rewrite Hreq. split.
    - intros Hempty r Hr. destruct (decide (r ∈ fin)) as [|Hnot]; [done|].
      assert (r ∈ (list_to_set rs ∖ list_to_set fin : gset Request)) as Hin.
      { apply elem_of_difference. by rewrite !elem_of_list_to_set. }
      rewrite Hempty in Hin. by apply not_elem_of_empty in Hin.
    - intros Hsub. apply set_eq. intros r. rewrite elem_of_difference, elem_of_empty.
      rewrite !elem_of_list_to_set. split; [|done]. intros [Hr Hnot]. auto. }
  split_and!.
  - destruct Hs as [(-> & _)|(-> & _)]; [by left|by right].
  - rewrite <- Hall. destruct Hs as [(-> & _ & ->)|(-> & _ & Hne)]; [done|].
    split; [done|]. intros Hempty. done.
  - destruct Hs as [(Hphase & _ & Hempty)|(Hphase & _ & Hne)]; rewrite Hphase.
    + split; [done|]. intros (r & Hr & Hnot). exfalso. apply Hnot.
      by apply Hall.
    + split; [|done]. intros _.
      destruct (decide (Forall (fun r => r ∈ fin) rs)) as [Hforall|Hexists].
      * exfalso. apply Hne, Hall. by apply Forall_forall.
      * apply not_Forall_Exists in Hexists; [|apply _].
        apply Exists_exists in Hexists as (r & Hr & Hnot). eauto.
Qed.
End WaiterDrain.

Lemma waitForCompletion_waits_for_all_witness :
  phase (@waitForCompletion nat
           ([request 1; request 2; request 3]
            ++ callback_resolved 7 :: [requestfinished 2; requestfinished 3]))
  = AtBarrier 7 ∧
  phase (@waitForCompletion nat
           ([request 1; request 2; request 3]
            ++ callback_resolved 7 :: [requestfinished 2; requestfinished 3; requestfinished 1]))
  = InDelay 7.
Proof.
  destruct (waitForCompletion_waits_for_all (R := nat) [1; 2; 3] [2; 3] 7)
    as (_ & _ & Hwait).
  destruct (waitForCompletion_waits_for_all (R := nat) [1; 2; 3] [2; 3; 1] 7)
    as (_ & Hpass & _).
  split.
  - apply Hwait. exists 1. split; [by left|].
    intros Hin. repeat (apply elem_of_cons in Hin as [Hin|Hin]; [discriminate|]).
    by apply elem_of_nil in Hin.
  - apply Hpass. intros r Hr.
    repeat (apply elem_of_cons in Hr as [->|Hr];
            [repeat first [by left|right]|]).
    by apply elem_of_nil in Hr.
Defined.

(** ** Merging configurations *)

Lemma pickDefined_lookup (obj : option (gmap string JsValue)) (k : string) :
  pickDefined obj !! k = defined_at obj k.
Proof.
  unfold pickDefined, defined_at. destruct obj as [m|]; simpl.
  - destruct (m !! k) as [v|] eqn:Hk.
    + destruct (decide (v = JUndefined)) as [->|Hv].
      * apply map_lookup_filter_None. right. intros v Hv. simpl.
        rewrite Hk in Hv. injection Hv as <-. auto.
      * transitivity (Some v); [|by destruct v].
        apply map_lookup_filter_Some. done.
    + apply map_lookup_filter_None. by left.
  - apply map_lookup_filter_None. left. apply lookup_empty.
Qed.

Lemma merged_lookup (overrides base : option (gmap string JsValue)) (k : string) :
  (pickDefined overrides ∪ pickDefined base) !! k = first_defined overrides base k.
Proof.
  rewrite lookup_union, !pickDefined_lookup. unfold first_defined.
  destruct (defined_at overrides k), (defined_at base k); done.
Qed.

Lemma defined_at_defined (obj : option (gmap string JsValue)) (k : string) :
  defined_at obj k ≠ Some JUndefined.
Proof.
  unfold defined_at. destruct (obj ≫= _) as [[]|]; done.
Qed.

(** X8. In the merged configuration every key of the context options,
    of the network options and of the other top-level options holds
    the value that the overrides define for it, else the one that the
    base defines, and a key that is [undefined] in the overrides does
    not erase the base's value. The same holds for the launch options,
    except for the key [assistantMode] and, when the browser is not
    chromium, the key [channel]. *)
Theorem mergeConfig_precedence (base overrides : RawConfig) (k : string) :
  let merged := mergeConfig base overrides in
  (browser_options bo_contextOptions merged ≫= (fun m => m !! k))
  = first_defined (browser_options bo_contextOptions overrides)
                  (browser_options bo_contextOptions base) k ∧
  (raw_network merged ≫= (fun m => m !! k))
  = first_defined (raw_network overrides) (raw_network base) k ∧
  raw_rest merged !! k
  = first_defined (Some (raw_rest overrides)) (Some (raw_rest base)) k ∧
  (k ≠ "assistantMode" →
   k ≠ "channel" ∨ browser_field bo_browserName merged = JString "chromium" →
   (browser_options bo_launchOptions merged ≫= (fun m => m !! k))
   = first_defined (browser_options bo_launchOptions overrides)
                   (browser_options bo_launchOptions base) k).
Proof.
  intros merged. split_and!.
  - simpl. apply merged_lookup.
  - simpl. apply merged_lookup.
  - simpl. apply merged_lookup.
  - intros Hassist Hchannel. simpl.
    assert (({["assistantMode" := JBool true]}
             ∪ (pickDefined (browser_options bo_launchOptions overrides)
                ∪ pickDefined (browser_options bo_launchOptions base))) !! k
            = first_defined (browser_options bo_launchOptions overrides)
                            (browser_options bo_launchOptions base) k) as Hplain.
    { rewrite lookup_union, lookup_singleton_ne by done.
      rewrite merged_lookup. by destruct (first_defined _ _ k). }
    case_decide as Hname; [|done].
    destruct Hchannel as [Hk|Hchromium]; [|done].
    by rewrite lookup_delete_ne.
Qed.

(** X9. The merged launch options always set [assistantMode] to
    [true], whatever the base and the overrides say, and hold no
    [channel] when the merged browser is not chromium; the merged
    browser name and isolation flag are never missing. *)
Theorem mergeConfig_forced_options (base overrides : RawConfig) :
  let merged := mergeConfig base overrides in
  (browser_options bo_launchOptions merged ≫= (fun m => m !! "assistantMode"))
  = Some (JBool true) ∧
  (browser_field bo_browserName merged ≠ JString "chromium" →
   (browser_options bo_launchOptions merged ≫= (fun m => m !! "channel")) = None) ∧
  coalesce (browser_field bo_browserName merged) JNull ≠ JNull ∧
  coalesce (browser_field bo_isolated merged) JNull ≠ JNull.
Proof.
  intros merged. split_and!.
  - simpl. case_decide.
    + rewrite lookup_delete_ne by done.
      apply lookup_union_Some_l, lookup_singleton_eq.
    + apply lookup_union_Some_l, lookup_singleton_eq.
  - intros Hname. simpl. simpl in Hname. rewrite decide_True by done.
    apply lookup_delete_eq.
  - unfold merged, mergeConfig, browser_field at 1. simpl.
    generalize (browser_field bo_browserName overrides)
               (browser_field bo_browserName base).
    by intros [] [].
  - unfold merged, mergeConfig, browser_field at 1. simpl.
    generalize (browser_field bo_isolated overrides) (browser_field bo_isolated base).
    by intros [] [].
Qed.


Lemma mergeConfig_precedence_witness :
  let base := mkRawConfig
                (Some (mkBrowserOptions (JString "chromium") JUndefined
                         (Some {["channel" := JString "chrome"; "headless" := JBool true]})
                         (Some {["viewport" := JNull]})
                         JUndefined JUndefined JUndefined))
                None ∅ in
  let overrides := mkRawConfig
                     (Some (mkBrowserOptions JUndefined JUndefined
                              (Some {["headless" := JBool false; "channel" := JUndefined]})
                              None JUndefined JUndefined JUndefined))
                     None ∅ in
  let merged := mergeConfig base overrides in
  (browser_options bo_launchOptions merged ≫= (fun m => m !! "headless"))
  = Some (JBool false) ∧
  (browser_options bo_launchOptions merged ≫= (fun m => m !! "channel"))
  = Some (JString "chrome").
Proof.
  intros base overrides merged.
  destruct (mergeConfig_precedence base overrides "headless") as (_ & _ & _ & Hheadless).
  destruct (mergeConfig_precedence base overrides "channel") as (_ & _ & _ & Hchannel).
  assert (browser_field bo_browserName merged = JString "chromium") as Hname
    by (vm_compute; reflexivity).
  split.
  - etransitivity; [apply Hheadless; [discriminate|left; discriminate]|].
    vm_compute. reflexivity.
  - etransitivity; [apply Hchannel; [discriminate|right; exact Hname]|].
    vm_compute. reflexivity.
Defined.

Lemma mergeConfig_forced_options_witness :
  let base := mkRawConfig
                (Some (mkBrowserOptions (JString "chromium") JUndefined
                         (Some {["channel" := JString "chrome"]}) None
                         JUndefined JUndefined JUndefined))
                None ∅ in
  let overrides := mkRawConfig
                     (Some (mkBrowserOptions (JString "firefox") JUndefined
                              (Some {["assistantMode" := JBool false]}) None
                              JUndefined JUndefined JUndefined))
                     None ∅ in
  let merged := mergeConfig base overrides in
  browser_field bo_browserName merged = JString "firefox" ∧
  (browser_options bo_launchOptions merged ≫= (fun m => m !! "channel")) = None ∧
  (browser_options bo_launchOptions merged ≫= (fun m => m !! "assistantMode"))
  = Some (JBool true).
Proof.
  intros base overrides merged.
  destruct (mergeConfig_forced_options base overrides) as (Hassist & Hchannel & _).
  assert (browser_field bo_browserName merged = JString "firefox") as Hname
    by (vm_compute; reflexivity).
  split_and!; [exact Hname| |exact Hassist].
  apply Hchannel. vm_compute. discriminate.
Defined.

Lemma pickDefined_all_defined (m : gmap string JsValue) :
  all_defined m → pickDefined (Some m) = m.
Proof.
  intros Hm. apply map_eq. intros k. rewrite pickDefined_lookup. unfold defined_at.
  simpl. destruct (m !! k) as [v|] eqn:Hv; [|done].
  pose proof (Hm k v Hv). by destruct v.
Qed.

Lemma pickDefined_None : pickDefined None = ∅.
Proof. apply map_eq. intros k. by rewrite pickDefined_lookup. Qed.

Lemma merged_all_defined (o b : option (gmap string JsValue)) :
  all_defined (pickDefined o ∪ pickDefined b).
Proof.
  intros k v. rewrite merged_lookup. unfold first_defined.
  destruct (defined_at o k) eqn:Ho.
  - intros [= <-] ->. by apply defined_at_defined in Ho.
  - intros Hb ->. by apply defined_at_defined in Hb.
Qed.

Lemma mergeConfig_merged_form (base overrides : RawConfig) :
  merged_form (mergeConfig base overrides).
Proof.
  unfold merged_form, mergeConfig. simpl. eexists _, _, _, _, _, _, _, _, _.
  split; [reflexivity|].
  assert (all_defined ({["assistantMode" := JBool true]}
                       ∪ (pickDefined (browser_options bo_launchOptions overrides)
                          ∪ pickDefined (browser_options bo_launchOptions base)))) as Hlaunch.
  { intros k v. rewrite lookup_union.
    destruct (decide (k = "assistantMode")) as [->|Hk].
    - rewrite lookup_singleton_eq.
      destruct ((pickDefined _ ∪ pickDefined _) !! "assistantMode"); by intros [= <-].
    - rewrite lookup_singleton_ne by done.
      destruct ((pickDefined _ ∪ pickDefined _) !! k) as [w|] eqn:Hw; [|done].
      intros [= <-]. by eapply merged_all_defined. }
  split_and!.
  - generalize (browser_field bo_browserName overrides)
               (browser_field bo_browserName base). by intros [] [].
  - generalize (browser_field bo_isolated overrides) (browser_field bo_isolated base).
    by intros [] [].
  - case_decide; [|done]. intros k v [_ Hk]%lookup_delete_Some. by eapply Hlaunch.
  - apply merged_all_defined.
  - apply merged_all_defined.
  - apply merged_all_defined.
  - case_decide.
    + rewrite lookup_delete_ne by done. apply lookup_union_Some_l, lookup_singleton_eq.
    + apply lookup_union_Some_l, lookup_singleton_eq.
  - intros Hname. rewrite decide_True by done. apply lookup_delete_eq.
Qed.

(** X10. A configuration in the form that [mergeConfig] returns is
    left unchanged by a merge with the empty configuration; so merging
    a merge result with [{}] gives it back. *)
Theorem mergeConfig_empty_overrides (base overrides : RawConfig) :
  (∀ config, merged_form config → mergeConfig config empty_config = config) ∧
  mergeConfig (mergeConfig base overrides) empty_config = mergeConfig base overrides.
Proof.
  assert (∀ config, merged_form config → mergeConfig config empty_config = config) as Hfixed.
  { intros config (name & isolated & launch & context & dir & cdp & remote & network
                   & rest & -> & Hname & Hisolated & Hlaunch & Hcontext & Hnetwork & Hrest
                   & Hassist & Hchannel).
    unfold mergeConfig, empty_config, browser_field, browser_options. simpl.
    assert (pickDefined (Some ∅) = ∅) as -> by (by apply pickDefined_all_defined).
    rewrite !pickDefined_None, !(left_id_L ∅ (∪)).
    rewrite !pickDefined_all_defined by done.
    assert (coalesce name (JString "chromium") = name) as -> by (by destruct name).
    assert (coalesce isolated (JBool false) = isolated) as -> by (by destruct isolated).
    assert ({["assistantMode" := JBool true]} ∪ launch = launch) as ->.
    { apply map_eq. intros k. rewrite lookup_union.
      destruct (decide (k = "assistantMode")) as [->|Hk].
      - by rewrite lookup_singleton_eq, Hassist.
      - rewrite lookup_singleton_ne by done. by destruct (launch !! k). }
    case_decide as Hne; [|done].
    by rewrite delete_id by auto. }
  split; [exact Hfixed|]. apply Hfixed, mergeConfig_merged_form.
Qed.

Lemma mergeConfig_empty_overrides_witness :
  let config := mergeConfig empty_config empty_config in
  merged_form config ∧ mergeConfig config empty_config = config.
Proof.
  intros config.
  destruct (mergeConfig_empty_overrides empty_config empty_config) as [Hfixed _].
  pose proof (mergeConfig_merged_form empty_config empty_config) as Hform.
  split; [exact Hform|exact (Hfixed config Hform)].
Defined.

(** ** Launching a browser on this machine *)


(** ** Operations asked of the engine *)

Section AsksOnly.
Context {A B : Type}.
Implicit Types test : EngineCall → bool.

Lemma asks_only_ret test (a : A) : asks_only test (mret a : M A).
Proof. intros w. exists []. by rewrite app_nil_r. Qed.

Lemma asks_only_throw test (e : JsError) : asks_only test (throw e : M A).
Proof. intros w. exists []. by rewrite app_nil_r. Qed.

Lemma asks_only_bind test (m : M A) (k : A → M B) :
  asks_only test m → (∀ a, asks_only test (k a)) → asks_only test (m ≫= k).
Proof.
  intros Hm Hk w. unfold mbind, M_bind, bind.
  destruct (Hm w) as (l1 & H1 & Ht1). destruct (m w) as [[a|e] w1]; simpl in *.
  - destruct (Hk a w1) as (l2 & H2 & Ht2). exists (l1 ++ l2).
    rewrite H2, H1, app_assoc, forallb_app, Ht1, Ht2. done.
  - by exists l1.
Qed.

Lemma asks_only_try_catch test (body : M A) (handler : JsError → M A) :
  asks_only test body → (∀ e, asks_only test (handler e)) →
  asks_only test (try_catch body handler).
Proof.
  intros Hm Hk w. unfold try_catch.
  destruct (Hm w) as (l1 & H1 & Ht1). destruct (body w) as [[a|e] w1]; simpl in *.
  - by exists l1.
  - destruct (Hk e w1) as (l2 & H2 & Ht2). exists (l1 ++ l2).
    rewrite H2, H1, app_assoc, forallb_app, Ht1, Ht2. done.
Qed.

Lemma asks_only_try_finally test (body : M A) (cleanup : M unit) :
  asks_only test body → asks_only test cleanup →
  asks_only test (try_finally body cleanup).
Proof.
  intros Hm Hk w. unfold try_finally.
  destruct (Hm w) as (l1 & H1 & Ht1). destruct (body w) as [r w1]; simpl in *.
  destruct (Hk w1) as (l2 & H2 & Ht2). exists (l1 ++ l2).
  destruct (cleanup w1) as [[[]|e] w2]; simpl in *;
    rewrite H2, H1, app_assoc, forallb_app, Ht1, Ht2; done.
Qed.
End AsksOnly.

Lemma asks_only_engine test (call : EngineCall) :
  test call = true → asks_only test (engine call).
Proof.
  intros Hcall w. exists [call]. rewrite engine_asked. simpl. by rewrite Hcall.
Qed.

Lemma asks_only_host test (call : EngineCall) :
  test call = true → asks_only test (host call).
Proof. intros Hcall w. exists [call]. simpl. by rewrite Hcall. Qed.

Lemma asks_only_get_ctx test : asks_only test get_ctx.
Proof. intros w. exists []. by rewrite app_nil_r. Qed.

Lemma asks_only_get_eng test : asks_only test get_eng.
Proof. intros w. exists []. by rewrite app_nil_r. Qed.

Lemma asks_only_modify_ctx test (f : Context → Context) : asks_only test (modify_ctx f).
Proof. intros w. exists []. by rewrite app_nil_r. Qed.

Ltac asks_step :=
  first
    [ apply asks_only_bind; [|intros ?]
    | apply asks_only_try_catch; [|intros ?]
    | apply asks_only_try_finally
    | apply asks_only_ret | apply asks_only_throw
    | apply asks_only_get_ctx | apply asks_only_get_eng | apply asks_only_modify_ctx
    | apply asks_only_engine; reflexivity
    | apply asks_only_host; reflexivity ].

Lemma createIsolatedContext_asks (storage : option StorageState) :
  asks_only (fun call => negb (is_connect call)) (createIsolatedContext storage).
Proof. unfold createIsolatedContext. repeat asks_step; case_match; asks_step. Qed.

Lemma launchPersistentContext_asks (b : option BrowserConfig) :
  asks_only (fun call => negb (is_connect call)) (launchPersistentContext b).
Proof.
  unfold launchPersistentContext. asks_step.
  - destruct b as [b|]; [|asks_step]. destruct (userDataDir b); repeat asks_step.
  - repeat case_match; asks_step.
Qed.

(** X12. [_createBrowserContext] never mixes the two ways of getting a
    browser. With a remote or CDP endpoint configured it asks the
    engine for no local launch (no launch, no profile directory, no
    persistent launch), whatever the engine answers; with no endpoint
    configured it never asks for a connection. *)
Theorem createBrowserContext_endpoint_or_launch
    (URL_parses : string → bool) (config : Config) :
  ((∃ b, browser config = Some b ∧
         (truthy (remoteEndpoint b) = true ∨ truthy (cdpEndpoint b) = true)) →
   asks_only (fun call => negb (is_local_launch call))
             (_createBrowserContext URL_parses config)) ∧
  ((∀ b, browser config = Some b →
         truthy (remoteEndpoint b) = false ∧ truthy (cdpEndpoint b) = false) →
   asks_only (fun call => negb (is_connect call))
             (_createBrowserContext URL_parses config)).
Proof.
  split.
  - intros (b & Hb & Hendpoint). unfold _createBrowserContext. rewrite Hb.
    assert (asks_only (fun call => negb (is_local_launch call))
                      (connect_remote URL_parses config b)) as Hremote.
    { unfold connect_remote. repeat case_match; repeat asks_step. }
    assert (asks_only (fun call => negb (is_local_launch call))
                      (connect_cdp config b)) as Hcdp.
    { unfold connect_cdp. repeat case_match; repeat asks_step. }
    destruct (truthy (remoteEndpoint b)); [done|].
    destruct (truthy (cdpEndpoint b)); [done|]. by destruct Hendpoint.
  - intros Hnone. unfold _createBrowserContext.
    destruct (browser config) as [b|]; [|apply launchPersistentContext_asks].
    destruct (Hnone b eq_refl) as [-> ->].
    destruct (isolated b); [|apply launchPersistentContext_asks].
    asks_step; [asks_step|]. apply createIsolatedContext_asks.
Qed.

Lemma createBrowserContext_endpoint_or_launch_witness :
  let remote := mkBrowserConfig (Some chromium) false None (JString "ws://host:3000/")
                                JUndefined None None in
  let local := mkBrowserConfig (Some firefox) true None JUndefined JUndefined None None in
  asks_only (fun call => negb (is_local_launch call))
            (_createBrowserContext has_url_scheme (mkConfig (Some remote) false)) ∧
  asks_only (fun call => negb (is_connect call))
            (_createBrowserContext has_url_scheme (mkConfig (Some local) false)).
Proof.
  intros remote local. split.
  - apply (createBrowserContext_endpoint_or_launch has_url_scheme
             (mkConfig (Some remote) false)).
    exists remote. split; [reflexivity|left; reflexivity].
  - apply (createBrowserContext_endpoint_or_launch has_url_scheme
             (mkConfig (Some local) false)).
    intros b [= <-]. split; reflexivity.
Defined.

(** ** Life cycle of the memoized handle *)

Lemma close_idempotent (c : Context) : close (close c).1 = ((close c).1, None).
Proof. unfold close. by destruct c as [[p|] ? ? ? ? ? ?]. Qed.

Lemma handle_step_live (ev : HandleEvent) (h : Handles) :
  memo_live h → memo_live (handle_step ev h).1.
Proof.
  intros Hlive. destruct h as [c setups]. destruct ev as [| |q|q]; simpl.
  - unfold _ensureBrowserContext. simpl.
    destruct (_browserContextPromise c) as [p|] eqn:Hmemo; [done|].
    intros p. simpl. intros [= <-]. left. by rewrite lookup_app_r, Nat.sub_diag.
  - unfold close. destruct (_browserContextPromise c) eqn:Hmemo; [|done]. by intros q.
  - destruct (setups !! q) as [[| |]|] eqn:Hq; try done.
    intros p Hp. simpl in *. destruct (decide (p = q)) as [->|Hne].
    + right. apply list_lookup_insert_eq. by eapply lookup_lt_Some.
    + rewrite list_lookup_insert_ne by done. by apply Hlive.
  - destruct (setups !! q) as [[| |]|] eqn:Hq; try done.
    intros p. unfold on_rejected. simpl. case_decide as Hmemo; [done|].
    intros Hp. simpl in *. rewrite list_lookup_insert_ne by congruence. by apply Hlive.
Qed.

Lemma handle_run_snoc (evs : list HandleEvent) (ev : HandleEvent) (h : Handles) :
  (handle_run (evs ++ [ev]) h).1 = (handle_step ev (handle_run evs h).1).1.
Proof.
  revert h. induction evs as [|ev' evs IH]; intros h; simpl.
  - by destruct (handle_step ev h).
  - destruct (handle_step ev' h) as [h1 r]. specialize (IH h1).
    destruct (handle_run (evs ++ [ev]) h1), (handle_run evs h1). done.
Qed.

(** X13. From a state whose memoized promise, if any, has not
    rejected (the new coordinator is one), under every sequence of
    callers, closes and settled creations the memoized promise is never
    a rejected one: a caller of [_ensureBrowserContext] is handed a
    promise that is pending or fulfilled. After [close()] the slot is
    empty, and a second [close()] in a row changes nothing. *)
Theorem handle_memo_never_rejected (evs : list HandleEvent) (h : Handles) :
  memo_live h →
  memo_live (handle_run evs h).1 ∧
  (∀ p h', handle_step call_ensure (handle_run evs h).1 = (h', Some p) →
           setups h' !! p = Some Pending ∨ setups h' !! p = Some Fulfilled) ∧
  _browserContextPromise (hctx (handle_run (evs ++ [call_close]) h).1) = None ∧
  (handle_run (evs ++ [call_close; call_close]) h).1
  = (handle_run (evs ++ [call_close]) h).1.
Proof.
  intros Hlive.
  assert (memo_live (handle_run evs h).1) as Hrun.
  { induction evs as [|ev evs IH] using rev_ind; [done|].
    rewrite handle_run_snoc. by apply handle_step_live. }
  split_and!.
  - done.
  - intros p h' Hstep. pose proof (handle_step_live call_ensure _ Hrun) as Hlive'.
    rewrite Hstep in Hlive'. apply Hlive'. simpl in Hstep.
    unfold _ensureBrowserContext in Hstep.
    destruct (_browserContextPromise (hctx (handle_run evs h).1)) eqn:Hmemo.
    + by injection Hstep as <- <-.
    + by injection Hstep as <- <-.
  - rewrite handle_run_snoc. simpl. unfold close. by case_match.
  - change [call_close; call_close] with ([call_close] ++ [call_close]).
    rewrite app_assoc, (handle_run_snoc (evs ++ [call_close])).
    destruct (handle_run (evs ++ [call_close]) h).1 as [c setups] eqn:Hrun1.
    pose proof (handle_run_snoc evs call_close h) as Hclosed. rewrite Hrun1 in Hclosed.
    simpl in *. injection Hclosed as -> ->. by rewrite close_idempotent.
Qed.

Lemma handle_memo_never_rejected_witness :
  let h := mkHandles new_Context [] in
  let evs := [call_ensure; setup_rejected 0; call_ensure; call_close; call_ensure;
              setup_fulfilled 2] in
  memo_live (handle_run evs h).1 ∧
  _browserContextPromise (hctx (handle_run (evs ++ [call_close]) h).1) = None.
Proof.
  intros h evs.
  assert (memo_live h) as Hlive by (intros p; discriminate).
  destruct (handle_memo_never_rejected evs h Hlive) as (Hrun & _ & Hclosed & _).
  split; [exact Hrun|exact Hclosed].
Defined.

(** ** Restoring the tabs of a snapshot *)

Lemma asked_since_app (w w' : World) (added : list EngineCall) :
  calls (eng w') = calls (eng w) ++ added → asked_since w w' = added.
Proof. intros Hcalls. unfold asked_since. by rewrite Hcalls, drop_app_length. Qed.

Lemma filter_forallb_negb (test : EngineCall → bool) (l : list EngineCall) :
  forallb (fun call => negb (test call)) l = true → filter test l = [].
Proof.
  induction l as [|call l IH]; simpl; [done|]. intros [Hcall Hl]%andb_prop.
  rewrite filter_cons_False; [by apply IH|]. destruct (test call); simpl in *; [done|tauto].
Qed.

(** A block whose handler is empty completes normally, and asks what
    its body asks. *)
Lemma swallow_asks (test : EngineCall → bool) (body : M unit) (w : World) :
  asks_only test body →
  ∃ w' added,
    try_catch body (fun _ => mret tt) w = (Normal tt, w') ∧
    calls (eng w') = calls (eng w) ++ added ∧ forallb test added = true.
Proof.
  intros Hbody. destruct (Hbody w) as (added & Hcalls & Htest). unfold try_catch.
  destruct (body w) as [[[]|e] w']; simpl in *; by exists w', added.
Qed.

Lemma restoreSessionStorageForPage_asks (page : Page) (storage : Storage) :
  asks_only (fun call => negb (is_newPage call)) (_restoreSessionStorageForPage page storage).
Proof. unfold _restoreSessionStorageForPage. destruct storage; repeat asks_step. Qed.

Lemma selectTab_asks (index : Z) :
  asks_only (fun call => negb (is_newPage call)) (selectTab index).
Proof. unfold selectTab. repeat asks_step. case_match; asks_step. Qed.

Lemma newPage_asked (w : World) :
  calls (eng (browserContext_newPage w).2) = calls (eng w) ++ [newPage].
Proof.
  unfold browserContext_newPage, mbind, M_bind, bind. rewrite engine_run.
  by destruct (reply_at 0 (eng w)).
Qed.

(** One round of the loop over the additional tabs: it completes
    normally and asks for one new page. *)
Lemma restore_tab_asks (tabData : SavedTab) (w : World) :
  ∃ w' added,
    try_catch
      (page ← browserContext_newPage;
       if decide (url tabData ≠ "about:blank")
       then engine (goto page (url tabData));;
            _restoreSessionStorageForPage page (sessionStorage tabData)
       else mret tt)
      (fun _ => mret tt) w = (Normal tt, w') ∧
    calls (eng w') = calls (eng w) ++ newPage :: added ∧
    forallb (fun call => negb (is_newPage call)) added = true.
Proof.
  pose proof (newPage_asked w) as Hnew.
  unfold try_catch. unfold mbind at 1. unfold M_bind at 1. unfold bind at 1.
  destruct (browserContext_newPage w) as [[page|e] w1]; simpl in Hnew.
  - assert (asks_only (fun call => negb (is_newPage call))
              (if decide (url tabData ≠ "about:blank")
               then engine (goto page (url tabData));;
                    _restoreSessionStorageForPage page (sessionStorage tabData)
               else mret tt)) as Hrest.
    { case_decide; [|asks_step]. asks_step; [asks_step|].
      apply restoreSessionStorageForPage_asks. }
    set (rest := if decide (url tabData ≠ "about:blank") then _ else _) in *.
    destruct (Hrest w1) as (added & Hcalls & Htest).
    destruct (rest w1) as [[[]|e] w2]; simpl in *;
      exists w2, added; by rewrite Hcalls, Hnew, <- app_assoc.
  - exists w1, []. by rewrite Hnew.
Qed.

Lemma restore_more_tabs_asks (more : list SavedTab) (w : World) :
  ∃ w' added,
    restore_more_tabs more w = (Normal tt, w') ∧
    calls (eng w') = calls (eng w) ++ added ∧
    length (filter is_newPage added) = length more.
Proof.
  revert w. induction more as [|tabData more IH]; intros w.
  - exists w, []. by rewrite app_nil_r.
  - destruct (restore_tab_asks tabData w) as (w1 & added1 & Hrun1 & Hcalls1 & Htest1).
    destruct (IH w1) as (w' & added & Hrun & Hcalls & Hcount).
    exists w', (newPage :: added1 ++ added). split_and!.
    + simpl. unfold mbind at 1. unfold M_bind at 1. unfold bind at 1. by rewrite Hrun1.
    + rewrite Hcalls, Hcalls1, <- app_assoc. done.
    + rewrite filter_cons_True by done. rewrite filter_app, filter_forallb_negb by done.
      simpl. by rewrite Hcount.
Qed.

Lemma bind_normal {A B} (m : M A) (k : A → M B) (w w1 : World) (a : A) :
  m w = (Normal a, w1) → (m ≫= k) w = k a w1.
Proof. intros Hm. unfold mbind, M_bind, bind. by rewrite Hm. Qed.

Lemma bind_throw {A B} (m : M A) (k : A → M B) (w w1 : World) (e : JsError) :
  m w = (Throw e, w1) → (m ≫= k) w = (Throw e, w1).
Proof. intros Hm. unfold mbind, M_bind, bind. by rewrite Hm. Qed.

(** The part of [_restoreState] that follows the init script: it
    completes normally and asks for one new page for each saved tab
    after the first. *)
Lemma restore_tabs_asks (saved : SavedBrowserState) (w : World) :
  ∃ w' added,
    match ss_tabs saved with
    | [] => mret tt
    | firstTab :: more =>
        e ← get_eng;
        match pages e with
        | page0 :: _ =>
            if decide (url firstTab ≠ "about:blank")
            then try_catch
                   (engine (goto page0 (url firstTab));;
                    _restoreSessionStorageForPage page0 (sessionStorage firstTab))
                   (fun _ => mret tt)
            else mret tt
        | [] => mret tt
        end;;
        restore_more_tabs more;;
        c ← get_ctx;
        if ((0 <=? ss_currentTabIndex saved)
            && (ss_currentTabIndex saved <? Z.of_nat (length (_tabs c))))%Z
        then try_catch (selectTab (ss_currentTabIndex saved + 1)) (fun _ => mret tt)
        else mret tt
    end w = (Normal tt, w') ∧
    calls (eng w') = calls (eng w) ++ added ∧
    length (filter is_newPage added) = length (ss_tabs saved) - 1.
Proof.
  destruct (ss_tabs saved) as [|firstTab more].
  { exists w, []. by rewrite app_nil_r. }
  erewrite bind_normal by reflexivity.
  set (first := match pages (eng w) with [] => _ | _ => _ end).
  assert (∃ w1 added1, first w = (Normal tt, w1) ∧
            calls (eng w1) = calls (eng w) ++ added1 ∧
            forallb (fun call => negb (is_newPage call)) added1 = true)
    as (w1 & added1 & Hfirst & Hcalls1 & Htest1).
  { unfold first. destruct (pages (eng w)) as [|page0 ?].
    { exists w, []. by rewrite app_nil_r. }
    case_decide.
    - apply swallow_asks. asks_step; [asks_step|]. apply restoreSessionStorageForPage_asks.
    - exists w, []. by rewrite app_nil_r. }
  erewrite bind_normal by exact Hfirst.
  destruct (restore_more_tabs_asks more w1) as (w2 & added2 & Hmore & Hcalls2 & Hcount2).
  erewrite bind_normal by exact Hmore.
  erewrite bind_normal by reflexivity.
  set (select := if (_ && _)%Z then _ else _).
  assert (∃ w3 added3, select w2 = (Normal tt, w3) ∧
            calls (eng w3) = calls (eng w2) ++ added3 ∧
            forallb (fun call => negb (is_newPage call)) added3 = true)
    as (w3 & added3 & Hselect & Hcalls3 & Htest3).
  { unfold select. case_match.
    - apply swallow_asks, selectTab_asks.
    - exists w2, []. by rewrite app_nil_r. }
  exists w3, (added1 ++ added2 ++ added3). split_and!.
  - exact Hselect.
  - by rewrite Hcalls3, Hcalls2, Hcalls1, <- !app_assoc.
  - rewrite !filter_app.
    rewrite (filter_forallb_negb _ added1), (filter_forallb_negb _ added3) by done.
    simpl. rewrite app_nil_r, Hcount2. lia.
Qed.

(** X14. When the init script is installed (or there is none to
    install), [_restoreState] asks for one new page for every saved tab
    after the first, however the engine answers the navigations, the
    page creations, the replays of session storage and the selection: a
    failure on one tab does not stop the restore of the later ones. *)
Theorem restoreState_attempts_every_tab (w : World) (saved : SavedBrowserState) :
  _savedState (ctx w) = Some saved →
  ss_sessionStorage saved = [] ∨ reply_at 0 (eng w) = Succeeds →
  (_restoreState w).1 = Normal tt ∧
  length (filter is_newPage (asked_since w (_restoreState w).2))
  = length (ss_tabs saved) - 1.
Proof.
  intros Hsaved Hscript. unfold _restoreState.
  erewrite bind_normal by reflexivity. rewrite Hsaved, try_finally_assigns.
  set (script := match ss_sessionStorage saved with [] => _ | _ => _ end).
  assert (∃ w1 added1, script w = (Normal tt, w1) ∧
            calls (eng w1) = calls (eng w) ++ added1 ∧
            forallb (fun call => negb (is_newPage call)) added1 = true)
    as (w1 & added1 & Hrun1 & Hcalls1 & Htest1).
  { unfold script. destruct (ss_sessionStorage saved) as [|entry entries] eqn:Hstorage.
    { exists w, []. by rewrite app_nil_r. }
    destruct Hscript as [?|Hreply]; [done|]. rewrite engine_run, Hreply.
    eexists _, [_]. split_and!; reflexivity. }
  destruct (restore_tabs_asks saved w1) as (w2 & added2 & Hrun2 & Hcalls2 & Hcount2).
  match goal with
  | |- context [try_catch ?body ?handler w] =>
      assert (try_catch body handler w = (Normal tt, w2)) as ->
  end.
  { unfold try_catch at 1. erewrite bind_normal by exact Hrun1. by rewrite Hrun2. }
  simpl.
  split; [done|].
  erewrite asked_since_app; [|simpl; by rewrite Hcalls2, Hcalls1, <- app_assoc].
  by rewrite filter_app, filter_forallb_negb.
Qed.

Lemma restoreState_attempts_every_tab_witness :
  let saved := mkSavedBrowserState (Some "cookies") []
                 [mkSavedTab "https://a.example/" [("k", "v")];
                  mkSavedTab "https://b.example/" [];
                  mkSavedTab "about:blank" []] 1 in
  let w := mkWorld (set_savedState (Some saved) (_onPageCreated 0 0 new_Context))
             (mkEngine [Fails "net::ERR_FAILED"; Fails "Target closed"; Succeeds;
                        Fails "net::ERR_FAILED"]
                       [] [0] 1 (fun _ => "about:blank") (fun _ => []) "cookies") in
  (_restoreState w).1 = Normal tt ∧
  length (filter is_newPage (asked_since w (_restoreState w).2)) = 2.
Proof.
  intros saved w. exact (restoreState_attempts_every_tab w saved eq_refl (or_introl eq_refl)).
Defined.

(** X15. When the installation of the init script is rejected,
    [_restoreState] abandons the restore: the installation is the only
    operation asked of the engine, no tab is navigated, opened or
    selected, and the snapshot is discarded all the same. *)
Theorem restoreState_script_failure_abandons (w : World) (saved : SavedBrowserState)
    (message : string) :
  _savedState (ctx w) = Some saved →
  ss_sessionStorage saved ≠ [] →
  reply_at 0 (eng w) = Fails message →
  _restoreState w
  = (Normal tt,
     mkWorld (set_savedState None (ctx w))
             (asked (addInitScript (ss_sessionStorage saved)) (next_reply (eng w)).2 (eng w))).
Proof.
  intros Hsaved Hstorage Hreply. unfold _restoreState.
  erewrite bind_normal by reflexivity. rewrite Hsaved, try_finally_assigns.
  destruct (ss_sessionStorage saved) as [|entry entries]; [done|].
  match goal with
  | |- context [try_catch ?body ?handler w] =>
      assert (try_catch body handler w
              = (Normal tt,
                 mkWorld (ctx w)
                         (asked (addInitScript (entry :: entries))
                                (next_reply (eng w)).2 (eng w)))) as ->
  end.
  { unfold try_catch at 1. erewrite bind_throw; [done|]. by rewrite engine_run, Hreply. }
  done.
Qed.

Lemma restoreState_script_failure_abandons_witness :
  let saved := mkSavedBrowserState None [("a.example", [("k", "v")])]
                 [mkSavedTab "https://a.example/" []; mkSavedTab "https://b.example/" []] 1 in
  let e := mkEngine [Fails "Target closed"] [] [0] 1 (fun _ => "about:blank") (fun _ => [])
             "cookies" in
  let c := set_savedState (Some saved) (_onPageCreated 0 0 new_Context) in
  _restoreState (mkWorld c e)
  = (Normal tt,
     mkWorld (set_savedState None c)
             (asked (addInitScript [("a.example", [("k", "v")])]) [] e)).
Proof.
  intros saved e c.
  assert (ss_sessionStorage saved ≠ []) as Hsome by discriminate.
  exact (restoreState_script_failure_abandons (mkWorld c e) saved "Target closed"
           eq_refl Hsome eq_refl).
Defined.

(** ** Restore against an engine that rejects nothing *)

Lemma engine_quiet (call : EngineCall) (w : World) :
  replies (eng w) = [] →
  engine call w = (Normal tt, mkWorld (ctx w) (asked call [] (eng w))).
Proof. intros Hquiet. unfold engine, next_reply. by rewrite Hquiet. Qed.

Lemma restore_tab_quiet (tabData : SavedTab) (w : World) :
  replies (eng w) = [] →
  ∃ w',
    try_catch
      (page ← browserContext_newPage;
       if decide (url tabData ≠ "about:blank")
       then engine (goto page (url tabData));;
            _restoreSessionStorageForPage page (sessionStorage tabData)
       else mret tt)
      (fun _ => mret tt) w = (Normal tt, w') ∧
    replies (eng w') = [] ∧
    ctx w' = _onPageCreated (fresh (eng w)) (fresh (eng w)) (ctx w).
Proof.
  intros Hquiet. destruct w as [c [rs ? ? ? ? ? ?]]. simpl in Hquiet. subst rs.
  unfold try_catch, browserContext_newPage, _restoreSessionStorageForPage.
  unfold mbind, M_bind, bind, engine, next_reply, get_eng, modify_eng, modify_ctx.
  simpl. case_decide; [|by eexists]. simpl.
  destruct (sessionStorage tabData); simpl; by eexists.
Qed.

Lemma restore_more_tabs_quiet (more : list SavedTab) (w : World) :
  replies (eng w) = [] →
  ∃ w' opened,
    restore_more_tabs more w = (Normal tt, w') ∧
    replies (eng w') = [] ∧
    _tabs (ctx w') = _tabs (ctx w) ++ opened ∧
    length opened = length more ∧
    _currentTab (ctx w') = from_option Some (head opened) (_currentTab (ctx w)).
Proof.
  revert w. induction more as [|tabData more IH]; intros w Hquiet.
  - exists w, []. rewrite app_nil_r. by destruct (_currentTab (ctx w)).
  - destruct (restore_tab_quiet tabData w Hquiet) as (w1 & Hrun1 & Hquiet1 & Hctx1).
    destruct (IH w1 Hquiet1) as (w' & opened & Hrun & Hquiet' & Htabs & Hlen & Hcurrent).
    exists w', (mkTab (fresh (eng w)) (fresh (eng w)) :: opened). split_and!; try done.
    + simpl. erewrite bind_normal by exact Hrun1. done.
    + rewrite Htabs, Hctx1. unfold _onPageCreated. simpl.
      destruct (_currentTab (ctx w)); simpl; by rewrite <- app_assoc.
    + simpl. by rewrite Hlen.
    + rewrite Hcurrent, Hctx1. unfold _onPageCreated. simpl.
      destruct (_currentTab (ctx w)) eqn:Hc; simpl; by rewrite ?Hc.
Qed.

Lemma restore_tabs_quiet (saved : SavedBrowserState) (firstTab : SavedTab)
    (more : list SavedTab) (w : World) :
  replies (eng w) = [] →
  ∃ w' opened,
    (e ← get_eng;
     match pages e with
     | page0 :: _ =>
         if decide (url firstTab ≠ "about:blank")
         then try_catch
                (engine (goto page0 (url firstTab));;
                 _restoreSessionStorageForPage page0 (sessionStorage firstTab))
                (fun _ => mret tt)
         else mret tt
     | [] => mret tt
     end;;
     restore_more_tabs more;;
     c ← get_ctx;
     if ((0 <=? ss_currentTabIndex saved)
         && (ss_currentTabIndex saved <? Z.of_nat (length (_tabs c))))%Z
     then try_catch (selectTab (ss_currentTabIndex saved + 1)) (fun _ => mret tt)
     else mret tt) w = (Normal tt, w') ∧
    _tabs (ctx w') = _tabs (ctx w) ++ opened ∧
    length opened = length more ∧
    _savedState (ctx w') = _savedState (ctx w) ∧
    _currentTab (ctx w')
    = (if ((0 <=? ss_currentTabIndex saved)
           && (ss_currentTabIndex saved <? Z.of_nat (length (_tabs (ctx w')))))%Z
       then js_index (_tabs (ctx w')) (ss_currentTabIndex saved)
       else from_option Some (head opened) (_currentTab (ctx w))).
Proof.
  intros Hquiet.
  erewrite bind_normal by reflexivity.
  set (first := match pages (eng w) with [] => _ | _ => _ end).
  assert (∃ w2, first w = (Normal tt, w2) ∧ replies (eng w2) = [] ∧ ctx w2 = ctx w)
    as (w2 & Hrun2 & Hquiet2 & Hctx2).
  { unfold first. destruct (pages (eng w)) as [|page0 ?]; [by exists w|].
    case_decide; [|by exists w].
    unfold try_catch. erewrite bind_normal by (by apply engine_quiet).
    unfold _restoreSessionStorageForPage. destruct (sessionStorage firstTab).
    - by eexists.
    - unfold try_catch. rewrite engine_quiet by done. by eexists. }
  destruct (restore_more_tabs_quiet more w2 Hquiet2)
    as (w3 & opened & Hrun3 & Hquiet3 & Htabs3 & Hlen3 & Hcurrent3).
  assert (_savedState (ctx w3) = _savedState (ctx w)) as Hsaved3.
  { rewrite <- Hctx2. clear -Hrun3 Hquiet2. revert w2 Hquiet2 Hrun3.
    induction more as [|tabData more IH]; intros w2 Hquiet2 Hrun3.
    - by injection Hrun3 as <-.
    - destruct (restore_tab_quiet tabData w2 Hquiet2) as (w1 & Hrun1 & Hquiet1 & Hctx1).
      simpl in Hrun3. erewrite bind_normal in Hrun3 by exact Hrun1.
      rewrite (IH w1 Hquiet1 Hrun3), Hctx1. unfold _onPageCreated. simpl.
      by destruct (_currentTab (ctx w2)). }
  rewrite Hctx2 in Htabs3, Hcurrent3.
  erewrite bind_normal by exact Hrun2. erewrite bind_normal by exact Hrun3.
  erewrite bind_normal by reflexivity.
  destruct (_ && _)%Z eqn:Hrange.
  - pose proof Hrange as [Hlow Hhigh]%andb_prop.
    apply Z.leb_le in Hlow. apply Z.ltb_lt in Hhigh.
    assert (js_index (_tabs (ctx w3)) (ss_currentTabIndex saved + 1 - 1)
            = js_index (_tabs (ctx w3)) (ss_currentTabIndex saved)) as Hindex
      by (f_equal; lia).
    destruct (js_index (_tabs (ctx w3)) (ss_currentTabIndex saved)) as [tab|] eqn:Hlookup.
    + unfold try_catch, selectTab, mbind, M_bind, bind, get_ctx, modify_ctx. simpl.
      rewrite Hindex. simpl. rewrite engine_quiet by done.
      eexists _, opened. split_and!; [reflexivity|done|done|done|]. simpl.
      by rewrite Hrange.
    + unfold js_index in Hlookup.
      destruct (Z.ltb_spec (ss_currentTabIndex saved) 0); [lia|].
      apply lookup_ge_None in Hlookup. lia.
  - exists w3, opened. split_and!; [done|done|done|done|]. by rewrite Hrange.
Qed.

(** A restore against an engine that rejects nothing. *)
Lemma restore_quiet (w : World) (saved : SavedBrowserState) :
  _savedState (ctx w) = Some saved →
  replies (eng w) = [] →
  ss_tabs saved ≠ [] →
  let w' := (_restoreState w).2 in
  ∃ opened,
    _tabs (ctx w') = _tabs (ctx w) ++ opened ∧
    length opened = length (ss_tabs saved) - 1 ∧
    _currentTab (ctx w')
    = (if ((0 <=? ss_currentTabIndex saved)
           && (ss_currentTabIndex saved <? Z.of_nat (length (_tabs (ctx w')))))%Z
       then js_index (_tabs (ctx w')) (ss_currentTabIndex saved)
       else from_option Some (head opened) (_currentTab (ctx w))).
Proof.
  intros Hsaved Hquiet Hsome w'. unfold w', _restoreState.
  erewrite bind_normal by reflexivity. rewrite Hsaved, try_finally_assigns.
  destruct (ss_tabs saved) as [|firstTab more] eqn:Htabs; [done|]. clear Hsome.
  set (script := match ss_sessionStorage saved with [] => _ | _ => _ end).
  assert (∃ w1, script w = (Normal tt, w1) ∧ replies (eng w1) = [] ∧ ctx w1 = ctx w)
    as (w1 & Hrun1 & Hquiet1 & Hctx1).
  { unfold script. destruct (ss_sessionStorage saved).
    - by exists w.
    - rewrite engine_quiet by done. by eexists. }
  destruct (restore_tabs_quiet saved firstTab more w1 Hquiet1)
    as (w4 & opened & Hrun4 & Htabs4 & Hlen4 & _ & Hcurrent4).
  match goal with
  | |- context [try_catch ?body ?handler w] =>
      assert (try_catch body handler w = (Normal tt, w4)) as ->
  end.
  { unfold try_catch at 1. erewrite bind_normal by exact Hrun1. by rewrite Hrun4. }
  simpl. rewrite Hcurrent4, Htabs4, Hctx1.
  exists opened. split_and!; [done| |done]. rewrite Hlen4. simpl. lia.
Qed.

(** X16. Against an engine that rejects nothing, [_restoreState] of a
    snapshot with tabs keeps the registered tabs and opens one tab for
    every saved tab after the first. When the saved index is within the
    resulting tabs, the tab at that index becomes the current one;
    otherwise the current tab stays, or is the first opened tab when
    there was none. *)
Theorem restoreState_rebuilds_tabs (w : World) (saved : SavedBrowserState) :
  _savedState (ctx w) = Some saved →
  replies (eng w) = [] →
  ss_tabs saved ≠ [] →
  let w' := (_restoreState w).2 in
  ∃ opened,
    _tabs (ctx w') = _tabs (ctx w) ++ opened ∧
    length opened = length (ss_tabs saved) - 1 ∧
    _currentTab (ctx w')
    = (if ((0 <=? ss_currentTabIndex saved)
           && (ss_currentTabIndex saved <? Z.of_nat (length (_tabs (ctx w')))))%Z
       then js_index (_tabs (ctx w')) (ss_currentTabIndex saved)
       else from_option Some (head opened) (_currentTab (ctx w))).
Proof. apply restore_quiet. Qed.

Lemma restoreState_rebuilds_tabs_witness :
  let saved := mkSavedBrowserState (Some "cookies") []
                 [mkSavedTab "https://a.example/" [("k", "v")];
                  mkSavedTab "https://b.example/" [];
                  mkSavedTab "about:blank" []] 1 in
  let w := mkWorld (set_savedState (Some saved) (_onPageCreated 0 0 new_Context))
             (mkEngine [] [] [0] 1 (fun _ => "about:blank") (fun _ => []) "cookies") in
  ∃ opened,
    _tabs (ctx (_restoreState w).2) = _tabs (ctx w) ++ opened ∧
    length opened = 2 ∧
    _currentTab (ctx (_restoreState w).2)
    = (if ((0 <=? 1) && (1 <? Z.of_nat (length (_tabs (ctx (_restoreState w).2)))))%Z
       then js_index (_tabs (ctx (_restoreState w).2)) 1
       else from_option Some (head opened) (_currentTab (ctx w))).
Proof.
  intros saved w.
  assert (ss_tabs saved ≠ []) as Hsome by discriminate.
  exact (restoreState_rebuilds_tabs w saved eq_refl eq_refl Hsome).
Defined.

(** ** The selected tab in a snapshot *)

Lemma capture_tab_index (i : nat) (tab : Tab) (state : SavedBrowserState) (w : World) :
  ∃ state',
    capture_tab i tab state w
    = (Normal state',
       mkWorld (ctx w)
               (asked (evaluate_sessionStorage (tab_page tab)) (next_reply (eng w)).2 (eng w))) ∧
    ss_sessionStorage state' = ss_sessionStorage state ∧
    ss_currentTabIndex state'
    = match reply_at 0 (eng w) with
      | Succeeds =>
          if decide (Some tab = _currentTab (ctx w)) then Z.of_nat i
          else ss_currentTabIndex state
      | Fails _ => ss_currentTabIndex state
      end.
Proof.
  unfold capture_tab, try_catch, mbind, M_bind, bind, get_eng, get_ctx, mret, M_ret, ret.
  simpl. rewrite engine_run.
  destruct (reply_at 0 (eng w)) as [|message]; simpl.
  - case_decide; eexists; split_and!; reflexivity.
  - eexists; split_and!; reflexivity.
Qed.

Lemma capture_tabs_index (tabs : list Tab) (i : nat) (state : SavedBrowserState) (w : World) :
  ∃ state' w',
    capture_tabs i tabs state w = (Normal state', w') ∧
    ss_sessionStorage state' = ss_sessionStorage state ∧
    ((∀ j tab, tabs !! j = Some tab → Some tab = _currentTab (ctx w) →
               reply_at j (eng w) ≠ Succeeds) →
     ss_currentTabIndex state' = ss_currentTabIndex state) ∧
    (∀ j tab, tabs !! j = Some tab → Some tab = _currentTab (ctx w) →
              reply_at j (eng w) = Succeeds →
              (∀ k, j < k → tabs !! k ≠ Some tab) →
              ss_currentTabIndex state' = Z.of_nat (i + j)).
Proof.
  revert i state w. induction tabs as [|tab tabs IH]; intros i state w.
  - exists state, w. by split_and!.
  - destruct (capture_tab_index i tab state w) as (state1 & Hrun1 & Hsession1 & Hindex1).
    set (w1 := mkWorld _ _) in Hrun1.
    destruct (IH (S i) state1 w1) as (state' & w' & Hrun & Hsession & Hnone & Hsome).
    assert (∀ j, reply_at j (eng w1) = reply_at (S j) (eng w)) as Hreplies.
    { intros j. unfold w1. simpl. by rewrite reply_at_asked. }
    exists state', w'. split_and!.
    + simpl. unfold mbind, M_bind, bind. by rewrite Hrun1.
    + by rewrite Hsession.
    + intros Hfailed. rewrite Hnone.
      * rewrite Hindex1. destruct (reply_at 0 (eng w)) eqn:Hreply; [|done].
        case_decide as Hcurrent; [|done]. by destruct (Hfailed 0 tab eq_refl Hcurrent).
      * intros j t Hj Hcurrent. rewrite Hreplies. by apply (Hfailed (S j) t).
    + intros [|j] t Hj Hcurrent Hreply Hlast; simpl in Hj.
      * injection Hj as ->. rewrite Hnone.
        { rewrite Hindex1, Hreply, decide_True by done. f_equal. lia. }
        intros j t' Hj Hcurrent' _. apply (Hlast (S j)); [lia|].
        unfold w1 in Hcurrent'. simpl in *. congruence.
      * rewrite (Hsome j t Hj Hcurrent); [f_equal; lia|by rewrite Hreplies|].
        intros k Hk. apply (Hlast (S k)). lia.
Qed.

Lemma capture_current_tab (w : World) (p : PromiseRef)
    (state : SavedBrowserState) :
  _browserContextPromise (ctx w) = Some p →
  NoDup (_tabs (ctx w)) →
  (captureCurrentState w).1 = Normal (Some state) →
  ss_sessionStorage state = [] ∧
  (∀ i tab, _tabs (ctx w) !! i = Some tab → _currentTab (ctx w) = Some tab →
     ss_currentTabIndex state
     = match reply_at (2 + i) (eng w) with
       | Succeeds => Z.of_nat i
       | Fails _ => 0%Z
       end) ∧
  ((∀ tab, _currentTab (ctx w) = Some tab → tab ∉ _tabs (ctx w)) →
   ss_currentTabIndex state = 0%Z).
Proof.
  intros Hmemo Hnodup. unfold captureCurrentState.
  destruct (reply_at 0 (eng w)) as [|message] eqn:Hreply; cycle 1.
  { destruct (capture_failed_handle w p message Hmemo Hreply) as (w' & -> & _). done. }
  unfold _captureCurrentState, await_browserContextPromise.
  unfold try_catch at 1. unfold mbind, M_bind, bind, get_ctx, throw.
  rewrite Hmemo, engine_run, Hreply.
  set (w1 := mkWorld (ctx w) (asked (await_handle p) (next_reply (eng w)).2 (eng w))).
  unfold try_catch at 1. rewrite engine_run.
  assert (reply_at 0 (eng w1) = reply_at 1 (eng w)) as -> by apply reply_at_asked.
  set (w2 := mkWorld (ctx w1) (asked storageState (next_reply (eng w1)).2 (eng w1))).
  assert (∀ j, reply_at j (eng w2) = reply_at (2 + j) (eng w)) as Hreplies.
  { intros j. unfold w2. simpl. rewrite reply_at_asked. unfold w1. simpl.
    by rewrite reply_at_asked. }
  assert (∀ state0, ss_sessionStorage state0 = [] → ss_currentTabIndex state0 = 0%Z →
            ∀ r, (capture_tabs 0 (_tabs (ctx w)) state0 w2).1 = Normal r →
              ss_sessionStorage r = [] ∧
              (∀ i tab, _tabs (ctx w) !! i = Some tab → _currentTab (ctx w) = Some tab →
                 ss_currentTabIndex r
                 = match reply_at (2 + i) (eng w) with
                   | Succeeds => Z.of_nat i
                   | Fails _ => 0%Z
                   end) ∧
              ((∀ tab, _currentTab (ctx w) = Some tab → tab ∉ _tabs (ctx w)) →
               ss_currentTabIndex r = 0%Z)) as Hloop.
  { intros state0 Hsession0 Hindex0 r.
    destruct (capture_tabs_index (_tabs (ctx w)) 0 state0 w2)
      as (state' & w' & Hrun & Hsession & Hnone & Hsome).
    rewrite Hrun. simpl. intros [= <-]. split_and!.
    - by rewrite Hsession.
    - intros i tab Hi Hcurrent.
      rewrite <- (Hreplies i : reply_at i (eng w2) = reply_at (S (S i)) (eng w)).
      destruct (reply_at i (eng w2)) as [|message] eqn:Hri.
      + rewrite (Hsome i tab Hi); [done|by simpl|done|].
        intros k Hk Hk'. pose proof (NoDup_lookup _ _ _ _ Hnodup Hi Hk'). lia.
      + rewrite Hnone; [done|]. intros j t Hj Hcur. simpl in Hcur.
        assert (t = tab) as -> by congruence.
        pose proof (NoDup_lookup _ _ _ _ Hnodup Hi Hj) as <-. by rewrite Hri.
    - intros Habsent. rewrite Hnone; [done|]. intros j t Hj Hcur. simpl in Hcur.
      destruct (Habsent t); [done|]. by eapply list_elem_of_lookup_2. }
  assert (∀ state0 w0 r,
            (match (match (match _tabs (ctx w) with
                           | [] => mret state0
                           | _ :: _ => capture_tabs 0 (_tabs (ctx w)) state0
                           end) w0 with
                    | (Normal a, w') => (Normal (Some a), w')
                    | (Throw e, w') => (Throw e, w')
                    end) with
             | (Normal a, w') => (Normal a, w')
             | (Throw _, w') => (Normal None, w')
             end).1 = Normal (Some r) →
            (capture_tabs 0 (_tabs (ctx w)) state0 w0).1 = Normal r) as Hguard.
  { intros state0 w0 r. rewrite capture_tabs_guard.
    destruct (capture_tabs _ _ _ _) as [[a|e] w']; simpl; congruence. }
  destruct (reply_at 1 (eng w)) as [|message1]; unfold get_eng, mret, M_ret, ret; simpl;
    intros Hrun; apply Hguard in Hrun; revert Hrun; by apply Hloop.
Qed.

(** X17. A snapshot taken by [captureCurrentState] while no tab is
    registered twice carries no context-wide session storage. Its
    selected index is the position of the current tab when the session
    storage of that tab could be read, and [0] when that read was
    rejected or the current tab is not registered. *)
Theorem captureCurrentState_current_tab (w : World) (p : PromiseRef)
    (state : SavedBrowserState) :
  _browserContextPromise (ctx w) = Some p →
  NoDup (_tabs (ctx w)) →
  (captureCurrentState w).1 = Normal (Some state) →
  ss_sessionStorage state = [] ∧
  (∀ i tab, _tabs (ctx w) !! i = Some tab → _currentTab (ctx w) = Some tab →
     ss_currentTabIndex state
     = match reply_at (2 + i) (eng w) with
       | Succeeds => Z.of_nat i
       | Fails _ => 0%Z
       end) ∧
  ((∀ tab, _currentTab (ctx w) = Some tab → tab ∉ _tabs (ctx w)) →
   ss_currentTabIndex state = 0%Z).
Proof. apply capture_current_tab. Qed.

Lemma captureCurrentState_current_tab_witness :
  let c := set_currentTab (Some (mkTab 1 11))
             (set_tabs [mkTab 0 10; mkTab 1 11]
                (set_browserContextPromise (Some 0) new_Context)) in
  let e := mkEngine [] [] [10; 11] 12 (fun _ => "https://example.com/")
             (fun _ => [("k", "v")]) "cookies" in
  let failing := mkEngine [Succeeds; Succeeds; Succeeds; Fails "Target closed"] [] [10; 11] 12
                   (fun _ => "https://example.com/") (fun _ => [("k", "v")]) "cookies" in
  let entry := mkSavedTab "https://example.com/" [("k", "v")] in
  ss_currentTabIndex (mkSavedBrowserState (Some "cookies") [] [entry; entry] 1) = 1%Z ∧
  ss_currentTabIndex
    (mkSavedBrowserState (Some "cookies") [] [entry; mkSavedTab "about:blank" []] 0) = 0%Z.
Proof.
  intros c e failing entry.
  assert (NoDup (_tabs c)) as Hnodup by (apply (bool_decide_unpack _); vm_compute; exact I).
  split.
  - exact (proj1 (proj2 (captureCurrentState_current_tab (mkWorld c e) 0
                           (mkSavedBrowserState (Some "cookies") [] [entry; entry] 1)
                           eq_refl Hnodup eq_refl))
                 1 (mkTab 1 11) eq_refl eq_refl).
  - exact (proj1 (proj2 (captureCurrentState_current_tab (mkWorld c failing) 0
                           (mkSavedBrowserState (Some "cookies") []
                              [entry; mkSavedTab "about:blank" []] 0)
                           eq_refl Hnodup eq_refl))
                 1 (mkTab 1 11) eq_refl eq_refl).
Defined.

Lemma reply_at_quiet (e : Engine) (k : nat) : replies e = [] → reply_at k e = Succeeds.
Proof. intros Hquiet. unfold reply_at. by rewrite Hquiet. Qed.

(** X18. Capture followed by restore, against an engine that rejects
    nothing. Into a context that starts with one registered page, the
    restore rebuilds as many tabs as were captured and selects the tab
    at the position of the captured current tab. Into a context that
    starts without a page, it rebuilds one tab fewer: the first saved
    tab is only ever restored into an existing page. *)
Theorem capture_restore_round_trip (w w0 : World) (p : PromiseRef)
    (state : SavedBrowserState) (i : nat) (tab : Tab) :
  _browserContextPromise (ctx w) = Some p →
  NoDup (_tabs (ctx w)) →
  _tabs (ctx w) !! i = Some tab →
  _currentTab (ctx w) = Some tab →
  replies (eng w) = [] →
  (captureCurrentState w).1 = Normal (Some state) →
  _savedState (ctx w0) = Some state →
  replies (eng w0) = [] →
  let w' := (_restoreState w0).2 in
  (length (_tabs (ctx w0)) = 1 →
   length (_tabs (ctx w')) = length (_tabs (ctx w)) ∧
   _currentTab (ctx w') = _tabs (ctx w') !! i) ∧
  (_tabs (ctx w0) = [] → length (_tabs (ctx w')) = length (_tabs (ctx w)) - 1).
Proof.
  intros Hmemo Hnodup Hi Hcurrent Hquiet Hcapture Hsaved Hquiet0 w'.
  destruct (capture_live w p Hmemo (reply_at_quiet _ 0 Hquiet))
    as (state' & w1 & Hrun & _ & _ & Htabs).
  unfold captureCurrentState in Hcapture. rewrite Hrun in Hcapture.
  injection Hcapture as ->.
  assert (length (ss_tabs state) = length (_tabs (ctx w))) as Hlen
    by (rewrite Htabs; apply length_imap).
  apply lookup_lt_Some in Hi as Hlt.
  assert (ss_currentTabIndex state = Z.of_nat i) as Hindex.
  { destruct (capture_current_tab w p state Hmemo Hnodup) as (_ & Hsel & _).
    - unfold captureCurrentState. by rewrite Hrun.
    - rewrite (Hsel i tab Hi Hcurrent). by rewrite reply_at_quiet. }
  assert (ss_tabs state ≠ []) as Hsome.
  { intros Hnil. rewrite Hnil in Hlen. simpl in Hlen. lia. }
  destruct (restore_quiet w0 state Hsaved Hquiet0 Hsome)
    as (opened & Hopened & Hcount & Hselected).
  fold w' in Hopened, Hselected. split.
  - intros Hone.
    assert (length (_tabs (ctx w')) = length (_tabs (ctx w))) as Hsame.
    { rewrite Hopened, length_app. lia. }
    split; [done|]. rewrite Hselected, Hindex, Hsame, js_index_nat.
    destruct (Z.leb_spec 0 (Z.of_nat i)); [|lia].
    destruct (Z.ltb_spec (Z.of_nat i) (Z.of_nat (length (_tabs (ctx w))))); [done|lia].
  - intros Hnone. rewrite Hopened, Hnone. simpl. lia.
Qed.

Lemma capture_restore_round_trip_witness :
  let c := set_currentTab (Some (mkTab 1 11))
             (set_tabs [mkTab 0 10; mkTab 1 11; mkTab 2 12]
                (set_browserContextPromise (Some 0) new_Context)) in
  let e := mkEngine [] [] [10; 11; 12] 13 (fun _ => "https://example.com/")
             (fun _ => [("k", "v")]) "cookies" in
  let entry := mkSavedTab "https://example.com/" [("k", "v")] in
  let state := mkSavedBrowserState (Some "cookies") [] [entry; entry; entry] 1 in
  let persistent :=
    mkWorld (set_savedState (Some state) (_onPageCreated 0 0 new_Context))
            (mkEngine [] [] [0] 1 (fun _ => "about:blank") (fun _ => []) "cookies") in
  let isolated :=
    mkWorld (set_savedState (Some state) new_Context)
            (mkEngine [] [] [] 0 (fun _ => "about:blank") (fun _ => []) "cookies") in
  (length (_tabs (ctx (_restoreState persistent).2)) = 3 ∧
   _currentTab (ctx (_restoreState persistent).2)
   = _tabs (ctx (_restoreState persistent).2) !! 1) ∧
  length (_tabs (ctx (_restoreState isolated).2)) = 3 - 1.
Proof.
  intros c e entry state persistent isolated.
  assert (NoDup (_tabs c)) as Hnodup by (apply (bool_decide_unpack _); vm_compute; exact I).
  split.
  - exact (proj1 (capture_restore_round_trip (mkWorld c e) persistent 0 state 1 (mkTab 1 11)
                    eq_refl Hnodup eq_refl eq_refl eq_refl eq_refl eq_refl eq_refl)
                 eq_refl).
  - exact (proj2 (capture_restore_round_trip (mkWorld c e) isolated 0 state 1 (mkTab 1 11)
                    eq_refl Hnodup eq_refl eq_refl eq_refl eq_refl eq_refl eq_refl)
                 eq_refl).
Defined.

(** ** The report of the modal states *)

Lemma append_assoc (s t u : string) : (s +:+ t) +:+ u = s +:+ t +:+ u.
Proof.
  induction s as [|a s IH]; [by rewrite !append_empty|].
  by rewrite !append_String, IH.
Qed.

(** X19. The report of the modal states. Without modal states it is
    the heading and the line that says so. After [dialogShown] it is
    the heading and one line per modal state in order, the last one for
    the new dialog; the line that says there is none is absent; and the
    last line quotes the type and the message of the dialog and names
    the first tool that clears dialogs. *)
Theorem modalStatesMarkdown_after_dialog (tools : list Tool) (tab : Tab) (d : Dialog)
    (c : Context) :
  (_modalStates c = [] →
   modalStatesMarkdown tools c = ["### Modal state"; "- There is no modal state present"]) ∧
  let report := modalStatesMarkdown tools (dialogShown tab d c) in
  report = "### Modal state" :: (map (modal_line tools) (_modalStates c)
                                 ++ [modal_line tools (mkModalState (dialog_state d) tab)]) ∧
  ("- There is no modal state present" ∉ report) ∧
  (∀ tool, find (fun tool => bool_decide (clearsModalState tool = Some dialog)) tools
           = Some tool →
     last report
     = Some ("- [" +:+ DQ +:+ dialog_type d +:+ DQ +:+ " dialog with message " +:+ DQ
                   +:+ dialog_message d +:+ DQ +:+ "]: can be handled by the " +:+ DQ
                   +:+ schema_name tool +:+ DQ +:+ " tool")).
Proof.
  split.
  { intros Hnone. unfold modalStatesMarkdown. by rewrite Hnone. }
  intros report.
  assert (report = "### Modal state"
                   :: (map (modal_line tools) (_modalStates c)
                       ++ [modal_line tools (mkModalState (dialog_state d) tab)])) as Hreport.
  { unfold report, modalStatesMarkdown. rewrite dialogShown_modalStates.
    destruct (_modalStates c); simpl; [done|]. by rewrite map_app. }
  split_and!.
  - exact Hreport.
  - rewrite Hreport. intros Hin. apply elem_of_cons in Hin as [Hin|Hin]; [done|].
    assert (∀ state, "- There is no modal state present" ≠ modal_line tools state) as Hne.
    { intros state Hline. unfold modal_line in Hline.
      rewrite !append_String, append_empty in Hline. discriminate. }
    apply elem_of_app in Hin as [Hin|Hin].
    + apply list_elem_of_fmap in Hin as (state & Hline & _). by apply (Hne state).
    + apply list_elem_of_singleton in Hin. by apply (Hne _ Hin).
  - intros tool Htool. rewrite Hreport.
    change ("### Modal state" :: ?l ++ [?x]) with (("### Modal state" :: l) ++ [x]).
    rewrite last_snoc. unfold modal_line. simpl. rewrite Htool.
    by rewrite !append_assoc.
Qed.


Lemma modalStatesMarkdown_after_dialog_witness :
  let tools := [mkTool None "browser_snapshot"; mkTool (Some dialog) "browser_handle_dialog";
                mkTool (Some dialog) "browser_press_key"] in
  let d := mkDialog "alert" "Saved" in
  modalStatesMarkdown tools new_Context
  = ["### Modal state"; "- There is no modal state present"] ∧
  last (modalStatesMarkdown tools (dialogShown (mkTab 0 0) d new_Context))
  = Some ("- [" +:+ DQ +:+ "alert" +:+ DQ +:+ " dialog with message " +:+ DQ
                +:+ "Saved" +:+ DQ +:+ "]: can be handled by the " +:+ DQ
                +:+ "browser_handle_dialog" +:+ DQ +:+ " tool").
Proof.
  intros tools d.
  destruct (modalStatesMarkdown_after_dialog tools (mkTab 0 0) d new_Context)
    as (Hnone & _ & _ & Hlast).
  split; [exact (Hnone eq_refl)|].
  exact (Hlast (mkTool (Some dialog) "browser_handle_dialog") eq_refl).
Defined.

(** ** Special file names *)

Lemma sanitize_empty (s : string) : sanitize s = EmptyString ↔ s = EmptyString.
Proof.
  split; [|by intros ->]. unfold sanitize. destruct s as [|a s]; [done|]. simpl.
  by destruct (unsafe_char a).
Qed.

Lemma dotted_single (p q : string) :
  p +:+ String FULL_STOP EmptyString +:+ q = String FULL_STOP EmptyString ↔
  p = EmptyString ∧ q = EmptyString.
Proof.
  split; [|by intros [-> ->]]. destruct p as [|a p].
  - rewrite append_empty, append_String, append_empty. by intros [= ->].
  - rewrite append_String. intros [= _ Hrest]. destruct p; discriminate.
Qed.

(** X20. [sanitizeForFilePath] returns the empty name only for the
    empty input and the name of the current directory, a single full
    stop, only for that very input; it never returns the name of the
    parent directory, two full stops. *)
Theorem sanitizeForFilePath_special_names (s : string) :
  (sanitizeForFilePath s = EmptyString ↔ s = EmptyString) ∧
  (sanitizeForFilePath s = String FULL_STOP EmptyString ↔ s = String FULL_STOP EmptyString) ∧
  sanitizeForFilePath s ≠ String FULL_STOP (String FULL_STOP EmptyString).
Proof.
  destruct (sanitizeForFilePath_cases s) as [[Hnone ->]|(p & q & -> & Hq & ->)].
  - pose proof (sanitize_from_safe false s) as Hsafe. fold (sanitize s) in Hsafe.
    split_and!.
    + apply sanitize_empty.
    + split; intros Hdot.
      * rewrite Hdot in Hsafe. discriminate.
      * rewrite Hdot in Hnone. discriminate.
    + intros Hdots. rewrite Hdots in Hsafe. discriminate.
  - split_and!.
    + split; intros Hempty.
      * destruct (sanitize p); discriminate.
      * destruct p; discriminate.
    + rewrite !dotted_single, !sanitize_empty. done.
    + intros Hdots. apply (f_equal (count_char FULL_STOP)) in Hdots.
      rewrite !count_char_app in Hdots.
      rewrite (safe_no_full_stop (sanitize p)) in Hdots by apply sanitize_from_safe.
      rewrite (safe_no_full_stop (sanitize q)) in Hdots by apply sanitize_from_safe.
      vm_compute in Hdots. discriminate.
Qed.
